(** * Sintesis Pasarela SDK: the session lifecycle manager

    A shallow embedding of [SintesisPasarelaCore] (the universal SDK, v2.0.1)
    and of the older [SintesisPasarela] class (v1.0.0), together with the
    properties of its initialisation, retry, refresh and teardown logic.

    The SDK is asynchronous JavaScript running on a single-threaded event
    loop.  An [async] method runs synchronously up to its first [await] on
    an external event (an HTTP response, a timer) and is resumed when the
    event arrives.  The embedding therefore splits every [async] method at
    those suspension points: the manager's fields live in [Core], suspended
    calls are [Task]s of a [World], and [step] runs one turn of the event
    loop (a call issued by the host, or the arrival of an external event,
    followed by all the promise reactions that need no further event). *)

From stdpp Require Import base option list gmap strings pretty.
From Stdlib Require Import ZArith Lia.

Local Open Scope string_scope.
Local Open Scope list_scope.
Local Open Scope nat_scope.

(** ** Host environment and configuration *)

(** The value of [environment], computed once when the script is loaded. *)
Inductive Env := Web | ReactNative | Worker | Node | Deno | Unknown.

Definition env_name (e : Env) : string :=
  match e with
  | Web => "web"
  | ReactNative => "react-native"
  | Worker => "worker"
  | Node => "node"
  | Deno => "deno"
  | Unknown => "unknown"
  end.

Global Instance Env_eq_dec : EqDecision Env.
Proof. solve_decision. Defined.

(** What the host offers.  [hasTimers] is [typeof setTimeout !== "undefined"]
    ([clearTimeout] comes with it); [document] is [None] when
    [typeof document === "undefined"] and otherwise lists the ids that
    [document.getElementById] finds. *)
Record Host := mkHost {
  environment : Env;
  hasTimers : bool;
  document : option (list string);
}.

(** The constructor's [config] argument.  Optional keys are [option]s;
    an observer is [true] when the key holds a function. *)
Record Config := mkConfig {
  apiKey : string;
  cfg_autoInit : option bool;
  cfg_mode : option string;
  onSuccess : bool;
  onError : bool;
  onLoad : bool;
  onTokenExpired : bool;
}.

(** JavaScript truthiness of a value that is a string, [null] or
    [undefined]. *)
Definition truthy (o : option string) : bool :=
  match o with
  | Some s => negb (String.eqb s "")
  | None => false
  end.

(** [o || d] for such a value. *)
Definition or_else (o : option string) (d : string) : string :=
  match o with
  | Some s => if String.eqb s "" then d else s
  | None => d
  end.

(** [this.config.autoInit]: the default
    [config.autoInit !== false && environment === "web"] is overridden by
    the spread [...config] whenever the caller passed the key. *)
Definition config_autoInit (h : Host) (c : Config) : bool :=
  match cfg_autoInit c with
  | Some b => b
  | None => bool_decide (environment h = Web)
  end.

(** [this.config.mode]: ["auto"] unless the caller passed the key. *)
Definition config_mode (c : Config) : string :=
  match cfg_mode c with
  | Some m => m
  | None => "auto"
  end.

(** ** The manager's fields *)

Definition maxRetries : nat := 3.

Record Core := mkCore {
  accessToken : option string;
  embedUrl : option string;
  isInitialized : bool;
  isLoading : bool;
  retryCount : nat;
  _refreshTimeout : option nat;
}.

Definition set_accessToken (v : option string) (c : Core) : Core :=
  mkCore v (embedUrl c) (isInitialized c) (isLoading c) (retryCount c)
         (_refreshTimeout c).
Definition set_embedUrl (v : option string) (c : Core) : Core :=
  mkCore (accessToken c) v (isInitialized c) (isLoading c) (retryCount c)
         (_refreshTimeout c).
Definition set_isInitialized (v : bool) (c : Core) : Core :=
  mkCore (accessToken c) (embedUrl c) v (isLoading c) (retryCount c)
         (_refreshTimeout c).
Definition set_isLoading (v : bool) (c : Core) : Core :=
  mkCore (accessToken c) (embedUrl c) (isInitialized c) v (retryCount c)
         (_refreshTimeout c).
Definition set_retryCount (v : nat) (c : Core) : Core :=
  mkCore (accessToken c) (embedUrl c) (isInitialized c) (isLoading c) v
         (_refreshTimeout c).
Definition set_refreshTimeout (v : option nat) (c : Core) : Core :=
  mkCore (accessToken c) (embedUrl c) (isInitialized c) (isLoading c)
         (retryCount c) v.

(** The fields as the constructor leaves them ([_refreshTimeout] is not
    assigned there, hence [undefined]). *)
Definition fresh_core : Core := mkCore None None false false 0 None.

(** ** Values that cross the SDK's boundary *)

(** A thrown JavaScript error.  [TypeError] is what reading a property of
    [undefined] throws (the message is the engine's). *)
Inductive Error :=
| JsError (message : string)
| TypeError (message : string).

Definition error_message (e : Error) : string :=
  match e with
  | JsError m => m
  | TypeError m => m
  end.

(** The JSON body of a response: [{success, data: {accessToken, expiresIn,
    embedUrl}, message}]. *)
Record Data := mkData {
  d_accessToken : option string;
  d_expiresIn : option Z;
  d_embedUrl : option string;
}.

Record Response := mkResponse {
  success : bool;
  data : option Data;
  message : option string;
}.

(** What the transport delivers for one request: a failure with its cause
    (non-2xx status, connection failure, timeout, invalid JSON), or the
    parsed body. *)
Inductive NetOutcome :=
| NetFail (cause : string)
| NetJson (r : Response).

Inductive Endpoint := Authenticate | GenerateLink.

(** The credential header of a request: [X-API-KEY] or
    [Authorization: Bearer]. *)
Inductive Credential :=
| XApiKey (key : string)
| Bearer (token : option string).

(** [getStatus()], without [version] and the wall-clock [timestamp]. *)
Record Status := mkStatus {
  st_isInitialized : bool;
  st_isLoading : bool;
  st_hasAccessToken : bool;
  st_hasEmbedUrl : bool;
  st_environment : Env;
  st_mode : string;
  st_retryCount : nat;
}.

Record RenderConfig := mkRenderConfig {
  rc_width : string;
  rc_height : string;
  rc_style : string;
  rc_className : string;
}.

Record RenderOptions := mkRenderOptions {
  o_mode : option string;
  o_width : option string;
  o_height : option string;
  o_style : option string;
  o_className : option string;
}.

(** The [target] of [render]: an id string, an [HTMLElement], or anything
    else. *)
Inductive Container :=
| ById (id : string)
| Element
| OtherTarget.

Inductive RenderResult :=
| RIframe (url : option string)
| RWebview (url : option string) (width height style : string) (env : Env)
| RApi (token url : option string) (config : RenderConfig) (env : Env).

(** What a call resolves with. *)
Inductive Value :=
| VUndefined
| VSession (token url : option string) (env : Env)
| VRender (r : RenderResult).

Inductive Outcome :=
| Resolved (v : Value)
| Rejected (e : Error).

Inductive Observer := OnSuccess | OnError | OnLoad | OnTokenExpired.

(** The argument an observer is called with (timestamps left out).
    [PLoadIframe] is [{ type: "iframe", element: iframe }], which
    [_renderIframe] hands to [onLoad]: unlike the value it returns, it has
    no [url]. *)
Inductive Payload :=
| PSuccess (token url : option string) (env : Env)
| PError (context msg : string) (e : Error) (env : Env) (status : Status)
| PLoad (r : RenderResult)
| PLoadIframe
| PTokenExpired (newToken : option string).

Inductive Call := CInit | CRefresh | CRender.

(** What the manager does to the outside world, in order. *)
Inductive Event :=
| EvRequest (ep : Endpoint) (cred : Credential)
| EvResponse (ep : Endpoint) (o : NetOutcome)
| EvDelay (ms : Z)
| EvSetTimeout (id : nat) (ms : Z)
| EvClearTimeout (id : nat)
| EvCallback (name : Observer) (p : Payload)
| EvSettled (c : Call) (o : Outcome).

(** ** Suspended calls *)

(** Who awaits the promise of an [init()] call. *)
Inductive Caller :=
| FromHost                      (* the host called [init()] *)
| FromConstructor               (* [this.init().catch(...)] *)
| FromRefresh (timer : bool)    (* [return await this.init()] in [refresh],
                                   itself called by the host or by the
                                   refresh timer *)
| FromRender (target : Container) (options : RenderOptions).

Inductive InitPhase := AwaitAuth | AwaitLink | AwaitDelay.

Inductive Task :=
| TInit (p : InitPhase) (k : Caller)
| TIframe (config : RenderConfig).

Record World := mkWorld {
  host : Host;
  config : Config;
  core : Core;
  tasks : list Task;
  timers : gset nat;      (* pending refresh timers, by handle *)
  nextTimer : nat;        (* the handle the next [setTimeout] returns *)
  trace : list Event;
}.

Definition upd_core (f : Core -> Core) (w : World) : World :=
  mkWorld (host w) (config w) (f (core w)) (tasks w) (timers w)
          (nextTimer w) (trace w).
Definition emit (e : Event) (w : World) : World :=
  mkWorld (host w) (config w) (core w) (tasks w) (timers w)
          (nextTimer w) (trace w ++ [e]).
Definition suspend (t : Task) (w : World) : World :=
  mkWorld (host w) (config w) (core w) (tasks w ++ [t]) (timers w)
          (nextTimer w) (trace w).
Definition set_tasks (ts : list Task) (w : World) : World :=
  mkWorld (host w) (config w) (core w) ts (timers w)
          (nextTimer w) (trace w).

(** [setTimeout(refresh callback, ms)]: a fresh handle, now pending.
    Handles count from 1, so a handle is always truthy. *)
Definition setTimeout (ms : Z) (w : World) : World :=
  mkWorld (host w) (config w) (core w) (tasks w)
          ({[nextTimer w]} ∪ timers w) (S (nextTimer w))
          (trace w ++ [EvSetTimeout (nextTimer w) ms]).

(** [clearTimeout(id)]: nothing happens when [id] is not pending. *)
Definition clearTimeout (id : nat) (w : World) : World :=
  mkWorld (host w) (config w) (core w) (tasks w)
          (timers w ∖ {[id]}) (nextTimer w)
          (trace w ++ [EvClearTimeout id]).

(** ** Synchronous helpers *)

Definition getStatus (w : World) : Status :=
  mkStatus (isInitialized (core w)) (isLoading (core w))
           (truthy (accessToken (core w))) (truthy (embedUrl (core w)))
           (environment (host w)) (config_mode (config w))
           (retryCount (core w)).

(** [getEmbedUrl()] and [getAccessToken()]. *)
Definition getEmbedUrl (c : Core) : Error + option string :=
  if isInitialized c then inr (embedUrl c)
  else inl (JsError "SDK no inicializado").

Definition getAccessToken (c : Core) : Error + option string :=
  if isInitialized c then inr (accessToken c)
  else inl (JsError "SDK no inicializado").

Definition registered (c : Config) (n : Observer) : bool :=
  match n with
  | OnSuccess => onSuccess c
  | OnError => onError c
  | OnLoad => onLoad c
  | OnTokenExpired => onTokenExpired c
  end.

(** [_triggerCallback]: the observer runs only when one is registered;
    whatever it throws is caught and logged. *)
Definition _triggerCallback (n : Observer) (p : Payload) (w : World) : World :=
  if registered (config w) n then emit (EvCallback n p) w else w.

Definition _handleError (context : string) (e : Error) (w : World) : World :=
  _triggerCallback OnError
    (PError context (error_message e) e (environment (host w)) (getStatus w))
    w.

(** [_scheduleTokenRefresh(expiresIn)]. *)
Definition _scheduleTokenRefresh (expiresIn : Z) (w : World) : World :=
  if negb (hasTimers (host w)) then w
  else
    let refreshTime := ((expiresIn - 60) * 1000)%Z in
    let w1 := match _refreshTimeout (core w) with
              | Some id => clearTimeout id w
              | None => w
              end in
    upd_core (set_refreshTimeout (Some (nextTimer w1)))
             (setTimeout refreshTime w1).

(** ** Rendering *)

(** [{ width: options.width || "100%", ..., ...options }]: the spread puts
    back every key the caller passed. *)
Definition renderConfig (o : RenderOptions) : RenderConfig :=
  mkRenderConfig (default "100%" (o_width o))
                 (default "600px" (o_height o))
                 (default "" (o_style o))
                 (default "sintesis-pasarela-iframe" (o_className o)).

Definition _returnApiData (cfg : RenderConfig) (w : World) : World :=
  let apiData := RApi (accessToken (core w)) (embedUrl (core w)) cfg
                      (environment (host w)) in
  emit (EvSettled CRender (Resolved (VRender apiData)))
       (_triggerCallback OnLoad (PLoad apiData) w).

Definition _renderWebView (cfg : RenderConfig) (w : World) : World :=
  let webViewData := RWebview (embedUrl (core w)) (rc_width cfg)
                              (rc_height cfg) (rc_style cfg)
                              (environment (host w)) in
  emit (EvSettled CRender (Resolved (VRender webViewData)))
       (_triggerCallback OnLoad (PLoad webViewData) w).

Definition render_throw (msg : string) (w : World) : World :=
  emit (EvSettled CRender (Rejected (JsError msg))) w.

(** [_renderIframe] up to the [await] of the iframe's load promise. *)
Definition _renderIframe (target : Container) (cfg : RenderConfig)
    (w : World) : World :=
  if negb (bool_decide (environment (host w) = Web)) then
    render_throw "Modo iframe solo disponible en entorno web" w
  else
    match document (host w) with
    | None => render_throw "Document no disponible en este entorno" w
    | Some ids =>
      match target with
      | ById id =>
        if bool_decide (id ∈ ids) then suspend (TIframe cfg) w
        else render_throw ("Contenedor con ID '" +:+ id +:+ "' no encontrado") w
      | Element => suspend (TIframe cfg) w
      | OtherTarget =>
        render_throw "Container debe ser un ID string o elemento HTML" w
      end
    end.

(** [_renderIframe] once the iframe has loaded, or failed to. *)
Definition iframe_loaded (w : World) : World :=
  let w := _triggerCallback OnLoad PLoadIframe w in
  emit (EvSettled CRender (Resolved (VRender (RIframe (embedUrl (core w))))))
       w.

Definition iframe_failed (e : Error) (w : World) : World :=
  emit (EvSettled CRender (Rejected e))
       (_handleError "Error renderizando iframe" e w).

Definition _autoRender (target : Container) (cfg : RenderConfig)
    (w : World) : World :=
  match environment (host w) with
  | Web => _renderIframe target cfg w
  | ReactNative => _renderWebView cfg w
  | _ => _returnApiData cfg w
  end.

(** [render] after the call to [init()], if any, has resolved. *)
Definition render_dispatch (target : Container) (options : RenderOptions)
    (w : World) : World :=
  let mode := or_else (o_mode options) (config_mode (config w)) in
  let cfg := renderConfig options in
  if String.eqb mode "iframe" then _renderIframe target cfg w
  else if String.eqb mode "webview" then _renderWebView cfg w
  else if String.eqb mode "api-only" then _returnApiData cfg w
  else _autoRender target cfg w.

(** ** Initialisation *)

(** The reaction of whoever awaits an [init()] promise. *)
Definition settle (k : Caller) (o : Outcome) (w : World) : World :=
  match k with
  | FromHost => emit (EvSettled CInit o) w
  | FromConstructor =>
    match o with
    | Rejected e => _handleError "Auto-inicialización falló" e w
    | Resolved _ => w
    end
  | FromRefresh false => emit (EvSettled CRefresh o) w
  | FromRefresh true =>
    match o with
    | Resolved _ =>
      _triggerCallback OnTokenExpired (PTokenExpired (accessToken (core w))) w
    | Rejected e => _handleError "Error refrescando token" e w
    end
  | FromRender target options =>
    match o with
    | Resolved _ => render_dispatch target options w
    | Rejected e => emit (EvSettled CRender (Rejected e)) w
    end
  end.

(** [httpClient.request]: every failure is rethrown as one network
    error. *)
Definition request (h : Host) (o : NetOutcome) : Error + Response :=
  match o with
  | NetFail cause =>
    inl (JsError ("Error de red (" +:+ env_name (environment h) +:+ "): "
                  +:+ cause))
  | NetJson r => inr r
  end.

(** [_authenticate] up to the [await] of the request. *)
Definition _authenticate (k : Caller) (w : World) : World :=
  suspend (TInit AwaitAuth k)
          (emit (EvRequest Authenticate (XApiKey (apiKey (config w)))) w).

(** [init()] up to its first [await]. *)
Definition init (k : Caller) (w : World) : World :=
  if isLoading (core w) then settle k (Resolved VUndefined) w
  else if isInitialized (core w) && truthy (accessToken (core w)) then
    settle k (Resolved VUndefined) w
  else _authenticate k (upd_core (set_isLoading true) w).

(** The [catch] block of [init]. *)
Definition init_catch (k : Caller) (e : Error) (w : World) : World :=
  let w := upd_core (set_isLoading false) w in
  if (retryCount (core w) <? maxRetries)%nat then
    let w := upd_core (set_retryCount (S (retryCount (core w)))) w in
    let w := emit (EvDelay (1000 * Z.of_nat (retryCount (core w)))) w in
    if hasTimers (host w) then suspend (TInit AwaitDelay k) w
    else init k w
  else settle k (Rejected e) (_handleError "Error en inicialización" e w).

(** [response.data.expiresIn || 1800]. *)
Definition expiresIn_or_default (d : Data) : Z :=
  match d_expiresIn d with
  | Some e => if (e =? 0)%Z then 1800%Z else e
  | None => 1800%Z
  end.

Definition undefined_data : Error :=
  TypeError "Cannot read properties of undefined".

(** [_authenticate] from the response on: the new state, or the error
    thrown. *)
Definition _authenticate_resume (o : NetOutcome) (w : World) : Error + World :=
  match request (host w) o with
  | inl e => inl e
  | inr r =>
    if success r then
      match data r with
      | None => inl undefined_data
      | Some d =>
        if truthy (d_accessToken d) then
          let w := upd_core (set_accessToken (d_accessToken d)) w in
          inr (if hasTimers (host w)
               then _scheduleTokenRefresh (expiresIn_or_default d) w
               else w)
        else inl (JsError ("Error de autenticación: "
                           +:+ or_else (message r) "Respuesta inválida"))
      end
    else inl (JsError ("Error de autenticación: "
                       +:+ or_else (message r) "Respuesta inválida"))
  end.

(** [_generateEmbedLink] up to the [await] of the request. *)
Definition _generateEmbedLink (k : Caller) (w : World) : World :=
  if negb (truthy (accessToken (core w))) then
    init_catch k (JsError "Token de acceso no disponible") w
  else
    suspend (TInit AwaitLink k)
            (emit (EvRequest GenerateLink (Bearer (accessToken (core w)))) w).

(** [_generateEmbedLink] from the response on. *)
Definition _generateEmbedLink_resume (o : NetOutcome) (w : World)
    : Error + World :=
  match request (host w) o with
  | inl e => inl e
  | inr r =>
    if success r then
      match data r with
      | None => inl undefined_data
      | Some d =>
        if truthy (d_embedUrl d) then
          inr (upd_core (set_embedUrl (d_embedUrl d)) w)
        else inl (JsError ("Error generando enlace: "
                           +:+ or_else (message r) "Respuesta inválida"))
      end
    else inl (JsError ("Error generando enlace: "
                       +:+ or_else (message r) "Respuesta inválida"))
  end.

(** [init] resumed by the authentication response. *)
Definition init_after_auth (k : Caller) (o : NetOutcome) (w : World) : World :=
  match _authenticate_resume o (emit (EvResponse Authenticate o) w) with
  | inl e => init_catch k e (emit (EvResponse Authenticate o) w)
  | inr w' => _generateEmbedLink k w'
  end.

(** [init] resumed by the link-generation response. *)
Definition init_after_link (k : Caller) (o : NetOutcome) (w : World) : World :=
  match _generateEmbedLink_resume o (emit (EvResponse GenerateLink o) w) with
  | inl e => init_catch k e (emit (EvResponse GenerateLink o) w)
  | inr w' =>
    let w' := upd_core (set_isInitialized true) w' in
    let w' := upd_core (set_isLoading false) w' in
    let w' := upd_core (set_retryCount 0) w' in
    let w' := _triggerCallback OnSuccess
                (PSuccess (accessToken (core w')) (embedUrl (core w'))
                          (environment (host w'))) w' in
    settle k (Resolved (VSession (accessToken (core w')) (embedUrl (core w'))
                                 (environment (host w')))) w'
  end.

(** [init] resumed after the backoff delay: [return this.init()]. *)
Definition init_after_delay (k : Caller) (w : World) : World := init k w.

(** ** The other public methods *)

Definition refresh (timer : bool) (w : World) : World :=
  let w := upd_core (set_isInitialized false) w in
  let w := upd_core (set_accessToken None) w in
  let w := upd_core (set_embedUrl None) w in
  let w := upd_core (set_retryCount 0) w in
  init (FromRefresh timer) w.

Definition destroy (w : World) : World :=
  let w := upd_core (set_isInitialized false) w in
  let w := upd_core (set_accessToken None) w in
  let w := upd_core (set_embedUrl None) w in
  let w := upd_core (set_isLoading false) w in
  match _refreshTimeout (core w) with
  | Some id =>
    if hasTimers (host w) then
      upd_core (set_refreshTimeout None) (clearTimeout id w)
    else w
  | None => w
  end.

Definition render (target : Container) (options : RenderOptions)
    (w : World) : World :=
  if negb (isInitialized (core w)) then init (FromRender target options) w
  else render_dispatch target options w.

(** [new SintesisPasarelaCore(config)]. *)
Definition construct (h : Host) (c : Config) : Error + World :=
  if String.eqb (apiKey c) "" then
    inl (JsError "SintesisPasarela: API Key es requerida")
  else
    let w := mkWorld h c fresh_core [] ∅ 1 [] in
    inr (if config_autoInit h c then init FromConstructor w else w).

(** ** One turn of the event loop *)

Inductive Action :=
| CallInit
| CallRefresh
| CallDestroy
| CallRender (target : Container) (options : RenderOptions)
| NetResponse (i : nat) (o : NetOutcome)   (* the request of task [i] ends *)
| DelayElapsed (i : nat)                   (* the backoff of task [i] ends *)
| TimerFires (id : nat)                    (* a pending refresh timer *)
| IframeLoad (i : nat)
| IframeFail (i : nat) (e : Error).

Definition take_task (i : nat) (w : World) : World :=
  set_tasks (delete i (tasks w)) w.

Definition fire (id : nat) (w : World) : World :=
  mkWorld (host w) (config w) (core w) (tasks w) (timers w ∖ {[id]})
          (nextTimer w) (trace w).

(** [step a w] is [None] when [a] cannot happen in [w]. *)
Definition step (a : Action) (w : World) : option World :=
  match a with
  | CallInit => Some (init FromHost w)
  | CallRefresh => Some (refresh false w)
  | CallDestroy => Some (destroy w)
  | CallRender target options => Some (render target options w)
  | NetResponse i o =>
    match tasks w !! i with
    | Some (TInit AwaitAuth k) => Some (init_after_auth k o (take_task i w))
    | Some (TInit AwaitLink k) => Some (init_after_link k o (take_task i w))
    | _ => None
    end
  | DelayElapsed i =>
    match tasks w !! i with
    | Some (TInit AwaitDelay k) => Some (init_after_delay k (take_task i w))
    | _ => None
    end
  | TimerFires id =>
    if bool_decide (id ∈ timers w) then Some (refresh true (fire id w))
    else None
  | IframeLoad i =>
    match tasks w !! i with
    | Some (TIframe _) => Some (iframe_loaded (take_task i w))
    | _ => None
    end
  | IframeFail i e =>
    match tasks w !! i with
    | Some (TIframe _) => Some (iframe_failed e (take_task i w))
    | _ => None
    end
  end.

(** Running a list of turns, stopping at the first that cannot happen. *)
Fixpoint run (l : list Action) (w : World) : option World :=
  match l with
  | [] => Some w
  | a :: l' =>
    match step a w with
    | Some w' => run l' w'
    | None => None
    end
  end.

(** ** Worlds reachable under a scheduling policy *)

(** [reachable allowed w0 w]: [w] is reached from [w0] by turns of the
    event loop, each of them allowed by the policy in the world where it
    happens. *)
Inductive reachable (allowed : World -> Action -> Prop) (w0 : World)
    : World -> Prop :=
| reach_here : reachable allowed w0 w0
| reach_step w a w' :
    reachable allowed w0 w -> allowed w a -> step a w = Some w' ->
    reachable allowed w0 w'.

Definition any_turn : World -> Action -> Prop := fun _ _ => True.

(** [follows allowed l w]: the turns [l] can be taken from [w] one after
    the other, each allowed by the policy. *)
Fixpoint follows (allowed : World -> Action -> Prop) (l : list Action)
    (w : World) : Prop :=
  match l with
  | [] => True
  | a :: l' =>
    allowed w a /\
    match step a w with
    | Some w' => follows allowed l' w'
    | None => False
    end
  end.

(** ** Views of a world used by the properties *)

(** A task whose HTTP round trip is under way. *)
Definition in_flight (t : Task) : bool :=
  match t with
  | TInit AwaitAuth _ | TInit AwaitLink _ => true
  | _ => false
  end.

Definition is_link (t : Task) : bool :=
  match t with
  | TInit AwaitLink _ => true
  | _ => false
  end.

Fixpoint count (f : Task -> bool) (l : list Task) : nat :=
  match l with
  | [] => 0
  | t :: l' => (if f t then 1 else 0) + count f l'
  end.

(** The number of [init] round-trip sequences in flight. *)
Definition round_trips (w : World) : nat := count in_flight (tasks w).

(** The payload of an authentication response that [_authenticate]
    accepts. *)
Definition auth_data (o : NetOutcome) : option Data :=
  match o with
  | NetJson (mkResponse true (Some d) _) =>
    if truthy (d_accessToken d) then Some d else None
  | _ => None
  end.

(** The payload of a link-generation response that [_generateEmbedLink]
    accepts. *)
Definition link_data (o : NetOutcome) : option Data :=
  match o with
  | NetJson (mkResponse true (Some d) _) =>
    if truthy (d_embedUrl d) then Some d else None
  | _ => None
  end.

(** The delays handed to [setTimeout] and to [_delay], in order. *)
Definition scheduled_delays (tr : list Event) : list Z :=
  omap (fun e => match e with EvSetTimeout _ ms => Some ms | _ => None end) tr.

Definition backoff_delays (tr : list Event) : list Z :=
  omap (fun e => match e with EvDelay ms => Some ms | _ => None end) tr.

Definition requests (ep : Endpoint) (tr : list Event) : list Credential :=
  omap (fun e => match e with
                 | EvRequest ep' c =>
                   match ep, ep' with
                   | Authenticate, Authenticate
                   | GenerateLink, GenerateLink => Some c
                   | _, _ => None
                   end
                 | _ => None
                 end) tr.

Definition callbacks (n : Observer) (tr : list Event) : list Payload :=
  omap (fun e => match e with
                 | EvCallback n' p =>
                   match n, n' with
                   | OnSuccess, OnSuccess | OnError, OnError
                   | OnLoad, OnLoad | OnTokenExpired, OnTokenExpired => Some p
                   | _, _ => None
                   end
                 | _ => None
                 end) tr.

(** ** Vocabulary of the properties *)

(** [grow l evs w]: [w] with tasks [l] suspended and events [evs] emitted,
    and nothing else changed. *)
Definition grow (l : list Task) (evs : list Event) (w : World) : World :=
  mkWorld (host w) (config w) (core w) (tasks w ++ l) (timers w)
          (nextTimer w) (trace w ++ evs).

Definition is_iframe (t : Task) : bool :=
  match t with
  | TIframe _ => true
  | _ => false
  end.

(** A world transformer that only suspends iframe loads and emits
    events. *)
Definition only_renders (w w' : World) : Prop :=
  exists l evs, w' = grow l evs w /\ Forall (fun t => is_iframe t = true) l.

(** [_authenticate] succeeds exactly on the responses [auth_data]
    accepts, and then stores the token and schedules the refresh. *)
Definition auth_accepted (d : Data) (w : World) : World :=
  let w := upd_core (set_accessToken (d_accessToken d)) w in
  if hasTimers (host w) then _scheduleTokenRefresh (expiresIn_or_default d) w
  else w.

(** The re-entrancy guard: a round trip is in flight exactly when the
    loading flag is up, and then there is only one. *)
Definition guarded (w : World) : Prop :=
  round_trips w = if isLoading (core w) then 1 else 0.

(** The policy of the re-entrancy property: any interleaving of [init],
    [refresh], [render], the scheduled refresh and the events they wait
    for. *)
Definition without_destroy : World -> Action -> Prop :=
  fun _ a => a <> CallDestroy.

(** ** The session invariant *)

(** [embedUrl] is set only with [accessToken]; [isInitialized] implies
    both. *)
Definition session_ok (c : Core) : Prop :=
  (embedUrl c <> None -> accessToken c <> None) /\
  (isInitialized c = true -> accessToken c <> None /\ embedUrl c <> None).

(** The turns that clear the token: [refresh()], [destroy()] and the
    scheduled refresh. *)
Definition clears_session (a : Action) : bool :=
  match a with
  | CallRefresh | CallDestroy | TimerFires _ => true
  | _ => false
  end.

(** The number of [init] calls awaiting the link-generation response. *)
Definition link_waiters (w : World) : nat := count is_link (tasks w).

(** The policy under which the invariant holds: the token is not cleared
    while an [init] awaits the link-generation response. *)
Definition not_during_link_generation : World -> Action -> Prop :=
  fun w a => clears_session a = true -> link_waiters w = 0.

(** The invariant together with what [_generateEmbedLink] relies on while
    it waits. *)
Definition session_inv (w : World) : Prop :=
  session_ok (core w) /\
  (link_waiters w <> 0 -> accessToken (core w) <> None).

Definition session_view (w : World) :=
  (accessToken (core w), embedUrl (core w), isInitialized (core w),
   link_waiters w).

(** ** Where a token comes from *)

(** [delivered t evs]: among the events [evs], an authentication response
    that [_authenticate] accepts arrived carrying the token [t]. *)
Definition delivered (t : string) (evs : list Event) : Prop :=
  exists o d, In (EvResponse Authenticate o) evs /\
              auth_data o = Some d /\ d_accessToken d = Some t.

(** A world transformer that keeps the token and only adds events. *)
Definition keeps_token (w w' : World) : Prop :=
  accessToken (core w') = accessToken (core w) /\
  exists evs, trace w' = trace w ++ evs.

(** ** Awaiting a call against a backend *)

(** A backend: its answer to the [n]-th authentication request and to the
    [n]-th link-generation request (counting from 0). *)
Record Backend := mkBackend {
  on_auth : nat -> NetOutcome;
  on_link : nat -> NetOutcome;
}.

(** The host awaits the call it has just issued and does nothing else:
    the event loop hands the oldest suspended [init] the backend's answer
    to its request, or the end of its backoff delay, until nothing is
    suspended.  [na] and [nl] count the requests answered so far. *)
Fixpoint drive (fuel : nat) (b : Backend) (na nl : nat) (w : World) : World :=
  match fuel with
  | 0 => w
  | S fuel' =>
    match tasks w with
    | TInit AwaitAuth _ :: _ =>
      match step (NetResponse 0 (on_auth b na)) w with
      | Some w' => drive fuel' b (S na) nl w'
      | None => w
      end
    | TInit AwaitLink _ :: _ =>
      match step (NetResponse 0 (on_link b nl)) w with
      | Some w' => drive fuel' b na (S nl) w'
      | None => w
      end
    | TInit AwaitDelay _ :: _ =>
      match step (DelayElapsed 0) w with
      | Some w' => drive fuel' b na nl w'
      | None => w
      end
    | _ => w
    end
  end.

(** The world at the start of an attempt of [init]: the loading flag is
    up and the authentication request is the only thing pending. *)
Definition attempting (k : Caller) (rc : nat) (evs : list Event) (w : World)
    : World :=
  mkWorld (host w) (config w)
          (set_isLoading true (set_retryCount rc (core w)))
          [TInit AwaitAuth k] (timers w) (nextTimer w) (trace w ++ evs).

Definition auth_request (w : World) : Event :=
  EvRequest Authenticate (XApiKey (apiKey (config w))).

(** The fields as the last statements of a successful [init] leave
    them. *)
Definition ready (url : option string) (c : Core) : Core :=
  set_retryCount 0 (set_isLoading false (set_isInitialized true
    (set_embedUrl url c))).

(** ** When the refresh timer is scheduled and the retry counter reset *)

(** The timer table, the next handle and the manager's handle. *)
Definition timer_view (w : World) :=
  (timers w, nextTimer w, _refreshTimeout (core w)).




(** At most one refresh timer is pending, and it is the one the manager
    holds the handle of. *)
Definition one_pending_timer (w : World) : Prop :=
  forall id, id ∈ timers w -> _refreshTimeout (core w) = Some id.

(** ** Worked scenarios *)

Definition node_host : Host := mkHost Node true None.

Definition demo_config : Config :=
  mkConfig "pk_test=0123456789" None None true true true true.

(** The manager [new SintesisPasarelaCore(demo_config)] builds on Node. *)
Definition fresh_world : World :=
  mkWorld node_host demo_config fresh_core [] ∅ 1 [].

Definition auth_ok (token : string) (expiresIn : option Z) : NetOutcome :=
  NetJson (mkResponse true (Some (mkData (Some token) expiresIn None)) None).

Definition link_ok (url : string) : NetOutcome :=
  NetJson (mkResponse true (Some (mkData None None (Some url))) None).

Definition net_down : NetOutcome := NetFail "HTTP 503: Service Unavailable".

(** A backend on which every request fails. *)
Definition failing_backend : Backend :=
  mkBackend (fun _ => net_down) (fun _ => net_down).

(** A backend whose first two authentications fail. *)
Definition flaky_backend : Backend :=
  mkBackend (fun n => if n <? 2 then net_down
                      else auth_ok "tok-3" (Some 1800%Z))
            (fun _ => link_ok "https://pay.example/embed/1").

(** [init()] called on the fresh manager and not yet answered. *)
Definition loading_world : World := init FromHost fresh_world.

(** The fresh manager after a first successful [init()]. *)
Definition ready_world : World :=
  default fresh_world
    (run [CallInit; NetResponse 0 (auth_ok "tok-old" None);
          NetResponse 0 (link_ok "https://pay.example/embed/old")]
         fresh_world).

Definition api_only : RenderOptions :=
  mkRenderOptions (Some "api-only") None None None None.


(** A refresh of the ready manager, answered by the backend. *)
Definition refreshed_world : World :=
  default fresh_world
    (run [CallRefresh; NetResponse 0 (auth_ok "tok-new" None);
          NetResponse 0 (link_ok "https://pay.example/embed/new")]
         ready_world).

(** ** The older class, [SintesisPasarela] v1.0.0

    No loading guard, no retries, no timers and no [destroy]: [init]
    authenticates, generates the link and reports a failure to [onError]
    before rethrowing it. *)
Module Legacy.

Record Config := mkConfig {
  apiKey : string;
  cfg_autoInit : option bool;
  onSuccess : bool;
  onError : bool;
  onLoad : bool;
}.

(** [config.autoInit !== false]. *)
Definition config_autoInit (c : Config) : bool :=
  match cfg_autoInit c with
  | Some false => false
  | _ => true
  end.

Record Core := mkCore {
  accessToken : option string;
  embedUrl : option string;
  isInitialized : bool;
}.

Definition fresh_core : Core := mkCore None None false.

Inductive Payload :=
| PSuccess (token url : option string)
| PError (context msg : string)
| PLoad.

Inductive Event :=
| EvRequest (ep : Endpoint) (cred : Credential)
| EvResponse (ep : Endpoint) (o : NetOutcome)
| EvCallback (name : Observer) (p : Payload)
| EvSettled (c : Call) (o : Outcome).

Inductive Caller :=
| FromHost
| FromConstructor
| FromRefresh
| FromRender (target : Container) (options : RenderOptions).

Inductive Phase := Authenticating | LinkGenerating.

Inductive Task :=
| TInit (p : Phase) (k : Caller)
| TIframe.

Record World := mkWorld {
  config : Config;
  document : list string;
  core : Core;
  tasks : list Task;
  trace : list Event;
}.

Definition upd_core (f : Core -> Core) (w : World) : World :=
  mkWorld (config w) (document w) (f (core w)) (tasks w) (trace w).
Definition emit (e : Event) (w : World) : World :=
  mkWorld (config w) (document w) (core w) (tasks w) (trace w ++ [e]).
Definition suspend (t : Task) (w : World) : World :=
  mkWorld (config w) (document w) (core w) (tasks w ++ [t]) (trace w).
Definition take_task (i : nat) (w : World) : World :=
  mkWorld (config w) (document w) (core w) (delete i (tasks w)) (trace w).

(** [_handleError] up to its [throw error]. *)
Definition _handleError (context : string) (e : Error) (w : World) : World :=
  if onError (config w)
  then emit (EvCallback OnError (PError context (error_message e))) w
  else w.

(** [render] from the container lookup on: the iframe is attached and
    returned at once; its load event comes later. *)
Definition render_attach (target : Container) (w : World) : World :=
  let attach :=
    suspend TIframe
      (emit (EvSettled CRender
               (Resolved (VRender (RIframe (embedUrl (core w)))))) w) in
  match target with
  | ById id =>
    if bool_decide (id ∈ document w) then attach
    else emit (EvSettled CRender
                 (Rejected (JsError ("Contenedor con ID '" +:+ id
                                     +:+ "' no encontrado")))) w
  | Element => attach
  | OtherTarget =>
    emit (EvSettled CRender
            (Rejected
               (JsError "Container debe ser un ID string o elemento HTML"))) w
  end.

Definition settle (k : Caller) (o : Outcome) (w : World) : World :=
  match k with
  | FromHost => emit (EvSettled CInit o) w
  | FromConstructor => w
  | FromRefresh => emit (EvSettled CRefresh o) w
  | FromRender target _ =>
    match o with
    | Resolved _ => render_attach target w
    | Rejected e => emit (EvSettled CRender (Rejected e)) w
    end
  end.

(** [_makeRequest]. *)
Definition _makeRequest (o : NetOutcome) : Error + Response :=
  match o with
  | NetFail cause => inl (JsError ("Error de red: " +:+ cause))
  | NetJson r => inr r
  end.

(** [`${response.message}`]. *)
Definition shown (m : option string) : string := default "undefined" m.

Definition init (k : Caller) (w : World) : World :=
  suspend (TInit Authenticating k)
          (emit (EvRequest Authenticate (XApiKey (apiKey (config w)))) w).

Definition init_catch (k : Caller) (e : Error) (w : World) : World :=
  settle k (Rejected e) (_handleError "Error en inicialización" e w).

Definition _authenticate_resume (o : NetOutcome) (w : World) : Error + World :=
  match _makeRequest o with
  | inl e => inl e
  | inr r =>
    if success r then
      match data r with
      | None => inl undefined_data
      | Some d =>
        if truthy (d_accessToken d) then
          inr (upd_core (fun c => mkCore (d_accessToken d) (embedUrl c)
                                         (isInitialized c)) w)
        else inl (JsError ("Error de autenticación: " +:+ shown (message r)))
      end
    else inl (JsError ("Error de autenticación: " +:+ shown (message r)))
  end.

Definition _generateEmbedLink_resume (o : NetOutcome) (w : World)
    : Error + World :=
  match _makeRequest o with
  | inl e => inl e
  | inr r =>
    if success r then
      match data r with
      | None => inl undefined_data
      | Some d =>
        if truthy (d_embedUrl d) then
          inr (upd_core (fun c => mkCore (accessToken c) (d_embedUrl d)
                                         (isInitialized c)) w)
        else inl (JsError ("Error generando enlace: " +:+ shown (message r)))
      end
    else inl (JsError ("Error generando enlace: " +:+ shown (message r)))
  end.

Definition init_after_auth (k : Caller) (o : NetOutcome) (w : World) : World :=
  match _authenticate_resume o (emit (EvResponse Authenticate o) w) with
  | inl e => init_catch k e (emit (EvResponse Authenticate o) w)
  | inr w' =>
    suspend (TInit LinkGenerating k)
            (emit (EvRequest GenerateLink (Bearer (accessToken (core w')))) w')
  end.

Definition init_after_link (k : Caller) (o : NetOutcome) (w : World) : World :=
  match _generateEmbedLink_resume o (emit (EvResponse GenerateLink o) w) with
  | inl e => init_catch k e (emit (EvResponse GenerateLink o) w)
  | inr w' =>
    let w' := upd_core (fun c => mkCore (accessToken c) (embedUrl c) true) w' in
    let w' := if onSuccess (config w')
              then emit (EvCallback OnSuccess
                           (PSuccess (accessToken (core w'))
                                     (embedUrl (core w')))) w'
              else w' in
    settle k (Resolved VUndefined) w'
  end.

Definition refresh (w : World) : World :=
  init FromRefresh (upd_core (fun _ => mkCore None None false) w).

Definition render (target : Container) (options : RenderOptions)
    (w : World) : World :=
  if negb (isInitialized (core w)) then init (FromRender target options) w
  else render_attach target w.

Definition iframe_loaded (w : World) : World :=
  if onLoad (config w) then emit (EvCallback OnLoad PLoad) w else w.

Definition construct (doc : list string) (c : Config) : Error + World :=
  if String.eqb (apiKey c) "" then inl (JsError "API Key es requerida")
  else
    let w := mkWorld c doc fresh_core [] [] in
    inr (if config_autoInit c then init FromConstructor w else w).

Inductive Action :=
| CallInit
| CallRefresh
| CallRender (target : Container) (options : RenderOptions)
| NetResponse (i : nat) (o : NetOutcome)
| IframeLoad (i : nat).

Definition step (a : Action) (w : World) : option World :=
  match a with
  | CallInit => Some (init FromHost w)
  | CallRefresh => Some (refresh w)
  | CallRender target options => Some (render target options w)
  | NetResponse i o =>
    match tasks w !! i with
    | Some (TInit Authenticating k) =>
      Some (init_after_auth k o (take_task i w))
    | Some (TInit LinkGenerating k) =>
      Some (init_after_link k o (take_task i w))
    | _ => None
    end
  | IframeLoad i =>
    match tasks w !! i with
    | Some TIframe => Some (iframe_loaded (take_task i w))
    | _ => None
    end
  end.

Fixpoint run (l : list Action) (w : World) : option World :=
  match l with
  | [] => Some w
  | a :: l' =>
    match step a w with
    | Some w' => run l' w'
    | None => None
    end
  end.

Inductive reachable (allowed : World -> Action -> Prop) (w0 : World)
    : World -> Prop :=
| reach_here : reachable allowed w0 w0
| reach_step w a w' :
    reachable allowed w0 w -> allowed w a -> step a w = Some w' ->
    reachable allowed w0 w'.

Definition is_link (t : Task) : bool :=
  match t with
  | TInit LinkGenerating _ => true
  | _ => false
  end.

Fixpoint link_count (l : list Task) : nat :=
  match l with
  | [] => 0
  | t :: l' => (if is_link t then 1 else 0) + link_count l'
  end.

Definition link_waiters (w : World) : nat := link_count (tasks w).

(** The older class clears the token in [refresh()] only. *)
Definition not_during_link_generation : World -> Action -> Prop :=
  fun w a => a = CallRefresh -> link_waiters w = 0.

Definition session_inv (w : World) : Prop :=
  ((embedUrl (core w) <> None -> accessToken (core w) <> None) /\
   (isInitialized (core w) = true ->
    accessToken (core w) <> None /\ embedUrl (core w) <> None)) /\
  (link_waiters w <> 0 -> accessToken (core w) <> None).

Definition session_view (w : World) :=
  (accessToken (core w), embedUrl (core w), isInitialized (core w),
   link_waiters w).

Definition fresh_world : World :=
  mkWorld (mkConfig "pk_test=0123456789" (Some false) true true true)
          ["checkout"] fresh_core [] [].

End Legacy.

(** * Beyond the session manager

    The parts of the SDK around the manager (the HTTP client, the detection
    of the environment, the page bootstrap) and the vocabulary of the
    further properties. *)

(** ** The HTTP client, [UniversalHttpClient]

    [request(endpoint, options)] builds the options of [fetch], picks the
    transport of the environment, parses the body and rethrows every
    failure as one network error. *)

(** The [options] of a request as the caller passes them: a key that is not
    passed is [None].  Bodies are strings, which [request] hands over as
    they are (the manager sends none). *)
Record Options := mkOptions {
  opt_method : option string;
  opt_headers : option (gmap string string);
  opt_body : option string;
}.

(** What is handed to [fetch]. *)
Record RequestOptions := mkRequestOptions {
  req_method : string;
  req_headers : gmap string string;
  req_body : option string;
}.

(** [{ method: options.method || "GET",
       headers: { "Content-Type": "application/json", ...options.headers },
       ...options }]: in an object literal a later key replaces an earlier
    one, so the headers of the caller win over the default one, and the
    final spread puts back every key the caller passed.  (The [union] of
    finite maps keeps the left value.) *)
Definition requestOptions (options : Options) : RequestOptions :=
  let method := or_else (opt_method options) "GET" in
  let headers :=
    default ∅ (opt_headers options) ∪
    {[ "Content-Type" := "application/json" ]} in
  mkRequestOptions (default method (opt_method options))
                   (default headers (opt_headers options))
                   (opt_body options).

(** The options of the manager's two requests, by the credential they
    carry: [_authenticate] and [_generateEmbedLink]. *)
Definition credential_header (c : Credential) : gmap string string :=
  match c with
  | XApiKey key => {[ "X-API-KEY" := key ]}
  | Bearer token => {[ "Authorization" := "Bearer " +:+ default "null" token ]}
  end.

Definition credential_options (c : Credential) : Options :=
  match c with
  | XApiKey _ => mkOptions (Some "GET") (Some (credential_header c)) None
  | Bearer _ => mkOptions (Some "POST") (Some (credential_header c)) None
  end.

(** The headers the older class hands to [fetch] in [_makeRequest]:
    [{ "Content-Type": "application/json", ...headers }]. *)
Definition legacy_request_headers (headers : gmap string string)
    : gmap string string :=
  headers ∪ {[ "Content-Type" := "application/json" ]}.

(** What [fetch] does with a request: it rejects (no connection, aborted
    after the timeout; on Node also a failed import of node-fetch), or it
    resolves with a response. *)
Inductive FetchResult :=
| FetchRejects (message : string)
| FetchResponds (ok : bool) (status : nat) (statusText : string)
                (text : string).

Section Transport.

(** [JSON.parse], followed by the reading of the fields the manager uses;
    [None] when the text is not JSON. *)
Variable JSON_parse : string -> option Response.

Definition _parseResponse (text : string) : Error + Response :=
  match JSON_parse text with
  | Some r => inr r
  | None =>
    inl (JsError ("Respuesta JSON inválida: " +:+ String.substring 0 100 text))
  end.

(** The three transports, up to the body text of the response. *)
Definition _browserFetch (f : FetchResult) : Error + string :=
  match f with
  | FetchRejects m => inl (JsError m)
  | FetchResponds ok status statusText text =>
    if ok then inr text
    else inl (JsError ("HTTP " +:+ pretty status +:+ ": " +:+ statusText))
  end.

Definition _nodeFetch (f : FetchResult) : Error + string :=
  match f with
  | FetchRejects _ => inl (JsError "node-fetch no disponible en entorno Node.js")
  | FetchResponds _ _ _ text => inr text
  end.

Definition _reactNativeFetch (f : FetchResult) : Error + string :=
  match f with
  | FetchRejects m => inl (JsError m)
  | FetchResponds _ _ _ text => inr text
  end.

Definition transport (env : Env) (f : FetchResult) : Error + string :=
  match env with
  | Node => _nodeFetch f
  | ReactNative => _reactNativeFetch f
  | _ => _browserFetch f
  end.

(** The [try] block of [request]: the parsed body, or the error thrown. *)
Definition fetched (env : Env) (f : FetchResult) : Error + Response :=
  match transport env f with
  | inl e => inl e
  | inr text => _parseResponse text
  end.

(** [request], from the call of [fetch] on. *)
Definition http_request (env : Env) (f : FetchResult) : Error + Response :=
  match fetched env f with
  | inl e =>
    inl (JsError ("Error de red (" +:+ env_name env +:+ "): "
                  +:+ error_message e))
  | inr r => inr r
  end.

(** What the manager's [init] sees of a request, as [request] above takes
    it. *)
Definition delivered_by (env : Env) (f : FetchResult) : NetOutcome :=
  match fetched env f with
  | inl e => NetFail (error_message e)
  | inr r => NetJson r
  end.

(** A backend given by what [fetch] does with the [n]-th request to each
    endpoint. *)
Definition http_backend (env : Env) (fa fl : nat -> FetchResult) : Backend :=
  mkBackend (fun n => delivered_by env (fa n))
            (fun n => delivered_by env (fl n)).

End Transport.

(** ** Environment detection and the page bootstrap *)

(** The globals the script looks at when it is loaded. *)
Record Globals := mkGlobals {
  has_window : bool;
  the_document : option (list string);
  navigator_product : option string;   (* [None]: no [navigator] *)
  has_importScripts : bool;
  process_versions_node : bool;
  has_Deno : bool;
  has_setTimeout : bool;
}.

Definition detect (g : Globals) : Env :=
  if has_window g && bool_decide (is_Some (the_document g)) then Web
  else if bool_decide (navigator_product g = Some "ReactNative")
  then ReactNative
  else if has_importScripts g then Worker
  else if process_versions_node g then Node
  else if has_Deno g then Deno
  else Unknown.

(** The host the manager runs on, when the globals stay as they were at
    load time. *)
Definition host_of (g : Globals) : Host :=
  mkHost (detect g) (has_setTimeout g) (the_document g).

(** An element matched by [[data-sintesis-pasarela]], with the attributes
    [autoInit] reads ([None]: the attribute is missing; [data-debug] only
    switches logging on). *)
Record Marker := mkMarker {
  data_api_key : option string;
  data_mode : option string;
  data_width : option string;
  data_height : option string;
}.

(** The body of [autoInit]'s loop: the manager created for one element
    after [instance.render(container, renderOptions)] was called, or [None]
    when the element is skipped. *)
Definition autoInit_marker (h : Host) (m : Marker) : option World :=
  if negb (truthy (data_api_key m)) then None
  else
    let mode := or_else (data_mode m) "auto" in
    let config := mkConfig (default "" (data_api_key m)) None (Some mode)
                           false false false false in
    match construct h config with
    | inl _ => None
    | inr instance =>
      let renderOptions :=
        mkRenderOptions (Some mode)
                        (Some (or_else (data_width m) "100%"))
                        (Some (or_else (data_height m) "600px")) None None in
      Some (render Element renderOptions instance)
    end.

(** [SintesisPasarela.autoInit()]: the managers it creates, in document
    order. *)
Definition autoInit (h : Host) (markers : list Marker) : list World :=
  if negb (bool_decide (environment h = Web)) ||
     negb (bool_decide (is_Some (document h)))
  then []
  else omap (autoInit_marker h) markers.

(** [utils.validateApiKey], on a string. *)
Definition validateApiKey (apiKey : string) : bool :=
  (10 <? String.length apiKey) &&
  bool_decide (is_Some (String.index 0 "=" apiKey)).

(** ** Vocabulary of the further properties *)

(** The world in which [init]'s [catch] block has found the retries
    exhausted, before it reports and rethrows. *)
Definition gave_up (rc : nat) (evs : list Event) (w : World) : World :=
  mkWorld (host w) (config w)
          (set_isLoading false (set_retryCount rc (core w))) []
          (timers w) (nextTimer w) (trace w ++ evs).

(** What [_scheduleTokenRefresh] cancels first: the timer whose handle the
    manager holds. *)
Definition cancelled (w : World) : list Event :=
  match _refreshTimeout (core w) with
  | Some old => [EvClearTimeout old]
  | None => []
  end.

Definition timers_after_cancel (w : World) : gset nat :=
  match _refreshTimeout (core w) with
  | Some old => timers w ∖ {[old]}
  | None => timers w
  end.

(** The world in which both steps of [init] have succeeded, before the
    success observer runs and the caller is resumed. *)
Definition became_ready (oa ol : NetOutcome) (d dl : Data)
    (evs : list Event) (w : World) : World :=
  mkWorld (host w) (config w)
          (mkCore (d_accessToken d) (d_embedUrl dl) true false 0
                  (Some (nextTimer w)))
          [] ({[nextTimer w]} ∪ timers_after_cancel w) (S (nextTimer w))
          (trace w ++ evs ++ [EvResponse Authenticate oa] ++ cancelled w ++
           [EvSetTimeout (nextTimer w)
                         ((expiresIn_or_default d - 60) * 1000)%Z;
            EvRequest GenerateLink (Bearer (d_accessToken d));
            EvResponse GenerateLink ol]).

(** The events of one failed attempt that is retried: the response, the
    backoff and the next authentication request. *)
Definition retried (o : NetOutcome) (rc : nat) (w : World) : list Event :=
  [EvResponse Authenticate o; EvDelay (1000 * Z.of_nat (S rc));
   auth_request w].

(** The events of [m] failed attempts that are retried, the first of them
    answered by the backend's [na]-th authentication while the counter is
    [rc]. *)
Fixpoint retries (b : Backend) (w : World) (na rc m : nat) : list Event :=
  match m with
  | 0 => []
  | S m' => retried (on_auth b na) rc w ++ retries b w (S na) (S rc) m'
  end.

(** The events of [m + 1] failed attempts of [init], of which the last one
    is not retried. *)
Definition attempts (b : Backend) (w : World) (na rc m : nat) : list Event :=
  [auth_request w] ++ retries b w na rc m ++
  [EvResponse Authenticate (on_auth b (na + m))].

(** The delays of the backoff after the counter was [rc]: [1000 * (rc + 1)],
    [1000 * (rc + 2)], ... *)
Definition backoff_from (rc m : nat) : list Z :=
  map (fun i => (1000 * Z.of_nat i)%Z) (seq (S rc) m).

(** What [_handleError] hands to [onError], if an observer is registered. *)
Definition reported (context : string) (e : Error) (w : World) : list Event :=
  if onError (config w)
  then [EvCallback OnError
          (PError context (error_message e) e (environment (host w))
                  (getStatus w))]
  else [].

(** The calls settled towards the host, in order. *)
Definition settlements (tr : list Event) : list (Call * Outcome) :=
  omap (fun e => match e with EvSettled c o => Some (c, o) | _ => None end) tr.

(** What [_triggerCallback] adds to the trace. *)
Definition notified (n : Observer) (p : Payload) (w : World) : list Event :=
  if registered (config w) n then [EvCallback n p] else [].

(** ** How the manager's fields evolve *)

(** The updates of the fields that the methods are made of: the loading
    flag is raised or lowered; a retry is counted, below the bound only; an
    accepted authentication stores a token; the refresh handle is replaced;
    an accepted link generation stores the URL and marks the manager
    ready; [refresh] and [destroy] drop the session. *)
Inductive core_update : Core -> Core -> Prop :=
| update_loading c v : core_update c (set_isLoading v c)
| update_retry c :
    retryCount c < maxRetries ->
    core_update c (set_retryCount (S (retryCount c)) c)
| update_token c t : truthy t = true -> core_update c (set_accessToken t c)
| update_handle c rt : core_update c (set_refreshTimeout rt c)
| update_ready c u : truthy u = true -> core_update c (ready u c)
| update_refresh c :
    core_update c
      (set_retryCount 0
         (set_embedUrl None
            (set_accessToken None (set_isInitialized false c))))
| update_destroy c :
    core_update c
      (set_isLoading false
         (set_embedUrl None
            (set_accessToken None (set_isInitialized false c)))).

(** ** Worked scenarios, continued *)

(** A parser that knows one body: the empty object. *)
Definition demo_parse (text : string) : option Response :=
  if String.eqb text "{}" then Some (mkResponse false None None) else None.

(** The fresh manager after an [init()] that exhausted its retries. *)
Definition failed_world : World := drive 7 failing_backend 0 0 loading_world.

(** [refresh()] called on the ready manager and not yet answered. *)
Definition refreshing_world : World := refresh false ready_world.

(** A browser whose page has the container [checkout]. *)
Definition web_host : Host := mkHost Web true (Some ["checkout"]).

(** The manager [new SintesisPasarelaCore(demo_config)] builds in a
    browser: [init()] is already under way. *)
Definition auto_world : World :=
  init FromConstructor (mkWorld web_host demo_config fresh_core [] ∅ 1 []).

(** * Properties *)

(** ** How the building blocks change a world *)

Lemma grow_nil w : grow [] [] w = w.
Proof. destruct w; unfold grow; simpl; by rewrite !app_nil_r. Qed.

Lemma emit_grow e w : emit e w = grow [] [e] w.
Proof. unfold emit, grow; by rewrite app_nil_r. Qed.

Lemma suspend_grow t w : suspend t w = grow [t] [] w.
Proof. unfold suspend, grow; by rewrite app_nil_r. Qed.

Lemma grow_grow l1 e1 l2 e2 w :
  grow l2 e2 (grow l1 e1 w) = grow (l1 ++ l2) (e1 ++ e2) w.
Proof. unfold grow; simpl; by rewrite !app_assoc. Qed.

Lemma grow_upd_core f l evs w :
  grow l evs (upd_core f w) = upd_core f (grow l evs w).
Proof. reflexivity. Qed.

Lemma _triggerCallback_grow n p w :
  exists evs, _triggerCallback n p w = grow [] evs w.
Proof.
  unfold _triggerCallback; destruct (registered _ _).
  - eexists; apply emit_grow.
  - exists []; by rewrite grow_nil.
Qed.

Lemma _handleError_grow ctx e w :
  exists evs, _handleError ctx e w = grow [] evs w.
Proof. apply _triggerCallback_grow. Qed.

Lemma only_renders_refl w : only_renders w w.
Proof. exists [], []; by rewrite grow_nil. Qed.

Lemma only_renders_trans w1 w2 w3 :
  only_renders w1 w2 -> only_renders w2 w3 -> only_renders w1 w3.
Proof.
  intros (l1 & e1 & -> & H1) (l2 & e2 & -> & H2).
  exists (l1 ++ l2), (e1 ++ e2); split; [apply grow_grow|].
  by apply Forall_app.
Qed.

Lemma only_renders_emit e w : only_renders w (emit e w).
Proof. exists [], [e]; split; [apply emit_grow | constructor]. Qed.

Lemma only_renders_callback n p w : only_renders w (_triggerCallback n p w).
Proof.
  destruct (_triggerCallback_grow n p w) as [evs ->].
  exists [], evs; split; [done | constructor].
Qed.

Lemma only_renders_iframe cfg w : only_renders w (suspend (TIframe cfg) w).
Proof.
  exists [TIframe cfg], []; split; [apply suspend_grow|].
  by repeat constructor.
Qed.

Lemma _renderIframe_only_renders target cfg w :
  only_renders w (_renderIframe target cfg w).
Proof.
  unfold _renderIframe, render_throw.
  repeat case_match;
    first [apply only_renders_emit | apply only_renders_iframe].
Qed.

Lemma _returnApiData_only_renders cfg w :
  only_renders w (_returnApiData cfg w).
Proof.
  unfold _returnApiData.
  eapply only_renders_trans;
    [apply only_renders_callback | apply only_renders_emit].
Qed.

Lemma _renderWebView_only_renders cfg w :
  only_renders w (_renderWebView cfg w).
Proof.
  unfold _renderWebView.
  eapply only_renders_trans;
    [apply only_renders_callback | apply only_renders_emit].
Qed.

Lemma render_dispatch_only_renders target options w :
  only_renders w (render_dispatch target options w).
Proof.
  unfold render_dispatch, _autoRender.
  repeat case_match;
    first [ apply _renderIframe_only_renders
          | apply _renderWebView_only_renders
          | apply _returnApiData_only_renders ].
Qed.

Lemma settle_only_renders k o w : only_renders w (settle k o w).
Proof.
  unfold settle, _handleError.
  repeat case_match;
    first [ apply only_renders_emit
          | apply only_renders_callback
          | apply render_dispatch_only_renders
          | apply only_renders_refl ].
Qed.

Lemma iframe_loaded_only_renders w : only_renders w (iframe_loaded w).
Proof.
  unfold iframe_loaded.
  eapply only_renders_trans;
    [apply only_renders_callback | apply only_renders_emit].
Qed.

Lemma iframe_failed_only_renders e w : only_renders w (iframe_failed e w).
Proof.
  unfold iframe_failed, _handleError.
  eapply only_renders_trans;
    [apply only_renders_callback | apply only_renders_emit].
Qed.

(** [init()] either returns at once, leaving the fields alone, or raises
    the loading flag and sends the authentication request. *)
Lemma init_cases k w :
  only_renders w (init k w) \/
  (isLoading (core w) = false /\
   init k w = grow [TInit AwaitAuth k]
                   [EvRequest Authenticate (XApiKey (apiKey (config w)))]
                   (upd_core (set_isLoading true) w)).
Proof.
  unfold init.
  destruct (isLoading (core w)) eqn:Hl; [left; apply settle_only_renders|].
  destruct (_ && _); [left; apply settle_only_renders|].
  right; split; [done|].
  unfold _authenticate. by rewrite emit_grow, suspend_grow, grow_grow.
Qed.

(** The [catch] block lowers the loading flag and then either waits for
    the backoff, gives up, or (without timers) starts over at once. *)
Lemma init_catch_cases k e w :
  exists n,
    (n = retryCount (core w) \/ n = S (retryCount (core w))) /\
    let w1 := upd_core (set_retryCount n) (upd_core (set_isLoading false) w) in
    (exists evs, init_catch k e w = grow [TInit AwaitDelay k] evs w1) \/
    only_renders w1 (init_catch k e w) \/
    (exists evs, init_catch k e w =
                 grow [TInit AwaitAuth k] evs
                      (upd_core (set_isLoading true) w1)).
Proof.
  unfold init_catch.
  destruct (_ <? _)%nat.
  - exists (S (retryCount (core w))); simpl. split; [by right|].
    destruct (hasTimers (host w)) eqn:Ht; simpl.
    + left. eexists. by rewrite emit_grow, suspend_grow, grow_grow.
    + match goal with |- context [init k ?w0] =>
        destruct (init_cases k w0) as [Hi | [Hi ->]] end.
      * right; left. eapply only_renders_trans; [|exact Hi].
        apply only_renders_emit.
      * right; right. rewrite emit_grow. eexists.
        rewrite <- grow_upd_core, grow_grow. reflexivity.
  - exists (retryCount (core w)); simpl. split; [by left|]. right; left.
    assert (upd_core (set_retryCount (retryCount (core w)))
              (upd_core (set_isLoading false) w)
            = upd_core (set_isLoading false) w) as ->
      by (by destruct w as [? ? [] ? ? ? ?]).
    eapply only_renders_trans; [|apply settle_only_renders].
    destruct (_handleError_grow "Error en inicialización" e
                (upd_core (set_isLoading false) w)) as [evs ->].
    exists [], evs; split; [done | constructor].
Qed.

(** ** What the two steps of [init] accept *)

(** What [_scheduleTokenRefresh] leaves alone. *)
Lemma _scheduleTokenRefresh_frame expiresIn w :
  let w' := _scheduleTokenRefresh expiresIn w in
  host w' = host w /\ config w' = config w /\ tasks w' = tasks w /\
  (exists rt, core w' = set_refreshTimeout rt (core w)) /\
  (exists evs, trace w' = trace w ++ evs).
Proof.
  unfold _scheduleTokenRefresh.
  destruct (hasTimers (host w)); simpl.
  - destruct (_refreshTimeout (core w)); simpl;
      repeat split; eauto; rewrite <- ?app_assoc; eauto.
  - repeat split; [|exists []; by rewrite app_nil_r].
    exists (_refreshTimeout (core w)). by destruct (core w).
Qed.

Lemma _authenticate_resume_accepts o d w :
  auth_data o = Some d -> _authenticate_resume o w = inr (auth_accepted d w).
Proof.
  destruct o as [|[[] [d'|] m]]; simpl; try done.
  unfold _authenticate_resume; simpl.
  destruct (truthy (d_accessToken d')); [|done].
  by intros [= ->].
Qed.

Lemma _authenticate_resume_rejects o w :
  auth_data o = None -> exists e, _authenticate_resume o w = inl e.
Proof.
  unfold _authenticate_resume.
  destruct o as [|[[] [d'|] m]]; simpl; eauto.
  destruct (truthy (d_accessToken d')); [done | eauto].
Qed.

Lemma _authenticate_resume_inr o w w' :
  _authenticate_resume o w = inr w' ->
  exists d, auth_data o = Some d /\ w' = auth_accepted d w.
Proof.
  intros H. destruct (auth_data o) as [d|] eqn:Hd.
  - rewrite (_authenticate_resume_accepts _ _ _ Hd) in H.
    exists d. by injection H as <-.
  - destruct (_authenticate_resume_rejects o w Hd) as [e He]. congruence.
Qed.

Lemma auth_accepted_frame d w :
  let w' := auth_accepted d w in
  host w' = host w /\ config w' = config w /\ tasks w' = tasks w /\
  (exists rt, core w' = set_refreshTimeout rt
                          (set_accessToken (d_accessToken d) (core w))) /\
  (exists evs, trace w' = trace w ++ evs).
Proof.
  unfold auth_accepted; simpl.
  destruct (hasTimers (host w)).
  - apply (_scheduleTokenRefresh_frame _
             (upd_core (set_accessToken (d_accessToken d)) w)).
  - split_and!; try done; [|exists []; by rewrite app_nil_r].
    exists (_refreshTimeout (core w)); simpl. by destruct (core w).
Qed.

(** Likewise for [_generateEmbedLink]. *)
Lemma _generateEmbedLink_resume_accepts o d w :
  link_data o = Some d ->
  _generateEmbedLink_resume o w = inr (upd_core (set_embedUrl (d_embedUrl d)) w).
Proof.
  destruct o as [|[[] [d'|] m]]; simpl; try done.
  unfold _generateEmbedLink_resume; simpl.
  destruct (truthy (d_embedUrl d')); [|done].
  by intros [= ->].
Qed.

Lemma _generateEmbedLink_resume_rejects o w :
  link_data o = None -> exists e, _generateEmbedLink_resume o w = inl e.
Proof.
  unfold _generateEmbedLink_resume.
  destruct o as [|[[] [d'|] m]]; simpl; eauto.
  destruct (truthy (d_embedUrl d')); [done | eauto].
Qed.

Lemma _generateEmbedLink_resume_inr o w w' :
  _generateEmbedLink_resume o w = inr w' ->
  exists d, link_data o = Some d /\
            w' = upd_core (set_embedUrl (d_embedUrl d)) w.
Proof.
  intros H. destruct (link_data o) as [d|] eqn:Hd.
  - rewrite (_generateEmbedLink_resume_accepts _ _ _ Hd) in H.
    exists d. by injection H as <-.
  - destruct (_generateEmbedLink_resume_rejects o w Hd) as [e He]. congruence.
Qed.

(** ** Counting round trips *)

Lemma count_app f l1 l2 : count f (l1 ++ l2) = count f l1 + count f l2.
Proof. induction l1 as [|t l1 IH]; simpl; [done | rewrite IH; lia]. Qed.

Lemma count_delete f l i t :
  l !! i = Some t ->
  count f l = (if f t then 1 else 0) + count f (delete i l).
Proof.
  revert i; induction l as [|x l IH]; intros [|i] H; simpl in *; try done.
  - by injection H as ->.
  - rewrite (IH i H). lia.
Qed.

Lemma count_iframes l :
  Forall (fun t => is_iframe t = true) l -> count in_flight l = 0.
Proof.
  induction 1 as [|t l Ht _ IH]; simpl; [done|].
  destruct t; [done | by rewrite IH].
Qed.

Lemma only_renders_round_trips w w' :
  only_renders w w' -> core w' = core w /\ round_trips w' = round_trips w.
Proof.
  intros (l & evs & -> & Hl). split; [done|].
  unfold round_trips; simpl. rewrite count_app, (count_iframes l Hl). lia.
Qed.

Lemma only_renders_guarded w w' : only_renders w w' -> guarded w -> guarded w'.
Proof.
  intros H; destruct (only_renders_round_trips _ _ H) as [Hc Hr].
  unfold guarded. by rewrite Hc, Hr.
Qed.

Lemma init_guarded k w : guarded w -> guarded (init k w).
Proof.
  destruct (init_cases k w) as [H | [Hl ->]].
  - by apply only_renders_guarded.
  - unfold guarded, round_trips; simpl. rewrite Hl, count_app; simpl. lia.
Qed.

Lemma init_catch_guarded k e w : round_trips w = 0 -> guarded (init_catch k e w).
Proof.
  intros H0. destruct (init_catch_cases k e w) as (n & _ & Hc); simpl in Hc.
  destruct Hc as [[evs ->] | [Hr | [evs ->]]].
  - unfold guarded, round_trips in *; simpl. rewrite count_app, H0. done.
  - eapply only_renders_guarded; [exact Hr|]. by unfold guarded.
  - unfold guarded, round_trips in *; simpl. rewrite count_app, H0. done.
Qed.

Lemma _generateEmbedLink_guarded k w :
  round_trips w = 0 -> isLoading (core w) = true ->
  guarded (_generateEmbedLink k w).
Proof.
  intros H0 Hl. unfold _generateEmbedLink.
  destruct (negb _); [by apply init_catch_guarded|].
  unfold guarded, round_trips in *; simpl. rewrite Hl, count_app, H0. done.
Qed.

Lemma init_after_auth_guarded k o w :
  round_trips w = 0 -> isLoading (core w) = true ->
  guarded (init_after_auth k o w).
Proof.
  intros H0 Hl. unfold init_after_auth.
  destruct (_authenticate_resume _ _) as [e|w'] eqn:Hr.
  - by apply init_catch_guarded.
  - apply _authenticate_resume_inr in Hr as (d & _ & ->).
    destruct (auth_accepted_frame d (emit (EvResponse Authenticate o) w))
      as (_ & _ & Ht & [rt Hc] & _).
    apply _generateEmbedLink_guarded.
    + unfold round_trips. by rewrite Ht.
    + by rewrite Hc.
Qed.

Lemma init_after_link_guarded k o w :
  round_trips w = 0 -> guarded (init_after_link k o w).
Proof.
  intros H0. unfold init_after_link.
  destruct (_generateEmbedLink_resume _ _) as [e|w'] eqn:Hr.
  - by apply init_catch_guarded.
  - apply _generateEmbedLink_resume_inr in Hr as (d & _ & ->).
    eapply only_renders_guarded.
    { eapply only_renders_trans;
        [apply only_renders_callback | apply settle_only_renders]. }
    by unfold guarded.
Qed.

Lemma refresh_guarded timer w : guarded w -> guarded (refresh timer w).
Proof. intros H. by apply init_guarded. Qed.

Lemma render_guarded target options w :
  guarded w -> guarded (render target options w).
Proof.
  unfold render. destruct (negb _); [apply init_guarded|].
  apply only_renders_guarded, render_dispatch_only_renders.
Qed.

Lemma take_task_in_flight i t w :
  tasks w !! i = Some t -> guarded w -> in_flight t = true ->
  round_trips (take_task i w) = 0 /\ isLoading (core w) = true.
Proof.
  unfold guarded, round_trips; simpl. intros Hi Hg Ht.
  rewrite (count_delete in_flight _ _ _ Hi), Ht in Hg.
  destruct (isLoading (core w)); [split; [lia | done] | lia].
Qed.

Lemma take_task_idle i t w :
  tasks w !! i = Some t -> guarded w -> in_flight t = false ->
  guarded (take_task i w).
Proof.
  unfold guarded, round_trips; simpl. intros Hi Hg Ht.
  by rewrite (count_delete in_flight _ _ _ Hi), Ht in Hg.
Qed.

(** Every turn other than a [destroy()] keeps the guard. *)
Lemma step_guarded a w w' :
  a <> CallDestroy -> guarded w -> step a w = Some w' -> guarded w'.
Proof.
  intros Ha Hg Hs. destruct a; simpl in Hs; try done.
  - injection Hs as <-. by apply init_guarded.
  - injection Hs as <-. by apply refresh_guarded.
  - injection Hs as <-. by apply render_guarded.
  - destruct (tasks w !! i) as [[[] k|]|] eqn:Hi; try done;
      injection Hs as <-;
      destruct (take_task_in_flight i _ w Hi Hg eq_refl) as [H0 Hl].
    + by apply init_after_auth_guarded.
    + by apply init_after_link_guarded.
  - destruct (tasks w !! i) as [[[] k|]|] eqn:Hi; try done.
    injection Hs as <-. apply init_guarded.
    by apply (take_task_idle i _ w Hi Hg).
  - destruct (bool_decide _); [|done]. injection Hs as <-.
    by apply refresh_guarded.
  - destruct (tasks w !! i) as [[|cfg]|] eqn:Hi; try done.
    injection Hs as <-. unfold iframe_loaded.
    eapply only_renders_guarded;
      [|by apply (take_task_idle i _ w Hi Hg)].
    eapply only_renders_trans;
      [apply only_renders_callback | apply only_renders_emit].
  - destruct (tasks w !! i) as [[|cfg]|] eqn:Hi; try done.
    injection Hs as <-. unfold iframe_failed, _handleError.
    eapply only_renders_guarded;
      [|by apply (take_task_idle i _ w Hi Hg)].
    eapply only_renders_trans;
      [apply only_renders_callback | apply only_renders_emit].
Qed.

Lemma construct_guarded h c w0 : construct h c = inr w0 -> guarded w0.
Proof.
  unfold construct. destruct (String.eqb _ _); [done|].
  intros [= <-]. destruct (config_autoInit h c); [apply init_guarded|]; done.
Qed.

(** C6. From construction on, in every interleaving of [init],
    [refresh], [render], the scheduled auto-refresh and the responses and
    backoff delays they wait for, at most one [init] round-trip sequence
    (authenticate, then link generation) is in flight, and one is in
    flight exactly when the loading flag is set; calls waiting in a
    backoff delay do not count and cannot add a second one. *)
Theorem at_most_one_init_in_flight h c w0 w :
  construct h c = inr w0 ->
  reachable without_destroy w0 w ->
  round_trips w <= 1 /\
  (round_trips w = 1 <-> isLoading (core w) = true).
Proof.
  intros Hc Hr.
  assert (guarded w) as Hg.
  { induction Hr as [|w a w' _ IH Ha Hs].
    - by eapply construct_guarded.
    - by eapply step_guarded. }
  unfold guarded in Hg. destruct (isLoading (core w)); rewrite Hg.
  - split; [lia | done].
  - split; [lia | split; [lia | done]].
Qed.

(** ** The session invariant *)

Lemma session_inv_view w w' :
  session_view w' = session_view w -> session_inv w -> session_inv w'.
Proof.
  unfold session_view, session_inv, session_ok.
  intros [= -> -> -> ->]. done.
Qed.

Lemma count_link_iframes l :
  Forall (fun t => is_iframe t = true) l -> count is_link l = 0.
Proof.
  induction 1 as [|t l Ht _ IH]; simpl; [done|].
  destruct t; [done | by rewrite IH].
Qed.

Lemma only_renders_view w w' :
  only_renders w w' -> session_view w' = session_view w.
Proof.
  intros (l & evs & -> & Hl). unfold session_view, link_waiters; simpl.
  rewrite count_app, (count_link_iframes l Hl). by rewrite Nat.add_0_r.
Qed.

Lemma init_view k w : session_view (init k w) = session_view w.
Proof.
  destruct (init_cases k w) as [H | [_ ->]]; [by apply only_renders_view|].
  unfold session_view, link_waiters; simpl.
  rewrite count_app; simpl. by rewrite Nat.add_0_r.
Qed.

Lemma init_catch_view k e w :
  session_view (init_catch k e w) = session_view w.
Proof.
  destruct (init_catch_cases k e w) as (n & _ & Hc); simpl in Hc.
  destruct Hc as [[evs ->] | [Hr | [evs ->]]].
  - unfold session_view, link_waiters; simpl.
    rewrite count_app; simpl. by rewrite Nat.add_0_r.
  - by rewrite (only_renders_view _ _ Hr).
  - unfold session_view, link_waiters; simpl.
    rewrite count_app; simpl. by rewrite Nat.add_0_r.
Qed.

Lemma truthy_Some o : truthy o = true -> o <> None.
Proof. by destruct o. Qed.

Lemma take_task_session_inv i t w :
  tasks w !! i = Some t -> session_inv w -> session_inv (take_task i w).
Proof.
  unfold session_inv, link_waiters; simpl. intros Hi [Hs Hl].
  split; [done|]. intros Hn. apply Hl.
  rewrite (count_delete is_link _ _ _ Hi). lia.
Qed.

Lemma _generateEmbedLink_session_inv k w :
  session_inv w -> session_inv (_generateEmbedLink k w).
Proof.
  intros Hw. unfold _generateEmbedLink.
  destruct (truthy (accessToken (core w))) eqn:Ht; simpl.
  - destruct Hw as [Hs _]. split; [done|]. intros _.
    by apply truthy_Some.
  - eapply session_inv_view; [apply init_catch_view | done].
Qed.

Lemma auth_accepted_session_inv o d w :
  auth_data o = Some d -> session_inv w -> session_inv (auth_accepted d w).
Proof.
  intros Hd [[Hu Hi] _].
  assert (d_accessToken d <> None) as Hn.
  { destruct o as [|[[] [d'|] m]]; simpl in Hd; try done.
    destruct (truthy (d_accessToken d')) eqn:Ht; [|done].
    injection Hd as <-. by apply truthy_Some. }
  destruct (auth_accepted_frame d w) as (_ & _ & Ht & [rt Hc] & _).
  unfold session_inv, session_ok, link_waiters.
  rewrite Hc, Ht; simpl. split_and!; try done.
  intros H. split; [done|]. by apply Hi.
Qed.

Lemma init_after_auth_session_inv k o w :
  session_inv w -> session_inv (init_after_auth k o w).
Proof.
  intros Hw. unfold init_after_auth.
  destruct (_authenticate_resume _ _) as [e|w'] eqn:Hr.
  - eapply session_inv_view; [apply init_catch_view | done].
  - apply _authenticate_resume_inr in Hr as (d & Hd & ->).
    apply _generateEmbedLink_session_inv.
    by eapply auth_accepted_session_inv.
Qed.

Lemma init_after_link_session_inv k o w :
  accessToken (core w) <> None -> session_inv w ->
  session_inv (init_after_link k o w).
Proof.
  intros Htok Hw. unfold init_after_link.
  destruct (_generateEmbedLink_resume _ _) as [e|w'] eqn:Hr.
  - eapply session_inv_view; [apply init_catch_view | done].
  - apply _generateEmbedLink_resume_inr in Hr as (d & Hd & ->).
    eapply session_inv_view.
    { apply only_renders_view. eapply only_renders_trans;
        [apply only_renders_callback | apply settle_only_renders]. }
    destruct Hw as [_ Hl].
    unfold session_inv, session_ok, link_waiters; simpl.
    split_and!; try done.
    assert (d_embedUrl d <> None); [|done].
    destruct o as [|[[] [d'|] m]]; simpl in Hd; try done.
    destruct (truthy (d_embedUrl d')) eqn:Ht; [|done].
    injection Hd as <-. by apply truthy_Some.
Qed.

Lemma refresh_session_inv timer w :
  link_waiters w = 0 -> session_inv (refresh timer w).
Proof.
  intros H0. unfold refresh.
  eapply session_inv_view; [apply init_view|].
  unfold session_inv, session_ok, link_waiters in *; simpl.
  by rewrite H0.
Qed.

Lemma destroy_session_inv w : link_waiters w = 0 -> session_inv (destroy w).
Proof.
  intros H0. unfold destroy; simpl.
  destruct (_refreshTimeout (core w)); [destruct (hasTimers (host w))|];
    unfold session_inv, session_ok, link_waiters in *; simpl; by rewrite H0.
Qed.

Lemma render_session_inv target options w :
  session_inv w -> session_inv (render target options w).
Proof.
  unfold render. destruct (negb _).
  - apply session_inv_view, init_view.
  - apply session_inv_view, only_renders_view, render_dispatch_only_renders.
Qed.

Lemma step_session_inv a w w' :
  not_during_link_generation w a -> session_inv w -> step a w = Some w' ->
  session_inv w'.
Proof.
  unfold not_during_link_generation.
  intros Ha Hw Hs. destruct a; simpl in *.
  - injection Hs as <-. eapply session_inv_view; [apply init_view | done].
  - injection Hs as <-. by apply refresh_session_inv, Ha.
  - injection Hs as <-. by apply destroy_session_inv, Ha.
  - injection Hs as <-. by apply render_session_inv.
  - destruct (tasks w !! i) as [[[] k|]|] eqn:Hi; try done;
      injection Hs as <-.
    + by eapply init_after_auth_session_inv, take_task_session_inv.
    + apply init_after_link_session_inv;
        [|by eapply take_task_session_inv].
      destruct Hw as [_ Hl]. apply Hl. unfold link_waiters.
      rewrite (count_delete is_link _ _ _ Hi); simpl. lia.
  - destruct (tasks w !! i) as [[[] k|]|] eqn:Hi; try done.
    injection Hs as <-. eapply session_inv_view; [apply init_view|].
    by eapply take_task_session_inv.
  - destruct (bool_decide _); [|done]. injection Hs as <-.
    by apply (refresh_session_inv true (fire id w)), Ha.
  - destruct (tasks w !! i) as [[|cfg]|] eqn:Hi; try done.
    injection Hs as <-. unfold iframe_loaded.
    eapply session_inv_view; [|by eapply take_task_session_inv].
    apply only_renders_view. eapply only_renders_trans;
      [apply only_renders_callback | apply only_renders_emit].
  - destruct (tasks w !! i) as [[|cfg]|] eqn:Hi; try done.
    injection Hs as <-. unfold iframe_failed, _handleError.
    eapply session_inv_view; [|by eapply take_task_session_inv].
    apply only_renders_view. eapply only_renders_trans;
      [apply only_renders_callback | apply only_renders_emit].
Qed.

Lemma construct_session_inv h c w0 : construct h c = inr w0 -> session_inv w0.
Proof.
  unfold construct. destruct (String.eqb _ _); [done|].
  intros [= <-].
  assert (session_inv (mkWorld h c fresh_core [] ∅ 1 [])) as H0.
  { unfold session_inv, session_ok, link_waiters; simpl. done. }
  destruct (config_autoInit h c); [|done].
  eapply session_inv_view; [apply init_view | done].
Qed.

(** C3, as the code has it.  In every world reached from construction by
    [init], [refresh], [destroy], [render], the scheduled refresh and the
    events they wait for, as long as no [refresh()], [destroy()] or
    scheduled refresh runs while an [init] is awaiting the link-generation
    response: [embedUrl] is non-null only if [accessToken] is non-null,
    and [isInitialized] implies that both are non-null. *)
Theorem session_invariant_outside_link_generation h c w0 w :
  construct h c = inr w0 ->
  reachable not_during_link_generation w0 w ->
  (embedUrl (core w) <> None -> accessToken (core w) <> None) /\
  (isInitialized (core w) = true ->
   accessToken (core w) <> None /\ embedUrl (core w) <> None).
Proof.
  intros Hc Hr.
  assert (session_inv w) as [H _]; [|exact H].
  induction Hr as [|w a w' _ IH Ha Hs].
  - by eapply construct_session_inv.
  - by eapply step_session_inv.
Qed.

(** ** Where a token comes from *)

Lemma keeps_token_refl w : keeps_token w w.
Proof. split; [done | exists []; by rewrite app_nil_r]. Qed.

Lemma keeps_token_trans w1 w2 w3 :
  keeps_token w1 w2 -> keeps_token w2 w3 -> keeps_token w1 w3.
Proof.
  intros [H1 [e1 T1]] [H2 [e2 T2]]. split; [congruence|].
  exists (e1 ++ e2). by rewrite T2, T1, app_assoc.
Qed.

Lemma only_renders_keeps_token w w' : only_renders w w' -> keeps_token w w'.
Proof. intros (l & evs & -> & _). split; [done | by exists evs]. Qed.

Lemma init_keeps_token k w : keeps_token w (init k w).
Proof.
  destruct (init_cases k w) as [H | [_ ->]].
  - by apply only_renders_keeps_token.
  - split; [done | by eexists].
Qed.

Lemma init_catch_keeps_token k e w : keeps_token w (init_catch k e w).
Proof.
  destruct (init_catch_cases k e w) as (n & _ & Hc); simpl in Hc.
  destruct Hc as [[evs ->] | [Hr | [evs ->]]].
  - split; [done | by eexists].
  - apply only_renders_keeps_token in Hr as [Ht He]. by split.
  - split; [done | by eexists].
Qed.

Lemma _generateEmbedLink_keeps_token k w :
  keeps_token w (_generateEmbedLink k w).
Proof.
  unfold _generateEmbedLink. destruct (negb _).
  - apply init_catch_keeps_token.
  - split; [done | by eexists].
Qed.

Lemma delivered_app_l t evs evs' : delivered t evs -> delivered t (evs ++ evs').
Proof.
  intros (o & d & Hi & Hd). exists o, d. split; [|done].
  apply in_or_app; by left.
Qed.

Lemma delivered_app_r t evs evs' : delivered t evs' -> delivered t (evs ++ evs').
Proof.
  intros (o & d & Hi & Hd). exists o, d. split; [|done].
  apply in_or_app; by right.
Qed.

(** One turn keeps the token, clears it, or stores one that an
    authentication response has just delivered. *)
Lemma step_token a w w' :
  step a w = Some w' ->
  exists evs, trace w' = trace w ++ evs /\
    (accessToken (core w') = accessToken (core w) \/
     accessToken (core w') = None \/
     exists t, accessToken (core w') = Some t /\ delivered t evs).
Proof.
  assert (forall v v', keeps_token v v' -> trace v = trace w ->
            accessToken (core v) = accessToken (core w) ->
            exists evs, trace v' = trace w ++ evs /\
              (accessToken (core v') = accessToken (core w) \/
               accessToken (core v') = None \/
               exists t, accessToken (core v') = Some t /\ delivered t evs))
    as Hkeep.
  { intros v v' [Ht [evs He]] Hv Hc. exists evs.
    split; [congruence | left; congruence]. }
  assert (forall v v', keeps_token v v' -> trace v = trace w ->
            accessToken (core v) = None ->
            exists evs, trace v' = trace w ++ evs /\
              (accessToken (core v') = accessToken (core w) \/
               accessToken (core v') = None \/
               exists t, accessToken (core v') = Some t /\ delivered t evs))
    as Hnone.
  { intros v v' [Ht [evs He]] Hv Hc. exists evs.
    split; [congruence | right; left; congruence]. }
  intros Hs. destruct a; simpl in Hs.
  - injection Hs as <-. by eapply Hkeep; [apply init_keeps_token|..].
  - injection Hs as <-. by eapply Hnone; [apply init_keeps_token|..].
  - injection Hs as <-. unfold destroy; simpl.
    destruct (_refreshTimeout (core w)); [destruct (hasTimers (host w))|];
      simpl; eauto.
    all: exists []; rewrite app_nil_r; eauto.
  - injection Hs as <-. unfold render. destruct (negb _).
    + by eapply Hkeep; [apply init_keeps_token|..].
    + eapply Hkeep; [|done..].
      apply only_renders_keeps_token, render_dispatch_only_renders.
  - destruct (tasks w !! i) as [[[] k|]|] eqn:Hi; try done;
      injection Hs as <-.
    + unfold init_after_auth.
      destruct (_authenticate_resume _ _) as [e|w1] eqn:Hr.
      * destruct (init_catch_keeps_token k e
                    (emit (EvResponse Authenticate o) (take_task i w)))
          as [Ht [evs He]].
        exists ([EvResponse Authenticate o] ++ evs).
        split; [by rewrite He, app_assoc | by left].
      * apply _authenticate_resume_inr in Hr as (d & Hd & ->).
        destruct (auth_accepted_frame d
                    (emit (EvResponse Authenticate o) (take_task i w)))
          as (_ & _ & _ & [rt Hc] & [e1 He1]).
        destruct (_generateEmbedLink_keeps_token k
                    (auth_accepted d
                       (emit (EvResponse Authenticate o) (take_task i w))))
          as [Ht [e2 He2]].
        exists ([EvResponse Authenticate o] ++ e1 ++ e2).
        split; [by rewrite He2, He1; simpl; rewrite <- !app_assoc|].
        right; right. rewrite Ht, Hc; simpl.
        destruct (d_accessToken d) as [t|] eqn:Hdt.
        -- exists t. split; [done|]. exists o, d.
           split; [by left | done].
        -- destruct o as [|[[] [d'|] m]]; simpl in Hd; try done.
           destruct (truthy (d_accessToken d')) eqn:Hty; [|done].
           injection Hd as <-. by rewrite Hdt in Hty.
    + unfold init_after_link.
      destruct (_generateEmbedLink_resume _ _) as [e|w1] eqn:Hr.
      * destruct (init_catch_keeps_token k e
                    (emit (EvResponse GenerateLink o) (take_task i w)))
          as [Ht [evs He]].
        exists ([EvResponse GenerateLink o] ++ evs).
        split; [by rewrite He, app_assoc | by left].
      * apply _generateEmbedLink_resume_inr in Hr as (d & Hd & ->).
        match goal with |- context [settle k ?o' (_triggerCallback ?n ?p ?v)] =>
          destruct (only_renders_keeps_token v
                      (settle k o' (_triggerCallback n p v)))
            as [Ht [evs He]]
        end.
        { eapply only_renders_trans;
            [apply only_renders_callback | apply settle_only_renders]. }
        exists ([EvResponse GenerateLink o] ++ evs).
        split; [by rewrite He, app_assoc | by left].
  - destruct (tasks w !! i) as [[[] k|]|] eqn:Hi; try done.
    injection Hs as <-. by eapply Hkeep; [apply init_keeps_token|..].
  - destruct (bool_decide _); [|done]. injection Hs as <-.
    by eapply Hnone; [apply init_keeps_token|..].
  - destruct (tasks w !! i) as [[|cfg]|] eqn:Hi; try done.
    injection Hs as <-. apply (Hkeep (take_task i w)); [|done..].
    apply only_renders_keeps_token, iframe_loaded_only_renders.
  - destruct (tasks w !! i) as [[|cfg]|] eqn:Hi; try done.
    injection Hs as <-. apply (Hkeep (take_task i w)); [|done..].
    apply only_renders_keeps_token, iframe_failed_only_renders.
Qed.

(** From a world on, every token the manager later holds was delivered
    after that world, unless the world's own token was kept. *)
Lemma reachable_token w1 w2 :
  reachable any_turn w1 w2 ->
  exists evs, trace w2 = trace w1 ++ evs /\
    (accessToken (core w2) = accessToken (core w1) \/
     accessToken (core w2) = None \/
     exists t, accessToken (core w2) = Some t /\ delivered t evs).
Proof.
  induction 1 as [|w a w' _ (evs & He & IH) _ Hs].
  - exists []. by rewrite app_nil_r; auto.
  - destruct (step_token _ _ _ Hs) as (evs' & He' & Hc).
    exists (evs ++ evs'). split; [by rewrite He', He, app_assoc|].
    destruct Hc as [Hc | [Hc | (t & Hc & Hd)]].
    + rewrite Hc. destruct IH as [IH | [IH | (t & IH & Hd)]]; auto.
      right; right. exists t. split; [done | by apply delivered_app_l].
    + auto.
    + right; right. exists t. split; [done | by apply delivered_app_r].
Qed.

(** ** Awaiting a call against a backend *)

Lemma drive_done fuel b na nl w : tasks w = [] -> drive fuel b na nl w = w.
Proof. intros H. destruct fuel; simpl; [done | by rewrite H]. Qed.

Lemma construct_manual h c w :
  construct h c = inr w -> config_autoInit h c = false ->
  w = mkWorld h c fresh_core [] ∅ 1 [].
Proof.
  unfold construct. destruct (String.eqb _ _); [done|].
  intros [= <-] ->. done.
Qed.

Lemma _authenticate_resume_host o w w' e :
  host w = host w' ->
  _authenticate_resume o w = inl e -> _authenticate_resume o w' = inl e.
Proof.
  unfold _authenticate_resume. intros ->.
  destruct (request _ _) as [|r]; [done|].
  destruct (success r); [|done].
  destruct (data r) as [d|]; [|done].
  destruct (truthy _); done.
Qed.

Lemma world_ext w1 w2 :
  host w1 = host w2 -> config w1 = config w2 -> core w1 = core w2 ->
  tasks w1 = tasks w2 -> timers w1 = timers w2 ->
  nextTimer w1 = nextTimer w2 -> trace w1 = trace w2 -> w1 = w2.
Proof. destruct w1, w2; simpl; congruence. Qed.

(** Reduces the projections of a world built by the combinators.  Every
    world in the goal has to be under a projection. *)
Ltac proj :=
  cbn [host config core tasks timers nextTimer trace
       accessToken embedUrl isInitialized isLoading retryCount _refreshTimeout
       set_accessToken set_embedUrl set_isInitialized set_isLoading
       set_retryCount set_refreshTimeout
       suspend emit upd_core take_task set_tasks grow attempting ready
       setTimeout clearTimeout getStatus registered auth_request
       app delete list_delete negb andb].

Ltac world_eq :=
  apply world_ext; proj; rewrite <- ?app_assoc; try done.

Lemma _triggerCallback_core n p w : core (_triggerCallback n p w) = core w.
Proof. unfold _triggerCallback. by destruct (registered _ _). Qed.

Lemma _triggerCallback_host n p w : host (_triggerCallback n p w) = host w.
Proof. unfold _triggerCallback. by destruct (registered _ _). Qed.

Lemma auth_data_truthy o d :
  auth_data o = Some d -> truthy (d_accessToken d) = true.
Proof.
  destruct o as [|[[] [d'|] m]]; simpl; try done.
  destruct (truthy (d_accessToken d')) eqn:Ht; [|done]. by intros [= <-].
Qed.

Lemma link_data_truthy o d :
  link_data o = Some d -> truthy (d_embedUrl d) = true.
Proof.
  destruct o as [|[[] [d'|] m]]; simpl; try done.
  destruct (truthy (d_embedUrl d')) eqn:Ht; [|done]. by intros [= <-].
Qed.

Lemma _triggerCallback_on n p w :
  registered (config w) n = true ->
  _triggerCallback n p w = emit (EvCallback n p) w.
Proof. unfold _triggerCallback. by intros ->. Qed.

Lemma _triggerCallback_off n p w :
  registered (config w) n = false -> _triggerCallback n p w = w.
Proof. unfold _triggerCallback. by intros ->. Qed.

(** The equations of [init]'s continuations. *)
Lemma init_catch_retries k e w :
  retryCount (core w) < maxRetries -> hasTimers (host w) = true ->
  init_catch k e w =
  suspend (TInit AwaitDelay k)
    (emit (EvDelay (1000 * Z.of_nat (S (retryCount (core w)))))
       (upd_core (set_retryCount (S (retryCount (core w))))
          (upd_core (set_isLoading false) w))).
Proof.
  intros Hrc Ht. unfold init_catch; proj.
  apply Nat.ltb_lt in Hrc as ->. by rewrite Ht.
Qed.

Lemma init_catch_retries_at_once k e w :
  retryCount (core w) < maxRetries -> hasTimers (host w) = false ->
  init_catch k e w =
  init k
    (emit (EvDelay (1000 * Z.of_nat (S (retryCount (core w)))))
       (upd_core (set_retryCount (S (retryCount (core w))))
          (upd_core (set_isLoading false) w))).
Proof.
  intros Hrc Ht. unfold init_catch; proj.
  apply Nat.ltb_lt in Hrc as ->. by rewrite Ht.
Qed.

Lemma init_catch_gives_up k e w :
  maxRetries <= retryCount (core w) ->
  init_catch k e w =
  settle k (Rejected e)
    (_handleError "Error en inicialización" e
       (upd_core (set_isLoading false) w)).
Proof.
  intros Hrc. unfold init_catch; proj.
  by apply Nat.ltb_ge in Hrc as ->.
Qed.
Lemma init_after_auth_rejects k o w :
  auth_data o = None ->
  exists e, _authenticate_resume o w = inl e /\
    init_after_auth k o w =
    init_catch k e (emit (EvResponse Authenticate o) w).
Proof.
  intros Ho.
  destruct (_authenticate_resume_rejects o w Ho) as [e He].
  exists e. split; [done|]. unfold init_after_auth.
  by rewrite (_authenticate_resume_host o w
                (emit (EvResponse Authenticate o) w) e eq_refl He).
Qed.

Lemma auth_accepted_schedules d w :
  _refreshTimeout (core w) = None -> hasTimers (host w) = true ->
  auth_accepted d w =
  upd_core (set_refreshTimeout (Some (nextTimer w)))
    (setTimeout ((expiresIn_or_default d - 60) * 1000)%Z
       (upd_core (set_accessToken (d_accessToken d)) w)).
Proof.
  intros Hrt Ht. unfold auth_accepted, _scheduleTokenRefresh; proj.
  by rewrite Ht, Hrt.
Qed.

Lemma init_after_auth_accepts k o d w :
  auth_data o = Some d ->
  init_after_auth k o w =
  suspend (TInit AwaitLink k)
    (emit (EvRequest GenerateLink (Bearer (d_accessToken d)))
       (auth_accepted d (emit (EvResponse Authenticate o) w))).
Proof.
  intros Ho. unfold init_after_auth.
  rewrite (_authenticate_resume_accepts _ d _ Ho).
  unfold _generateEmbedLink.
  destruct (auth_accepted_frame d (emit (EvResponse Authenticate o) w))
    as (_ & _ & _ & [rt ->] & _).
  cbn [accessToken set_refreshTimeout set_accessToken].
  by rewrite (auth_data_truthy _ _ Ho).
Qed.


Lemma init_after_link_accepts k o d w :
  link_data o = Some d ->
  init_after_link k o w =
  settle k (Resolved (VSession (accessToken (core w)) (d_embedUrl d)
                               (environment (host w))))
    (_triggerCallback OnSuccess
       (PSuccess (accessToken (core w)) (d_embedUrl d)
                 (environment (host w)))
       (upd_core (ready (d_embedUrl d))
                 (emit (EvResponse GenerateLink o) w))).
Proof.
  intros Ho. unfold init_after_link.
  rewrite (_generateEmbedLink_resume_accepts _ d _ Ho).
  cbv zeta. by rewrite _triggerCallback_core, _triggerCallback_host.
Qed.

(** The backend the host is awaiting against. *)
Section Awaiting.

Variable b : Backend.

Lemma drive_step_auth fuel na nl k l w :
  tasks w = TInit AwaitAuth k :: l ->
  drive (S fuel) b na nl w =
  drive fuel b (S na) nl (init_after_auth k (on_auth b na) (take_task 0 w)).
Proof. intros H; simpl. by rewrite H. Qed.

Lemma drive_step_link fuel na nl k l w :
  tasks w = TInit AwaitLink k :: l ->
  drive (S fuel) b na nl w =
  drive fuel b na (S nl) (init_after_link k (on_link b nl) (take_task 0 w)).
Proof. intros H; simpl. by rewrite H. Qed.

Lemma drive_step_delay fuel na nl k l w :
  tasks w = TInit AwaitDelay k :: l ->
  drive (S fuel) b na nl w =
  drive fuel b na nl (init_after_delay k (take_task 0 w)).
Proof. intros H; simpl. by rewrite H. Qed.

Lemma init_attempting k w :
  tasks w = [] -> isLoading (core w) = false ->
  isInitialized (core w) = false ->
  init k w = attempting k (retryCount (core w)) [auth_request w] w.
Proof.
  intros Ht Hl Hi.
  unfold init. rewrite Hl, Hi. unfold _authenticate.
  apply world_ext; proj; try done.
  by rewrite Ht.
Qed.

Lemma drive_attempt_retries fuel na nl k rc evs w :
  isInitialized (core w) = false -> rc < maxRetries ->
  auth_data (on_auth b na) = None ->
  drive (S (S fuel)) b na nl (attempting k rc evs w) =
  drive (if hasTimers (host w) then fuel else S fuel) b (S na) nl
        (attempting k (S rc)
           (evs ++ [EvResponse Authenticate (on_auth b na);
                    EvDelay (1000 * Z.of_nat (S rc)); auth_request w]) w).
Proof.
  intros Hi Hrc Hb.
  rewrite (drive_step_auth _ _ _ k []) by done.
  destruct (init_after_auth_rejects k _ (take_task 0 (attempting k rc evs w))
              Hb) as (e & _ & ->).
  destruct (hasTimers (host w)) eqn:Ht.
  - rewrite init_catch_retries by done.
    rewrite (drive_step_delay _ _ _ k []) by done.
    unfold init_after_delay. rewrite init_attempting by done.
    f_equal. world_eq.
  - rewrite init_catch_retries_at_once by done.
    rewrite init_attempting by done.
    f_equal. world_eq.
Qed.

Lemma drive_attempt_gives_up fuel na nl rc evs w e :
  maxRetries <= rc ->
  _authenticate_resume (on_auth b na) w = inl e ->
  drive (S fuel) b na nl (attempting FromHost rc evs w) =
  mkWorld (host w) (config w)
          (set_isLoading false (set_retryCount rc (core w))) []
          (timers w) (nextTimer w)
          (trace w ++ evs ++
           [EvResponse Authenticate (on_auth b na)] ++
           (if onError (config w)
            then [EvCallback OnError
                    (PError "Error en inicialización" (error_message e) e
                       (environment (host w))
                       (mkStatus (isInitialized (core w)) false
                          (truthy (accessToken (core w)))
                          (truthy (embedUrl (core w)))
                          (environment (host w)) (config_mode (config w))
                          rc))]
            else []) ++
           [EvSettled CInit (Rejected e)]).
Proof.
  intros Hrc He.
  rewrite (drive_step_auth _ _ _ FromHost []) by done.
  unfold init_after_auth.
  match goal with |- context [_authenticate_resume ?o ?W] =>
    rewrite (_authenticate_resume_host o w W e eq_refl He) end.
  rewrite init_catch_gives_up by done.
  unfold settle, _handleError.
  destruct (onError (config w)) eqn:Hon.
  - rewrite _triggerCallback_on by done.
    rewrite drive_done by done. world_eq.
  - rewrite _triggerCallback_off by done.
    rewrite drive_done by done. world_eq.
Qed.

Lemma drive_attempt_succeeds fuel na nl rc evs w d dl :
  hasTimers (host w) = true -> _refreshTimeout (core w) = None ->
  auth_data (on_auth b na) = Some d ->
  link_data (on_link b nl) = Some dl ->
  drive (S (S fuel)) b na nl (attempting FromHost rc evs w) =
  mkWorld (host w) (config w)
          (mkCore (d_accessToken d) (d_embedUrl dl) true false 0
                  (Some (nextTimer w)))
          [] ({[nextTimer w]} ∪ timers w) (S (nextTimer w))
          (trace w ++ evs ++
           [EvResponse Authenticate (on_auth b na);
            EvSetTimeout (nextTimer w)
                         ((expiresIn_or_default d - 60) * 1000)%Z;
            EvRequest GenerateLink (Bearer (d_accessToken d));
            EvResponse GenerateLink (on_link b nl)] ++
           (if onSuccess (config w)
            then [EvCallback OnSuccess
                    (PSuccess (d_accessToken d) (d_embedUrl dl)
                              (environment (host w)))]
            else []) ++
           [EvSettled CInit
              (Resolved (VSession (d_accessToken d) (d_embedUrl dl)
                                  (environment (host w))))]).
Proof.
  intros Ht Hrt Ha Hl.
  rewrite (drive_step_auth _ _ _ FromHost []) by done.
  rewrite (init_after_auth_accepts _ _ d) by done.
  rewrite auth_accepted_schedules by (proj; done).
  rewrite (drive_step_link _ _ _ FromHost []) by done.
  rewrite (init_after_link_accepts _ _ dl) by done.
  unfold settle.
  destruct (onSuccess (config w)) eqn:Hon.
  - rewrite _triggerCallback_on by done.
    rewrite drive_done by done. world_eq.
  - rewrite _triggerCallback_off by done.
    rewrite drive_done by done. world_eq.
Qed.

End Awaiting.

(** ** Timers and the retry counter *)

Lemma only_renders_timer_view w w' :
  only_renders w w' -> timer_view w' = timer_view w.
Proof. by intros (l & evs & -> & _). Qed.

Lemma init_timer_view k w :
  timer_view (init k w) = timer_view w /\
  retryCount (core (init k w)) = retryCount (core w).
Proof.
  destruct (init_cases k w) as [H | [_ ->]]; [|done].
  destruct (only_renders_round_trips _ _ H) as [-> _].
  by rewrite (only_renders_timer_view _ _ H).
Qed.

Lemma init_catch_timer_view k e w :
  timer_view (init_catch k e w) = timer_view w /\
  (retryCount (core (init_catch k e w)) = retryCount (core w) \/
   retryCount (core (init_catch k e w)) = S (retryCount (core w))).
Proof.
  destruct (init_catch_cases k e w) as (n & Hn & Hc); simpl in Hc.
  destruct Hc as [[evs ->] | [Hr | [evs ->]]]; simpl.
  - split; [done|]. destruct Hn as [-> | ->]; auto.
  - destruct (only_renders_round_trips _ _ Hr) as [-> _].
    rewrite (only_renders_timer_view _ _ Hr). simpl.
    split; [done|]. destruct Hn as [-> | ->]; auto.
  - split; [done|]. destruct Hn as [-> | ->]; auto.
Qed.

Lemma scheduled_delays_app l1 l2 :
  scheduled_delays (l1 ++ l2) = scheduled_delays l1 ++ scheduled_delays l2.
Proof. apply omap_app. Qed.

(** [_scheduleTokenRefresh] where timers exist: one timer more, with the
    delay [(expiresIn - 60) * 1000], and the previous one cancelled. *)
Lemma _scheduleTokenRefresh_schedules expiresIn w :
  hasTimers (host w) = true ->
  let w' := _scheduleTokenRefresh expiresIn w in
  nextTimer w' = S (nextTimer w) /\
  nextTimer w ∈ timers w' /\
  _refreshTimeout (core w') = Some (nextTimer w) /\
  scheduled_delays (trace w') =
    scheduled_delays (trace w) ++ [((expiresIn - 60) * 1000)%Z].
Proof.
  intros Ht. unfold _scheduleTokenRefresh. rewrite Ht; simpl.
  destruct (_refreshTimeout (core w)); simpl;
    rewrite !scheduled_delays_app; simpl; rewrite ?app_nil_r;
    split_and!; try done; set_solver.
Qed.

Lemma auth_accepted_schedules_timer d w :
  hasTimers (host w) = true ->
  let w' := auth_accepted d w in
  nextTimer w' = S (nextTimer w) /\
  nextTimer w ∈ timers w' /\
  _refreshTimeout (core w') = Some (nextTimer w) /\
  scheduled_delays (trace w') =
    scheduled_delays (trace w) ++
    [((expiresIn_or_default d - 60) * 1000)%Z] /\
  isInitialized (core w') = isInitialized (core w) /\
  embedUrl (core w') = embedUrl (core w) /\
  retryCount (core w') = retryCount (core w).
Proof.
  intros Ht. unfold auth_accepted; simpl. rewrite Ht.
  destruct (_scheduleTokenRefresh_schedules (expiresIn_or_default d)
              (upd_core (set_accessToken (d_accessToken d)) w) Ht)
    as (H1 & H2 & H3 & H4).
  destruct (_scheduleTokenRefresh_frame (expiresIn_or_default d)
              (upd_core (set_accessToken (d_accessToken d)) w))
    as (_ & _ & _ & [rt Hc] & _).
  split_and!; try done; by rewrite Hc.
Qed.


(** ** Worlds reached by a list of turns *)

Lemma reachable_front allowed w a w1 w' :
  allowed w a -> step a w = Some w1 -> reachable allowed w1 w' ->
  reachable allowed w w'.
Proof.
  intros Ha Hs. induction 1 as [|v b v' _ IH Hb Hv].
  - eapply reach_step; [apply reach_here | done..].
  - eapply reach_step; [exact IH | done..].
Defined.

Lemma run_reachable allowed l w w' :
  follows allowed l w -> run l w = Some w' -> reachable allowed w w'.
Proof.
  revert w. induction l as [|a l IH]; intros w; simpl.
  - intros _ [= <-]. apply reach_here.
  - intros [Ha Hf]. destruct (step a w) as [w1|] eqn:Hs; [|done].
    intros Hr. eapply reachable_front; [done..|]. by apply IH.
Defined.

(** ** C1: retries are exhausted after four attempts *)

(** C1. On a freshly constructed manager (no auto-initialisation, an
    [onError] observer registered) and a backend on which every
    authentication fails, awaiting [init()] makes exactly
    [maxRetries + 1 = 4] attempts, each starting with the authentication
    request, then rejects with the error of the last attempt; [onError] is
    called exactly once, with the context, the error's message and the
    status snapshot. *)
Theorem init_exhausts_retries h c w b :
  construct h c = inr w -> config_autoInit h c = false -> onError c = true ->
  (forall n, auth_data (on_auth b n) = None) ->
  exists e,
    _authenticate_resume (on_auth b maxRetries) w = inl e /\
    forall fuel, 2 * maxRetries + 1 <= fuel ->
      let w' := drive fuel b 0 0 (init FromHost w) in
      tasks w' = [] /\
      trace w' =
        [EvRequest Authenticate (XApiKey (apiKey c));
         EvResponse Authenticate (on_auth b 0); EvDelay 1000;
         EvRequest Authenticate (XApiKey (apiKey c));
         EvResponse Authenticate (on_auth b 1); EvDelay 2000;
         EvRequest Authenticate (XApiKey (apiKey c));
         EvResponse Authenticate (on_auth b 2); EvDelay 3000;
         EvRequest Authenticate (XApiKey (apiKey c));
         EvResponse Authenticate (on_auth b 3);
         EvCallback OnError
           (PError "Error en inicialización" (error_message e) e
              (environment h)
              (mkStatus false false false false (environment h)
                        (config_mode c) maxRetries));
         EvSettled CInit (Rejected e)] /\
      length (requests Authenticate (trace w')) = maxRetries + 1 /\
      length (callbacks OnError (trace w')) = 1.
Proof.
  intros Hc Hm He Hb.
  rewrite (construct_manual _ _ _ Hc Hm).
  set (w0 := mkWorld h c fresh_core [] ∅ 1 []).
  destruct (_authenticate_resume_rejects (on_auth b maxRetries) w0
              (Hb maxRetries)) as [e Hrej].
  exists e. split; [done|].
  intros fuel Hf.
  assert (exists f, fuel = 7 + f) as [f ->]
    by (exists (fuel - 7); unfold maxRetries in Hf; lia).
  assert (drive (7 + f) b 0 0 (init FromHost w0) =
          mkWorld h c (set_isLoading false (set_retryCount 3 fresh_core)) []
            ∅ 1
            ([] ++ [auth_request w0;
               EvResponse Authenticate (on_auth b 0); EvDelay 1000;
               auth_request w0;
               EvResponse Authenticate (on_auth b 1); EvDelay 2000;
               auth_request w0;
               EvResponse Authenticate (on_auth b 2); EvDelay 3000;
               auth_request w0] ++
             [EvResponse Authenticate (on_auth b 3)] ++
             [EvCallback OnError
                (PError "Error en inicialización" (error_message e) e
                   (environment h)
                   (mkStatus false false false false (environment h)
                             (config_mode c) 3))] ++
             [EvSettled CInit (Rejected e)])) as ->.
  { rewrite init_attempting by done.
    change (retryCount (core w0)) with 0.
    assert (forall n, n < 3 -> n < maxRetries) as Hlt by done.
    replace (7 + f) with (S (S (5 + f))) by lia.
    rewrite drive_attempt_retries by (done || (apply Hlt; lia)).
    destruct (hasTimers (host w0)) eqn:Ht.
    - replace (5 + f) with (S (S (3 + f))) by lia.
      rewrite drive_attempt_retries by (done || (apply Hlt; lia)).
      rewrite Ht.
      replace (3 + f) with (S (S (1 + f))) by lia.
      rewrite drive_attempt_retries by (done || (apply Hlt; lia)).
      rewrite Ht.
      rewrite (drive_attempt_gives_up _ _ _ _ _ _ _ e) by done.
      change (onError (config w0)) with (onError c). by rewrite He.
    - replace (S (5 + f)) with (S (S (4 + f))) by lia.
      rewrite drive_attempt_retries by (done || (apply Hlt; lia)).
      rewrite Ht.
      replace (S (4 + f)) with (S (S (3 + f))) by lia.
      rewrite drive_attempt_retries by (done || (apply Hlt; lia)).
      rewrite Ht.
      rewrite (drive_attempt_gives_up _ _ _ _ _ _ _ e) by done.
      change (onError (config w0)) with (onError c). by rewrite He. }
  cbn [tasks trace]. done.
Qed.

Lemma init_exhausts_retries_witness :
  exists e,
    let w' := drive 7 failing_backend 0 0 (init FromHost fresh_world) in
    tasks w' = [] /\
    length (requests Authenticate (trace w')) = 4 /\
    length (callbacks OnError (trace w')) = 1 /\
    last (trace w') = Some (EvSettled CInit (Rejected e)).
Proof.
  destruct (init_exhausts_retries node_host demo_config fresh_world
              failing_backend eq_refl eq_refl eq_refl (fun _ => eq_refl))
    as (e & _ & H).
  exists e. destruct (H 7 (le_n 7)) as (H1 & H2 & H3 & H4).
  split; [exact H1|]. split; [exact H3|]. split; [exact H4|].
  rewrite H2. reflexivity.
Defined.

(** ** C2: success on the third attempt *)

(** C2. On a freshly constructed manager whose host has timers, with a
    backend whose first two authentications fail and whose third
    authentication and link generation succeed, awaiting [init()] runs
    three attempts, each from the authentication request on, waits 1000 ms
    and then 2000 ms between them, and resolves with the session. *)
Theorem init_succeeds_on_third_attempt h c w b d dl :
  construct h c = inr w -> config_autoInit h c = false ->
  hasTimers h = true ->
  auth_data (on_auth b 0) = None -> auth_data (on_auth b 1) = None ->
  auth_data (on_auth b 2) = Some d -> link_data (on_link b 0) = Some dl ->
  forall fuel, 6 <= fuel ->
    let w' := drive fuel b 0 0 (init FromHost w) in
    tasks w' = [] /\
    core w' = mkCore (d_accessToken d) (d_embedUrl dl) true false 0 (Some 1) /\
    trace w' =
      [EvRequest Authenticate (XApiKey (apiKey c));
       EvResponse Authenticate (on_auth b 0); EvDelay 1000;
       EvRequest Authenticate (XApiKey (apiKey c));
       EvResponse Authenticate (on_auth b 1); EvDelay 2000;
       EvRequest Authenticate (XApiKey (apiKey c));
       EvResponse Authenticate (on_auth b 2);
       EvSetTimeout 1 ((expiresIn_or_default d - 60) * 1000)%Z;
       EvRequest GenerateLink (Bearer (d_accessToken d));
       EvResponse GenerateLink (on_link b 0)] ++
      (if onSuccess c
       then [EvCallback OnSuccess
               (PSuccess (d_accessToken d) (d_embedUrl dl) (environment h))]
       else []) ++
      [EvSettled CInit
         (Resolved (VSession (d_accessToken d) (d_embedUrl dl)
                             (environment h)))] /\
    backoff_delays (trace w') = [1000%Z; 2000%Z] /\
    length (requests Authenticate (trace w')) = 3 /\
    length (requests GenerateLink (trace w')) = 1.
Proof.
  intros Hc Hm Ht H0 H1 H2 Hl fuel Hf.
  rewrite (construct_manual _ _ _ Hc Hm).
  set (w0 := mkWorld h c fresh_core [] ∅ 1 []).
  assert (exists f, fuel = 6 + f) as [f ->] by (exists (fuel - 6); lia).
  assert (forall n, n < 3 -> n < maxRetries) as Hlt by done.
  rewrite init_attempting by done.
  change (retryCount (core w0)) with 0.
  replace (6 + f) with (S (S (4 + f))) by lia.
  rewrite drive_attempt_retries by (done || (apply Hlt; lia)).
  change (hasTimers (host w0)) with (hasTimers h). rewrite Ht.
  replace (4 + f) with (S (S (2 + f))) by lia.
  rewrite drive_attempt_retries by (done || (apply Hlt; lia)).
  change (hasTimers (host w0)) with (hasTimers h). rewrite Ht.
  replace (2 + f) with (S (S f)) by lia.
  rewrite (drive_attempt_succeeds _ _ _ _ _ _ _ d dl) by done.
  cbn [tasks core trace host config nextTimer w0 environment auth_request].
  split_and!; try done; by destruct (onSuccess c).
Qed.

Lemma init_succeeds_on_third_attempt_witness :
  let w' := drive 6 flaky_backend 0 0 (init FromHost fresh_world) in
  tasks w' = [] /\
  getAccessToken (core w') = inr (Some "tok-3") /\
  backoff_delays (trace w') = [1000%Z; 2000%Z] /\
  length (requests Authenticate (trace w')) = 3.
Proof.
  destruct (init_succeeds_on_third_attempt node_host demo_config fresh_world
              flaky_backend
              (mkData (Some "tok-3") (Some 1800%Z) None)
              (mkData None None (Some "https://pay.example/embed/1"))
              eq_refl eq_refl eq_refl eq_refl eq_refl eq_refl eq_refl
              6 (le_n 6)) as (H1 & H2 & _ & H4 & H5 & _).
  split; [exact H1|]. split; [|split; [exact H4 | exact H5]].
  rewrite H2. reflexivity.
Defined.

(** ** C3: the session invariant and the race that breaks it *)

(** A [refresh()] issued while [init] awaits the link-generation response
    clears the token; the response then stores the URL and marks the
    manager initialised, with no token. *)
Lemma session_invariant_broken_by_refresh :
  exists w,
    construct node_host demo_config = inr fresh_world /\
    run [CallInit; NetResponse 0 (auth_ok "tok-1" None); CallRefresh;
         NetResponse 0 (link_ok "https://pay.example/embed/1")]
        fresh_world = Some w /\
    embedUrl (core w) = Some "https://pay.example/embed/1" /\
    isInitialized (core w) = true /\
    accessToken (core w) = None.
Proof. eexists. split_and!; [reflexivity | vm_compute; reflexivity | done..]. Qed.

Lemma session_invariant_outside_link_generation_witness :
  (embedUrl (core ready_world) <> None ->
   accessToken (core ready_world) <> None) /\
  (isInitialized (core ready_world) = true ->
   accessToken (core ready_world) <> None /\
   embedUrl (core ready_world) <> None).
Proof.
  apply (session_invariant_outside_link_generation node_host demo_config
           fresh_world ready_world eq_refl).
  apply (run_reachable _
           [CallInit; NetResponse 0 (auth_ok "tok-old" None);
            NetResponse 0 (link_ok "https://pay.example/embed/old")]).
  - vm_compute. repeat split; discriminate.
  - vm_compute. reflexivity.
Defined.

(** ** C4: the delay of the refresh timer *)

(** An expiry hint of 30 seconds schedules the refresh 30 seconds in the
    past. *)
Lemma refresh_delay_negative_for_short_expiry :
  exists w,
    run [CallInit; NetResponse 0 (auth_ok "tok-1" (Some 30%Z))] fresh_world
      = Some w /\
    scheduled_delays (trace w) = [(-30000)%Z] /\
    (-30000 < 0)%Z /\
    (-30000)%Z <> (Z.max 0 (30 - 60) * 1000)%Z.
Proof.
  eexists. split_and!; [vm_compute; reflexivity | done..].
Qed.

(** C4, as the code has it.  When an authentication response is accepted
    (on a host with timers), exactly one refresh timer is scheduled, with
    the delay [(expiresIn - 60) * 1000] milliseconds, where [expiresIn] is
    the response's hint, or 1800 when the hint is absent or 0.  Nothing is
    clamped: the delay is non-negative exactly when [expiresIn >= 60]. *)
Theorem refresh_delay_is_expiry_minus_60 i k o d w w' :
  hasTimers (host w) = true ->
  tasks w !! i = Some (TInit AwaitAuth k) ->
  auth_data o = Some d ->
  step (NetResponse i o) w = Some w' ->
  scheduled_delays (trace w') =
    scheduled_delays (trace w) ++ [((expiresIn_or_default d - 60) * 1000)%Z] /\
  ((0 <= (expiresIn_or_default d - 60) * 1000)%Z
   <-> (60 <= expiresIn_or_default d)%Z).
Proof.
  intros Ht Hi Ho Hs. simpl in Hs. rewrite Hi in Hs. injection Hs as <-.
  split; [|lia].
  rewrite (init_after_auth_accepts _ _ d) by done.
  destruct (auth_accepted_schedules_timer d
              (emit (EvResponse Authenticate o) (take_task i w)) Ht)
    as (_ & _ & _ & H4 & _).
  cbn [trace suspend emit]. rewrite scheduled_delays_app, H4.
  cbn [trace emit take_task set_tasks]. rewrite scheduled_delays_app.
  simpl. by rewrite !app_nil_r.
Qed.

Lemma refresh_delay_is_expiry_minus_60_witness :
  scheduled_delays
    (trace (init_after_auth FromHost (auth_ok "tok-1" (Some 30%Z))
              (take_task 0 loading_world)))
  = [((30 - 60) * 1000)%Z].
Proof.
  destruct (refresh_delay_is_expiry_minus_60 0 FromHost
              (auth_ok "tok-1" (Some 30%Z))
              (mkData (Some "tok-1") (Some 30%Z) None)
              loading_world
              (init_after_auth FromHost (auth_ok "tok-1" (Some 30%Z))
                 (take_task 0 loading_world))
              eq_refl eq_refl eq_refl eq_refl) as [H _].
  exact H.
Defined.

(** ** C5: when the refresh timer is scheduled *)


(** Nor is the manager always uninitialised when the timer is scheduled.
    The race of C3 leaves it initialised without a token; the next
    [init()] then authenticates again, and the timer is scheduled with
    [isInitialized] set. *)
Lemma refresh_timer_scheduled_while_initialised :
  exists w w',
    run [CallInit; NetResponse 0 (auth_ok "tok-1" None); CallRefresh;
         NetResponse 0 (link_ok "https://pay.example/embed/1"); CallInit]
        fresh_world = Some w /\
    isInitialized (core w) = true /\
    step (NetResponse 0 (auth_ok "tok-2" None)) w = Some w' /\
    elements (timers w') = [2] /\
    isInitialized (core w') = true.
Proof.
  eexists _, _.
  split; [vm_compute; reflexivity|]. split; [reflexivity|].
  split; [vm_compute; reflexivity|]. split; reflexivity.
Qed.



(** ** C6: the re-entrancy guard at work *)

Lemma at_most_one_init_in_flight_witness :
  exists w,
    run [CallInit; CallInit; CallRefresh; CallRender OtherTarget api_only;
         NetResponse 0 net_down; CallInit]
        fresh_world = Some w /\
    round_trips w <= 1 /\
    (round_trips w = 1 <-> isLoading (core w) = true).
Proof.
  eexists. split; [vm_compute; reflexivity|].
  apply (at_most_one_init_in_flight node_host demo_config fresh_world);
    [reflexivity|].
  apply (run_reachable _
           [CallInit; CallInit; CallRefresh; CallRender OtherTarget api_only;
            NetResponse 0 net_down; CallInit]).
  - vm_compute. repeat split; discriminate.
  - vm_compute. reflexivity.
Defined.

(** With [destroy()] among the turns the guard can be defeated:
    [destroy()] lowers the loading flag under a round trip in flight, and
    the next [init()] starts a second one. *)
Lemma destroy_defeats_the_guard :
  exists w,
    run [CallInit; CallDestroy; CallInit] fresh_world = Some w /\
    round_trips w = 2.
Proof. eexists. split; [vm_compute; reflexivity | done]. Qed.

(** During a backoff the loading flag is down: another [init()] may start
    its own round trip, and the retry that wakes up afterwards finds the
    flag up and resolves with [undefined].  One round trip is in flight
    throughout. *)
Lemma backoff_admits_another_init :
  exists w,
    run [CallInit; NetResponse 0 net_down; CallInit; DelayElapsed 0]
        fresh_world = Some w /\
    tasks w = [TInit AwaitAuth FromHost] /\
    round_trips w = 1 /\
    last (trace w) = Some (EvSettled CInit (Resolved VUndefined)).
Proof. eexists. split_and!; [vm_compute; reflexivity | done..]. Qed.

(** ** C7: [init()] on a loading or ready manager *)

(** C7. When a previous [init] is still loading, or the manager is
    initialised and holds an access token, [init()] resolves at once with
    [undefined]: no request is sent, nothing is suspended or scheduled,
    and no field of the manager changes. *)
Theorem init_reentry_is_noop w :
  isLoading (core w) = true \/
  (isInitialized (core w) = true /\ truthy (accessToken (core w)) = true) ->
  exists w',
    step CallInit w = Some w' /\
    core w' = core w /\ tasks w' = tasks w /\
    timers w' = timers w /\ nextTimer w' = nextTimer w /\
    trace w' = trace w ++ [EvSettled CInit (Resolved VUndefined)] /\
    requests Authenticate (trace w') = requests Authenticate (trace w) /\
    requests GenerateLink (trace w') = requests GenerateLink (trace w).
Proof.
  intros H. exists (emit (EvSettled CInit (Resolved VUndefined)) w).
  split.
  - simpl. unfold init.
    destruct H as [-> | [-> ->]]; [done|]. by destruct (isLoading (core w)).
  - split_and!; try done;
      unfold requests; cbn [trace emit]; rewrite omap_app; simpl;
      by rewrite app_nil_r.
Qed.

Lemma init_reentry_is_noop_witness :
  exists w',
    step CallInit loading_world = Some w' /\
    core w' = core loading_world /\ tasks w' = tasks loading_world.
Proof.
  destruct (init_reentry_is_noop loading_world (or_introl eq_refl))
    as (w' & H1 & H2 & H3 & _).
  exists w'. split; [exact H1|]. split; [exact H2 | exact H3].
Defined.

(** ** C10: [init()] does not wait for the [init] in flight *)

(** C10. While an [init] is loading, another [init()] resolves in the
    same turn with [undefined] and leaves the first one suspended;
    [render], which awaits that [init()] when the manager is not
    initialised, goes on to dispatch in the same turn, and with the token
    and the URL still null an api-only render resolves with both null. *)
Theorem init_does_not_wait_for_init_in_flight w target options :
  isLoading (core w) = true ->
  isInitialized (core w) = false ->
  step CallInit w = Some (emit (EvSettled CInit (Resolved VUndefined)) w) /\
  tasks (emit (EvSettled CInit (Resolved VUndefined)) w) = tasks w /\
  step (CallRender target options) w
    = Some (render_dispatch target options w) /\
  (accessToken (core w) = None -> embedUrl (core w) = None ->
   or_else (o_mode options) (config_mode (config w)) = "api-only" ->
   let r := RApi None None (renderConfig options) (environment (host w)) in
   render_dispatch target options w
   = emit (EvSettled CRender (Resolved (VRender r)))
          (_triggerCallback OnLoad (PLoad r) w) /\
   tasks (render_dispatch target options w) = tasks w).
Proof.
  intros Hl Hi. split_and!.
  - simpl. unfold init. by rewrite Hl.
  - done.
  - simpl. unfold render, init. by rewrite Hi, Hl.
  - intros Ht Hu Hm. unfold render_dispatch, _returnApiData.
    rewrite Hm, Ht, Hu; simpl. split; [done|].
    unfold _triggerCallback. by destruct (registered _ _).
Qed.

Lemma init_does_not_wait_for_init_in_flight_witness :
  step CallInit loading_world
    = Some (emit (EvSettled CInit (Resolved VUndefined)) loading_world) /\
  exists w',
    step (CallRender OtherTarget api_only) loading_world = Some w' /\
    tasks w' = [TInit AwaitAuth FromHost] /\
    last (trace w')
    = Some (EvSettled CRender
              (Resolved (VRender (RApi None None (renderConfig api_only)
                                       Node)))).
Proof.
  destruct (init_does_not_wait_for_init_in_flight loading_world OtherTarget
              api_only eq_refl eq_refl) as (H1 & _ & H3 & H4).
  split; [exact H1|].
  exists (render_dispatch OtherTarget api_only loading_world).
  split; [exact H3|].
  destruct (H4 eq_refl eq_refl eq_refl) as [H5 H6].
  split; [rewrite H6; reflexivity|].
  rewrite H5. reflexivity.
Defined.

(** ** C8: [refresh()] and stale tokens *)

(** C8. [refresh()] clears the token, the URL and the retry counter and
    marks the manager uninitialised before it runs [init()]: when no
    [init] is loading, the authentication request of that [init()] is
    sent from the cleared state.  From then on, whatever token
    [getAccessToken()] returns was delivered by an authentication response
    that arrived after the [refresh()] call; the token held before is
    never returned again. *)
Theorem refresh_never_returns_stale_token w w1 w2 t :
  step CallRefresh w = Some w1 ->
  reachable any_turn w1 w2 ->
  (accessToken (core w1) = None /\ embedUrl (core w1) = None /\
   isInitialized (core w1) = false /\ retryCount (core w1) = 0) /\
  (isLoading (core w) = false ->
   tasks w1 = tasks w ++ [TInit AwaitAuth (FromRefresh false)] /\
   trace w1 = trace w ++ [auth_request w]) /\
  (getAccessToken (core w2) = inr (Some t) ->
   delivered t (drop (length (trace w)) (trace w2))).
Proof.
  intros Hs Hr. simpl in Hs. injection Hs as <-.
  set (w0 := upd_core (set_retryCount 0)
               (upd_core (set_embedUrl None)
                  (upd_core (set_accessToken None)
                     (upd_core (set_isInitialized false) w)))).
  change (refresh false w) with (init (FromRefresh false) w0) in *.
  destruct (init_keeps_token (FromRefresh false) w0) as [Ht1 [e1 He1]].
  split_and!.
  - by rewrite Ht1.
  - pose proof (init_view (FromRefresh false) w0) as [= _ Hu _ _].
    by rewrite Hu.
  - pose proof (init_view (FromRefresh false) w0) as [= _ _ Hi _].
    by rewrite Hi.
  - by destruct (init_timer_view (FromRefresh false) w0) as [_ ->].
  - intros Hl. unfold init. subst w0; simpl. rewrite Hl; simpl.
    unfold auth_request. done.
  - intros Hg. unfold getAccessToken in Hg.
    destruct (isInitialized (core w2)); [|done]. injection Hg as Hg.
    destruct (reachable_token _ _ Hr) as (e2 & He2 & Hc).
    rewrite He2, He1. change (trace w0) with (trace w).
    rewrite <- app_assoc, drop_app_length.
    apply delivered_app_r.
    assert (accessToken (core (init (FromRefresh false) w0)) = None) as Hn
      by (by rewrite Ht1).
    destruct Hc as [Hc | [Hc | (t' & Hc & Hd)]]; [congruence.. |].
    rewrite Hg in Hc. by injection Hc as ->.
Qed.

Lemma refresh_never_returns_stale_token_witness :
  getAccessToken (core ready_world) = inr (Some "tok-old") /\
  getAccessToken (core refreshed_world) = inr (Some "tok-new") /\
  delivered "tok-new"
    (drop (length (trace ready_world)) (trace refreshed_world)).
Proof.
  split; [vm_compute; reflexivity|]. split; [vm_compute; reflexivity|].
  refine (proj2 (proj2 (refresh_never_returns_stale_token ready_world
                          (refresh false ready_world) refreshed_world
                          "tok-new" eq_refl _)) _).
  - apply (run_reachable _
             [NetResponse 0 (auth_ok "tok-new" None);
              NetResponse 0 (link_ok "https://pay.example/embed/new")]).
    + vm_compute. repeat split.
    + vm_compute. reflexivity.
  - vm_compute. reflexivity.
Defined.

(** ** C9: [destroy()] *)

(** What [destroy()] does reset, and the timer it cancels. *)
Lemma destroy_clears w :
  let w' := destroy w in
  accessToken (core w') = None /\ embedUrl (core w') = None /\
  isInitialized (core w') = false /\ isLoading (core w') = false /\
  (hasTimers (host w) = true ->
   _refreshTimeout (core w') = None /\
   forall id, _refreshTimeout (core w) = Some id -> id ∉ timers w').
Proof.
  unfold destroy; simpl.
  destruct (_refreshTimeout (core w)) as [id|] eqn:Hr; simpl.
  - destruct (hasTimers (host w)); simpl.
    + do 4 (split; [done|]). intros _. split; [done|].
      intros id' Hid. injection Hid as Hid. subst id'.
      intros [_ Hn]%elem_of_difference. apply Hn. by apply elem_of_singleton.
    + do 4 (split; [done|]). done.
  - do 4 (split; [done|]). intros _. split; [done|]. by intros id'.
Qed.

Lemma destroy_idempotent w : destroy (destroy w) = destroy w.
Proof.
  unfold destroy; simpl.
  destruct (_refreshTimeout (core w)) as [id|] eqn:Hr; simpl.
  - destruct (hasTimers (host w)) eqn:Ht; simpl; [done|].
    by rewrite Hr, Ht.
  - by rewrite Hr.
Qed.

Lemma destroy_retryCount w :
  retryCount (core (destroy w)) = retryCount (core w).
Proof.
  unfold destroy; simpl.
  by destruct (_refreshTimeout (core w)), (hasTimers (host w)).
Qed.

Lemma one_pending_timer_view w w' :
  timer_view w' = timer_view w -> one_pending_timer w -> one_pending_timer w'.
Proof. unfold timer_view, one_pending_timer. by intros [= -> _ ->]. Qed.

Lemma _scheduleTokenRefresh_one_pending_timer expiresIn w :
  one_pending_timer w -> one_pending_timer (_scheduleTokenRefresh expiresIn w).
Proof.
  unfold one_pending_timer, _scheduleTokenRefresh. intros Hw.
  destruct (hasTimers (host w)); simpl; [|done].
  destruct (_refreshTimeout (core w)) as [old|] eqn:Hr; simpl.
  - intros id [Hid|Hid]%elem_of_union.
    + apply elem_of_singleton in Hid. by subst.
    + apply elem_of_difference in Hid as [Hid Hn].
      apply Hw in Hid. injection Hid as ->.
      exfalso. apply Hn. by apply elem_of_singleton.
  - intros id [Hid|Hid]%elem_of_union.
    + apply elem_of_singleton in Hid. by subst.
    + by apply Hw in Hid.
Qed.

Lemma step_one_pending_timer a w w' :
  one_pending_timer w -> step a w = Some w' -> one_pending_timer w'.
Proof.
  intros Hw Hs. destruct a; simpl in Hs.
  - injection Hs as <-.
    eapply one_pending_timer_view; [apply (proj1 (init_timer_view _ _)) | done].
  - injection Hs as <-. unfold refresh.
    eapply one_pending_timer_view; [apply (proj1 (init_timer_view _ _)) | done].
  - injection Hs as <-. unfold destroy, one_pending_timer in *; simpl.
    destruct (_refreshTimeout (core w)) as [old|] eqn:Hr; simpl.
    + destruct (hasTimers (host w)); simpl.
      * intros id [Hid Hn]%elem_of_difference. apply Hw in Hid.
        injection Hid as ->.
        exfalso. apply Hn. by apply elem_of_singleton.
      * intros id Hid. rewrite Hr. by apply Hw.
    + intros id Hid. rewrite Hr. by apply Hw.
  - injection Hs as <-. unfold render. destruct (negb _).
    + eapply one_pending_timer_view; [apply (proj1 (init_timer_view _ _)) | done].
    + eapply one_pending_timer_view; [|done].
      apply only_renders_timer_view, render_dispatch_only_renders.
  - destruct (tasks w !! i) as [[[] k|]|] eqn:Hi; try done;
      injection Hs as <-.
    + destruct (auth_data o) as [d|] eqn:Hd.
      * rewrite (init_after_auth_accepts k o d _ Hd).
        apply (one_pending_timer_view
                 (auth_accepted d
                    (emit (EvResponse Authenticate o) (take_task i w))));
          [done|].
        unfold auth_accepted; simpl.
        destruct (hasTimers (host w)); [|exact Hw].
        by apply _scheduleTokenRefresh_one_pending_timer.
      * destruct (init_after_auth_rejects k o (take_task i w) Hd)
          as (e & _ & ->).
        eapply one_pending_timer_view;
          [apply (proj1 (init_catch_timer_view _ _ _)) | done].
    + unfold init_after_link.
      destruct (_generateEmbedLink_resume _ _) as [e|w1] eqn:Hr.
      * eapply one_pending_timer_view; [apply (proj1 (init_catch_timer_view _ _ _)) | done].
      * apply _generateEmbedLink_resume_inr in Hr as (d & Hd & ->).
        eapply one_pending_timer_view; [|exact Hw].
        etrans; [apply only_renders_timer_view|].
        { eapply only_renders_trans;
            [apply only_renders_callback | apply settle_only_renders]. }
        done.
  - destruct (tasks w !! i) as [[[] k|]|] eqn:Hi; try done.
    injection Hs as <-.
    eapply one_pending_timer_view; [apply (proj1 (init_timer_view _ _)) | done].
  - destruct (bool_decide _); [|done]. injection Hs as <-. unfold refresh.
    eapply one_pending_timer_view; [apply (proj1 (init_timer_view _ _))|].
    intros id' [Hid _]%elem_of_difference. by apply Hw.
  - destruct (tasks w !! i) as [[|cfg]|] eqn:Hi; try done.
    injection Hs as <-. eapply one_pending_timer_view; [|exact Hw].
    apply (only_renders_timer_view (take_task i w)),
      iframe_loaded_only_renders.
  - destruct (tasks w !! i) as [[|cfg]|] eqn:Hi; try done.
    injection Hs as <-. eapply one_pending_timer_view; [|exact Hw].
    apply (only_renders_timer_view (take_task i w)),
      iframe_failed_only_renders.
Qed.

(** Scheduling a refresh replaces the pending one: in every reachable
    world at most one refresh timer is pending. *)
Lemma reachable_one_pending_timer h c w0 w :
  construct h c = inr w0 -> reachable any_turn w0 w -> one_pending_timer w.
Proof.
  intros Hc Hr. induction Hr as [|w a w' _ IH _ Hs].
  - unfold construct in Hc. destruct (String.eqb _ _); [done|].
    injection Hc as <-.
    assert (one_pending_timer (mkWorld h c fresh_core [] ∅ 1 [])) as H0
      by (intros id Hid; by apply elem_of_empty in Hid).
    destruct (config_autoInit h c); [|done].
    eapply one_pending_timer_view; [apply (proj1 (init_timer_view _ _)) | done].
  - by eapply step_one_pending_timer.
Qed.

(** So [destroy()] leaves no refresh timer pending. *)
Lemma destroy_cancels_every_timer h c w0 w :
  construct h c = inr w0 -> reachable any_turn w0 w ->
  hasTimers (host w) = true -> timers (destroy w) = ∅.
Proof.
  intros Hc Hr Ht.
  pose proof (reachable_one_pending_timer _ _ _ _ Hc Hr) as Hw.
  apply set_eq. intros id. split; [|by intros ?%elem_of_empty].
  intros Hid. exfalso.
  assert (one_pending_timer (destroy w)) as Hd
    by (by eapply (step_one_pending_timer CallDestroy)).
  apply Hd in Hid. destruct (destroy_clears w) as (_ & _ & _ & _ & Hc').
  destruct (Hc' Ht) as [Hn _]. congruence.
Qed.

(** C9, where the code departs from it.  After an [init()] that has
    exhausted its retries, [destroy()] clears the token, the URL and both
    flags but leaves the retry counter at 3, not at its initial value 0;
    the [init()] that follows gets no retry. *)
Theorem destroy_leaves_retry_counter :
  exists w,
    run [CallInit; NetResponse 0 net_down; DelayElapsed 0;
         NetResponse 0 net_down; DelayElapsed 0;
         NetResponse 0 net_down; DelayElapsed 0;
         NetResponse 0 net_down; CallDestroy] fresh_world = Some w /\
    retryCount (core w) = 3 /\
    retryCount fresh_core = 0 /\
    core w <> fresh_core /\
    exists w',
      run [CallInit; NetResponse 0 net_down] w = Some w' /\
      tasks w' = [] /\
      length (requests Authenticate (drop (length (trace w)) (trace w'))) = 1.
Proof.
  eexists. split_and!; [vm_compute; reflexivity | done.. |].
  eexists. split_and!; [vm_compute; reflexivity | done..].
Qed.

(** ** The older class keeps the same invariant, and loses it the same
    way *)
Module LegacyFacts.
Import Legacy.

Lemma legacy_link_count_app l1 l2 :
  link_count (l1 ++ l2) = link_count l1 + link_count l2.
Proof. induction l1 as [|t l1 IH]; simpl; [done | rewrite IH; lia]. Qed.

Lemma legacy_link_count_delete l i t :
  l !! i = Some t ->
  link_count l = (if is_link t then 1 else 0) + link_count (delete i l).
Proof.
  revert i; induction l as [|x l IH]; intros [|i] H; simpl in *; try done.
  - by injection H as ->.
  - rewrite (IH i H). lia.
Qed.

Lemma legacy_session_inv_view w w' :
  session_view w' = session_view w -> session_inv w -> session_inv w'.
Proof.
  unfold session_view, session_inv. intros [= -> -> -> ->]. done.
Qed.

Lemma legacy_settle_view k o w : session_view (settle k o w) = session_view w.
Proof.
  unfold session_view, link_waiters, settle, render_attach.
  repeat case_match; simpl; rewrite ?legacy_link_count_app; simpl;
    by rewrite ?Nat.add_0_r.
Qed.

Lemma legacy_init_view k w : session_view (init k w) = session_view w.
Proof.
  unfold session_view, link_waiters, init; simpl.
  rewrite legacy_link_count_app; simpl. by rewrite Nat.add_0_r.
Qed.

Lemma legacy_init_catch_view k e w : session_view (init_catch k e w) = session_view w.
Proof.
  unfold init_catch. rewrite legacy_settle_view.
  unfold _handleError. by destruct (onError (config w)).
Qed.

Lemma legacy_take_task_session_inv i t w :
  tasks w !! i = Some t -> session_inv w -> session_inv (take_task i w).
Proof.
  unfold session_inv, link_waiters; simpl. intros Hi [Hs Hl].
  split; [done|]. intros Hn. apply Hl.
  rewrite (legacy_link_count_delete _ _ _ Hi). lia.
Qed.

Lemma legacy_init_after_auth_session_inv k o w :
  session_inv w -> session_inv (init_after_auth k o w).
Proof.
  intros Hw. unfold init_after_auth.
  destruct (_authenticate_resume _ _) as [e|w'] eqn:Hr.
  - eapply legacy_session_inv_view; [apply legacy_init_catch_view | done].
  - unfold _authenticate_resume in Hr.
    destruct (_makeRequest o) as [|r]; [done|].
    destruct (success r); [|done]. destruct (data r) as [d|]; [|done].
    destruct (truthy (d_accessToken d)) eqn:Ht; [|done].
    injection Hr as <-. apply truthy_Some in Ht.
    destruct Hw as [[Hu Hi] _].
    unfold session_inv, link_waiters; simpl. split_and!; try done.
    intros H. split; [done|]. by apply Hi.
Qed.

Lemma legacy_init_after_link_session_inv k o w :
  accessToken (core w) <> None -> session_inv w ->
  session_inv (init_after_link k o w).
Proof.
  intros Htok Hw. unfold init_after_link.
  destruct (_generateEmbedLink_resume _ _) as [e|w'] eqn:Hr.
  - eapply legacy_session_inv_view; [apply legacy_init_catch_view | done].
  - unfold _generateEmbedLink_resume in Hr.
    destruct (_makeRequest o) as [|r]; [done|].
    destruct (success r); [|done]. destruct (data r) as [d|]; [|done].
    destruct (truthy (d_embedUrl d)) eqn:Ht; [|done].
    injection Hr as <-. apply truthy_Some in Ht.
    eapply legacy_session_inv_view; [apply legacy_settle_view|].
    destruct Hw as [_ Hl]. simpl.
    destruct (onSuccess (config w));
      unfold session_inv, link_waiters; simpl; split_and!; done.
Qed.

Lemma legacy_step_session_inv a w w' :
  not_during_link_generation w a -> session_inv w -> step a w = Some w' ->
  session_inv w'.
Proof.
  unfold not_during_link_generation.
  intros Ha Hw Hs. destruct a; simpl in *.
  - injection Hs as <-. eapply legacy_session_inv_view; [apply legacy_init_view | done].
  - injection Hs as <-. unfold refresh.
    eapply legacy_session_inv_view; [apply legacy_init_view|].
    unfold session_inv, link_waiters in *; simpl. by rewrite Ha.
  - injection Hs as <-. unfold render. destruct (negb _).
    + eapply legacy_session_inv_view; [apply legacy_init_view | done].
    + eapply legacy_session_inv_view; [|exact Hw].
      apply (legacy_settle_view (FromRender target options) (Resolved VUndefined)).
  - destruct (tasks w !! i) as [[[] k|]|] eqn:Hi; try done;
      injection Hs as <-.
    + by eapply legacy_init_after_auth_session_inv, legacy_take_task_session_inv.
    + apply legacy_init_after_link_session_inv;
        [|by eapply legacy_take_task_session_inv].
      destruct Hw as [_ Hl]. apply Hl. unfold link_waiters.
      rewrite (legacy_link_count_delete _ _ _ Hi); simpl. lia.
  - destruct (tasks w !! i) as [[|]|] eqn:Hi; try done.
    injection Hs as <-.
    eapply legacy_session_inv_view; [|by eapply legacy_take_task_session_inv].
    unfold iframe_loaded. by destruct (onLoad _).
Qed.

Lemma legacy_construct_session_inv doc c w0 :
  construct doc c = inr w0 -> session_inv w0.
Proof.
  unfold construct. destruct (String.eqb _ _); [done|].
  intros [= <-].
  assert (session_inv (mkWorld c doc fresh_core [] [])) as H0
    by (unfold session_inv, link_waiters; simpl; done).
  destruct (config_autoInit c); [|done].
  eapply legacy_session_inv_view; [apply legacy_init_view | done].
Qed.

(** The invariant of C3 for the older class, under the same proviso. *)
Lemma legacy_invariant_unless_cleared_mid_link doc c w0 w :
  construct doc c = inr w0 ->
  reachable not_during_link_generation w0 w ->
  (embedUrl (core w) <> None -> accessToken (core w) <> None) /\
  (isInitialized (core w) = true ->
   accessToken (core w) <> None /\ embedUrl (core w) <> None).
Proof.
  intros Hc Hr.
  assert (session_inv w) as [H _]; [|exact H].
  induction Hr as [|w a w' _ IH Ha Hs].
  - by eapply legacy_construct_session_inv.
  - by eapply legacy_step_session_inv.
Qed.

(** And the same race breaks it. *)
Lemma legacy_invariant_lost_to_refresh :
  exists w,
    run [CallInit; NetResponse 0 (auth_ok "tok-1" None); CallRefresh;
         NetResponse 0 (link_ok "https://pay.example/embed/1")]
        fresh_world = Some w /\
    embedUrl (core w) = Some "https://pay.example/embed/1" /\
    isInitialized (core w) = true /\
    accessToken (core w) = None.
Proof. eexists. split_and!; [vm_compute; reflexivity | done..]. Qed.

End LegacyFacts.

(** * Further properties *)

(** ** Awaiting a call, whoever awaits it *)

Lemma auth_accepted_reschedules d w :
  hasTimers (host w) = true ->
  auth_accepted d w =
  mkWorld (host w) (config w)
          (set_refreshTimeout (Some (nextTimer w))
             (set_accessToken (d_accessToken d) (core w)))
          (tasks w) ({[nextTimer w]} ∪ timers_after_cancel w)
          (S (nextTimer w))
          (trace w ++ cancelled w ++
           [EvSetTimeout (nextTimer w)
                         ((expiresIn_or_default d - 60) * 1000)%Z]).
Proof.
  intros Ht.
  unfold auth_accepted, _scheduleTokenRefresh, cancelled, timers_after_cancel.
  cbn [host upd_core]. rewrite Ht. cbn [negb core upd_core].
  cbn [_refreshTimeout set_accessToken].
  destruct (_refreshTimeout (core w)) as [old|];
    apply world_ext; proj; rewrite <- ?app_assoc; done.
Qed.

Section AwaitingAnyCaller.

Variable b : Backend.

Lemma drive_gives_up_for k fuel na nl rc evs w e :
  maxRetries <= rc ->
  _authenticate_resume (on_auth b na) w = inl e ->
  drive (S fuel) b na nl (attempting k rc evs w) =
  drive fuel b (S na) nl
    (settle k (Rejected e)
       (_handleError "Error en inicialización" e
          (gave_up rc (evs ++ [EvResponse Authenticate (on_auth b na)]) w))).
Proof.
  intros Hrc He.
  rewrite (drive_step_auth _ _ _ _ k []) by done.
  unfold init_after_auth.
  match goal with |- context [_authenticate_resume ?o ?W] =>
    rewrite (_authenticate_resume_host o w W e eq_refl He) end.
  rewrite init_catch_gives_up by done.
  do 3 f_equal. unfold gave_up. world_eq.
Qed.

Lemma drive_succeeds_for k fuel na nl rc evs w d dl :
  hasTimers (host w) = true ->
  auth_data (on_auth b na) = Some d ->
  link_data (on_link b nl) = Some dl ->
  drive (S (S fuel)) b na nl (attempting k rc evs w) =
  drive fuel b (S na) (S nl)
    (settle k
       (Resolved (VSession (d_accessToken d) (d_embedUrl dl)
                           (environment (host w))))
       (_triggerCallback OnSuccess
          (PSuccess (d_accessToken d) (d_embedUrl dl) (environment (host w)))
          (became_ready (on_auth b na) (on_link b nl) d dl evs w))).
Proof.
  intros Ht Ha Hl.
  rewrite (drive_step_auth _ _ _ _ k []) by done.
  rewrite (init_after_auth_accepts _ _ d) by done.
  rewrite auth_accepted_reschedules by done.
  rewrite (drive_step_link _ _ _ _ k []) by done.
  rewrite (init_after_link_accepts _ _ dl) by done.
  proj. do 3 f_equal.
  unfold became_ready.
  apply world_ext; proj; unfold cancelled, timers_after_cancel; proj;
    destruct (_refreshTimeout (core w)); rewrite <- ?app_assoc; done.
Qed.

Lemma settle_rejected_tasks k e w :
  tasks (settle k (Rejected e) w) = tasks w.
Proof.
  destruct (_handleError_grow "Auto-inicialización falló" e w) as [e1 H1].
  destruct (_handleError_grow "Error refrescando token" e w) as [e2 H2].
  destruct k as [| |[]|]; unfold settle; rewrite ?H1, ?H2; proj;
    by rewrite ?app_nil_r.
Qed.

Lemma gave_up_settled k e rc evs w fuel na nl :
  drive fuel b na nl
    (settle k (Rejected e)
       (_handleError "Error en inicialización" e (gave_up rc evs w))) =
  settle k (Rejected e)
    (_handleError "Error en inicialización" e (gave_up rc evs w)).
Proof.
  apply drive_done. rewrite settle_rejected_tasks.
  destruct (_handleError_grow "Error en inicialización" e (gave_up rc evs w))
    as [e1 ->].
  done.
Qed.

Lemma drive_exhausts_for k nl m : forall rc evs na fuel w,
  isInitialized (core w) = false -> rc + m = maxRetries ->
  (forall n, auth_data (on_auth b n) = None) ->
  2 * m + 1 <= fuel ->
  exists e,
    _authenticate_resume (on_auth b (na + m)) w = inl e /\
    drive fuel b na nl (attempting k rc evs w) =
    settle k (Rejected e)
      (_handleError "Error en inicialización" e
         (gave_up maxRetries
            (evs ++ retries b w na rc m ++
             [EvResponse Authenticate (on_auth b (na + m))]) w)).
Proof.
  induction m as [|m IH]; intros rc evs na fuel w Hi Hrc Hb Hf.
  - destruct (_authenticate_resume_rejects (on_auth b na) w (Hb na))
      as [e He].
    exists e. rewrite Nat.add_0_r in *. subst rc. split; [done|].
    destruct fuel as [|fuel]; [lia|].
    rewrite (drive_gives_up_for _ _ _ _ _ _ _ e) by done.
    by rewrite gave_up_settled.
  - destruct fuel as [|[|fuel]]; [lia..|].
    rewrite drive_attempt_retries by (done || lia).
    destruct (IH (S rc)
                (evs ++ [EvResponse Authenticate (on_auth b na);
                         EvDelay (1000 * Z.of_nat (S rc)); auth_request w])
                (S na) (if hasTimers (host w) then fuel else S fuel) w)
      as (e & He & ->); [done | lia | done | destruct (hasTimers _); lia |].
    exists e. replace (na + S m) with (S na + m) by lia.
    split; [done|]. cbn [retries]. unfold retried.
    by rewrite <- !app_assoc.
Qed.

Lemma init_exhausts_for k nl na fuel w :
  tasks w = [] -> isLoading (core w) = false ->
  isInitialized (core w) = false -> retryCount (core w) <= maxRetries ->
  (forall n, auth_data (on_auth b n) = None) ->
  2 * (maxRetries - retryCount (core w)) + 1 <= fuel ->
  exists e,
    _authenticate_resume
      (on_auth b (na + (maxRetries - retryCount (core w)))) w = inl e /\
    drive fuel b na nl (init k w) =
    settle k (Rejected e)
      (_handleError "Error en inicialización" e
         (gave_up maxRetries
            (attempts b w na (retryCount (core w))
                      (maxRetries - retryCount (core w))) w)).
Proof.
  intros Ht Hl Hi Hrc Hb Hf.
  rewrite init_attempting by done.
  destruct (drive_exhausts_for k nl
              (maxRetries - retryCount (core w)) (retryCount (core w))
              [auth_request w] na fuel w) as (e & He & ->);
    [done | lia | done | done |].
  by exists e.
Qed.

End AwaitingAnyCaller.

(** ** Reading a trace *)

Lemma requests_app ep l1 l2 :
  requests ep (l1 ++ l2) = requests ep l1 ++ requests ep l2.
Proof. apply omap_app. Qed.

Lemma backoff_delays_app l1 l2 :
  backoff_delays (l1 ++ l2) = backoff_delays l1 ++ backoff_delays l2.
Proof. apply omap_app. Qed.

Lemma callbacks_app n l1 l2 :
  callbacks n (l1 ++ l2) = callbacks n l1 ++ callbacks n l2.
Proof. apply omap_app. Qed.

Lemma settlements_app l1 l2 :
  settlements (l1 ++ l2) = settlements l1 ++ settlements l2.
Proof. apply omap_app. Qed.

Lemma _handleError_reported ctx e w :
  _handleError ctx e w = grow [] (reported ctx e w) w.
Proof.
  unfold _handleError, _triggerCallback, reported; cbn [registered].
  destruct (onError (config w)); [apply emit_grow | by rewrite grow_nil].
Qed.

Lemma _triggerCallback_notified n p w :
  _triggerCallback n p w = grow [] (notified n p w) w.
Proof.
  unfold _triggerCallback, notified.
  destruct (registered _ _); [apply emit_grow | by rewrite grow_nil].
Qed.

Lemma requests_reported ep ctx e w : requests ep (reported ctx e w) = [].
Proof. unfold reported. by destruct (onError _), ep. Qed.

Lemma backoff_delays_reported ctx e w : backoff_delays (reported ctx e w) = [].
Proof. unfold reported. by destruct (onError _). Qed.

Lemma settlements_reported ctx e w : settlements (reported ctx e w) = [].
Proof. unfold reported. by destruct (onError _). Qed.

Lemma callbacks_reported ctx e w :
  onError (config w) = true ->
  callbacks OnError (reported ctx e w) =
  [PError ctx (error_message e) e (environment (host w)) (getStatus w)].
Proof. unfold reported. by intros ->. Qed.

Lemma callbacks_reported_other n ctx e w :
  n <> OnError -> callbacks n (reported ctx e w) = [].
Proof. unfold reported. by destruct (onError _), n. Qed.

Lemma requests_notified ep n p w : requests ep (notified n p w) = [].
Proof. unfold notified. by destruct (registered _ _), ep. Qed.

Lemma settlements_notified n p w : settlements (notified n p w) = [].
Proof. unfold notified. by destruct (registered _ _). Qed.

Lemma callbacks_notified n p w :
  callbacks n (notified n p w) =
  if registered (config w) n then [p] else [].
Proof. unfold notified. by destruct (registered _ _), n. Qed.

Lemma callbacks_notified_other n n' p w :
  n <> n' -> callbacks n (notified n' p w) = [].
Proof. unfold notified. by destruct (registered _ _), n, n'. Qed.

Lemma requests_settled ep c o : requests ep [EvSettled c o] = [].
Proof. by destruct ep. Qed.

Lemma callbacks_settled n c o : callbacks n [EvSettled c o] = [].
Proof. by destruct n. Qed.

Lemma requests_retries b w na rc m :
  requests Authenticate (retries b w na rc m) =
  replicate m (XApiKey (apiKey (config w))).
Proof.
  revert na rc; induction m as [|m IH]; intros na rc; [done|].
  cbn [retries replicate]. rewrite requests_app, IH. done.
Qed.

Lemma backoff_delays_retries b w na rc m :
  backoff_delays (retries b w na rc m) = backoff_from rc m.
Proof.
  revert na rc; induction m as [|m IH]; intros na rc; [done|].
  cbn [retries]. rewrite backoff_delays_app, IH. done.
Qed.

Lemma callbacks_retries n b w na rc m :
  callbacks n (retries b w na rc m) = [].
Proof.
  revert na rc; induction m as [|m IH]; intros na rc; [done|].
  cbn [retries]. rewrite callbacks_app, IH. by destruct n.
Qed.

Lemma settlements_retries b w na rc m : settlements (retries b w na rc m) = [].
Proof.
  revert na rc; induction m as [|m IH]; intros na rc; [done|].
  cbn [retries]. by rewrite settlements_app, IH.
Qed.

Lemma requests_attempts b w na rc m :
  requests Authenticate (attempts b w na rc m) =
  replicate (S m) (XApiKey (apiKey (config w))).
Proof.
  unfold attempts. rewrite !requests_app, requests_retries.
  cbn. by rewrite app_nil_r.
Qed.

Lemma backoff_delays_attempts b w na rc m :
  backoff_delays (attempts b w na rc m) = backoff_from rc m.
Proof.
  unfold attempts. rewrite !backoff_delays_app, backoff_delays_retries.
  cbn. by rewrite app_nil_r.
Qed.

Lemma callbacks_attempts n b w na rc m :
  callbacks n (attempts b w na rc m) = [].
Proof.
  unfold attempts. rewrite !callbacks_app, callbacks_retries.
  by destruct n.
Qed.

Lemma settlements_attempts b w na rc m :
  settlements (attempts b w na rc m) = [].
Proof.
  unfold attempts. by rewrite !settlements_app, settlements_retries.
Qed.

Lemma construct_auto h c w :
  construct h c = inr w -> config_autoInit h c = true ->
  w = init FromConstructor (mkWorld h c fresh_core [] ∅ 1 []).
Proof.
  unfold construct. destruct (String.eqb _ _); [done|].
  intros [= <-] ->. done.
Qed.

(** ** The retry budget *)

(** X1. [init()] awaited on an idle, uninitialised manager against a
    backend that rejects every authentication spends what is left of the
    retry budget: with the counter at [rc] it sends [maxRetries - rc + 1]
    authentication requests, backs off [1000 * (rc + 1)], ...,
    [1000 * maxRetries] milliseconds between them, and rejects, leaving the
    counter at [maxRetries].  The rejection does not reset the counter, so
    an [init()] that follows a failed one sends a single request. *)
Theorem init_spends_the_remaining_retries b w na nl fuel :
  tasks w = [] -> isLoading (core w) = false ->
  isInitialized (core w) = false ->
  retryCount (core w) <= maxRetries ->
  (forall n, auth_data (on_auth b n) = None) ->
  2 * (maxRetries - retryCount (core w)) + 1 <= fuel ->
  let w' := drive fuel b na nl (init FromHost w) in
  exists e,
    tasks w' = [] /\ isLoading (core w') = false /\
    retryCount (core w') = maxRetries /\
    length (requests Authenticate (trace w')) =
      length (requests Authenticate (trace w)) +
      (maxRetries - retryCount (core w) + 1) /\
    backoff_delays (trace w') =
      backoff_delays (trace w) ++
      backoff_from (retryCount (core w)) (maxRetries - retryCount (core w)) /\
    last (trace w') = Some (EvSettled CInit (Rejected e)).
Proof.
  intros Ht Hl Hi Hrc Hb Hf w'. subst w'.
  destruct (init_exhausts_for b FromHost nl na fuel w)
    as (e & _ & ->); [done..|].
  exists e. rewrite _handleError_reported. cbn [settle].
  rewrite emit_grow, grow_grow. unfold gave_up. proj.
  split_and!; try done.
  - rewrite !requests_app, requests_reported, requests_attempts,
      requests_settled.
    rewrite !length_app, length_replicate. cbn [length]. lia.
  - rewrite !backoff_delays_app, backoff_delays_reported,
      backoff_delays_attempts.
    cbn. by rewrite !app_nil_r.
  - by rewrite !app_assoc, last_snoc.
Qed.

Lemma init_spends_the_remaining_retries_witness :
  let w' := drive 1 failing_backend 4 0 (init FromHost failed_world) in
  retryCount (core failed_world) = maxRetries /\
  length (requests Authenticate (trace w')) = 5 /\
  backoff_delays (trace w') = [1000; 2000; 3000]%Z.
Proof.
  destruct (init_spends_the_remaining_retries failing_backend failed_world
              4 0 1 eq_refl eq_refl eq_refl (le_n 3) (fun _ => eq_refl)
              (le_n 1)) as (e & _ & _ & _ & H4 & H5 & _).
  split; [reflexivity|]. split; [rewrite H4 | rewrite H5]; reflexivity.
Defined.

(** ** A failed auto-initialisation *)

(** X2. A manager constructed with auto-initialisation and an [onError]
    observer, against a backend that rejects every authentication, makes
    its four attempts on its own and then calls [onError] twice with the
    same error: once from [init] (context "Error en inicialización") and
    once from the constructor's [catch] (context "Auto-inicialización
    falló").  Nothing is settled towards the host: the failure is visible
    through [onError] only. *)
Theorem auto_init_failure_is_reported_twice h c w b fuel :
  construct h c = inr w -> config_autoInit h c = true -> onError c = true ->
  (forall n, auth_data (on_auth b n) = None) ->
  2 * maxRetries + 1 <= fuel ->
  let w' := drive fuel b 0 0 w in
  let status := mkStatus false false false false (environment h)
                         (config_mode c) maxRetries in
  exists e,
    _authenticate_resume (on_auth b maxRetries) w = inl e /\
    tasks w' = [] /\
    length (requests Authenticate (trace w')) = maxRetries + 1 /\
    callbacks OnError (trace w') =
      [PError "Error en inicialización" (error_message e) e (environment h)
              status;
       PError "Auto-inicialización falló" (error_message e) e (environment h)
              status] /\
    settlements (trace w') = [].
Proof.
  intros Hc Ha He Hb Hf w' status. subst w' status.
  rewrite (construct_auto _ _ _ Hc Ha).
  set (w0 := mkWorld h c fresh_core [] ∅ 1 []).
  destruct (init_exhausts_for b FromConstructor 0 0 fuel w0)
    as (e & Hrej & ->); [done | done | done | apply Nat.le_0_l | done | exact Hf |].
  exists e. split.
  { by apply (_authenticate_resume_host _ w0). }
  cbn [settle]. rewrite !_handleError_reported, grow_grow.
  unfold gave_up. proj.
  split_and!; try done.
  - rewrite !requests_app, !requests_reported, requests_attempts.
    rewrite !length_app, length_replicate. cbn. lia.
  - rewrite !callbacks_app, callbacks_attempts, !callbacks_reported by done.
    done.
  - by rewrite !settlements_app, settlements_attempts, !settlements_reported.
Qed.

Lemma auto_init_failure_is_reported_twice_witness :
  let w' := drive 7 failing_backend 0 0 auto_world in
  length (callbacks OnError (trace w')) = 2 /\
  settlements (trace w') = [].
Proof.
  destruct (auto_init_failure_is_reported_twice web_host demo_config
              auto_world failing_backend 7 eq_refl eq_refl eq_refl
              (fun _ => eq_refl) (le_n 7)) as (e & _ & _ & _ & H4 & H5).
  split; [rewrite H4; reflexivity | exact H5].
Defined.

(** ** The scheduled refresh *)

Lemma pending_timer_handle w id :
  one_pending_timer w -> id ∈ timers w ->
  _refreshTimeout (core w) = Some id /\ timers w ∖ {[id]} = ∅.
Proof.
  intros H1 Hid. split; [by apply H1|].
  apply set_eq. intros x. rewrite elem_of_difference, elem_of_singleton.
  split; [|by intros ?%elem_of_empty].
  intros [Hx Hne]. destruct Hne.
  pose proof (H1 _ Hx) as E1. pose proof (H1 _ Hid) as E2. congruence.
Qed.

(** X3. When the refresh timer fires on an idle manager and the backend
    accepts the authentication and the link generation, the manager ends
    initialised with the new token and URL and the retry counter at 0, the
    next refresh is scheduled and is the only timer pending, and the
    observers run in this order: [onSuccess] with the new session, then
    [onTokenExpired] with the new token. *)
Theorem scheduled_refresh_renews_the_session b w id d dl na nl fuel :
  tasks w = [] -> isLoading (core w) = false -> hasTimers (host w) = true ->
  one_pending_timer w -> id ∈ timers w ->
  auth_data (on_auth b na) = Some d -> link_data (on_link b nl) = Some dl ->
  2 <= fuel ->
  exists w1,
    step (TimerFires id) w = Some w1 /\
    let w' := drive fuel b na nl w1 in
    tasks w' = [] /\
    core w' = mkCore (d_accessToken d) (d_embedUrl dl) true false 0
                     (Some (nextTimer w)) /\
    timers w' = {[nextTimer w]} /\
    trace w' =
      trace w ++
      [auth_request w; EvResponse Authenticate (on_auth b na);
       EvClearTimeout id;
       EvSetTimeout (nextTimer w) ((expiresIn_or_default d - 60) * 1000)%Z;
       EvRequest GenerateLink (Bearer (d_accessToken d));
       EvResponse GenerateLink (on_link b nl)] ++
      (if onSuccess (config w)
       then [EvCallback OnSuccess
               (PSuccess (d_accessToken d) (d_embedUrl dl)
                         (environment (host w)))]
       else []) ++
      (if onTokenExpired (config w)
       then [EvCallback OnTokenExpired (PTokenExpired (d_accessToken d))]
       else []).
Proof.
  intros Ht Hl Hh Hone Hid Ha Hk Hf.
  destruct (pending_timer_handle _ _ Hone Hid) as [Hrt Hrest].
  eexists. split.
  { cbn [step]. by rewrite bool_decide_eq_true_2. }
  destruct fuel as [|[|fuel]]; [lia..|].
  unfold refresh. cbv zeta.
  rewrite init_attempting by done.
  rewrite (drive_succeeds_for _ _ _ _ _ _ _ _ d dl) by done.
  cbn [settle]. rewrite !_triggerCallback_notified, grow_grow.
  rewrite drive_done by done.
  unfold became_ready, notified, cancelled, timers_after_cancel, fire. proj.
  rewrite Hrt. split_and!; try done.
  - rewrite Hrest. apply set_eq. intros x.
    rewrite elem_of_union, elem_of_difference.
    split; [intros [H|[H _]]; [done | by apply elem_of_empty in H] | by left].
  - rewrite <- !app_assoc. done.
Qed.

Lemma scheduled_refresh_renews_the_session_witness :
  exists w1,
    step (TimerFires 1) ready_world = Some w1 /\
    let w' := drive 2 (mkBackend (fun _ => auth_ok "tok-new" None)
                                 (fun _ => link_ok "https://pay.example/embed/new"))
                    0 0 w1 in
    getAccessToken (core w') = inr (Some "tok-new") /\
    timers w' = {[2]} /\
    callbacks OnTokenExpired (trace w') = [PTokenExpired (Some "tok-new")].
Proof.
  assert (timers ready_world = {[1]}) as E by (vm_compute; reflexivity).
  assert (one_pending_timer ready_world) as Hone.
  { intros id Hid. rewrite E in Hid.
    apply elem_of_singleton in Hid as ->. reflexivity. }
  assert (1 ∈ timers ready_world) as Hid.
  { rewrite E. by apply elem_of_singleton. }
  destruct (scheduled_refresh_renews_the_session
              (mkBackend (fun _ => auth_ok "tok-new" None)
                         (fun _ => link_ok "https://pay.example/embed/new"))
              ready_world 1
              (mkData (Some "tok-new") None None)
              (mkData None None (Some "https://pay.example/embed/new"))
              0 0 2 eq_refl eq_refl eq_refl Hone Hid eq_refl eq_refl
              (le_n 2)) as (w1 & Hs & _ & Hc & Ht & Htr).
  exists w1. split; [exact Hs|]. cbv zeta.
  rewrite Hc, Ht, Htr. split_and!; reflexivity.
Defined.

(** X4. When the refresh timer fires on an idle manager and the backend
    rejects every authentication, the refresh spends the whole retry
    budget, then [onError] is called twice with the same error (contexts
    "Error en inicialización" and "Error refrescando token") and
    [onTokenExpired] is not called.  The manager is left without a session
    and without a pending timer: nothing happens any more until the host
    calls [init], [refresh], [destroy] or [render]. *)
Theorem failed_scheduled_refresh_is_terminal b w id na nl fuel :
  tasks w = [] -> isLoading (core w) = false ->
  one_pending_timer w -> id ∈ timers w -> onError (config w) = true ->
  (forall n, auth_data (on_auth b n) = None) ->
  2 * maxRetries + 1 <= fuel ->
  let status := mkStatus false false false false (environment (host w))
                         (config_mode (config w)) maxRetries in
  exists w1 e,
    step (TimerFires id) w = Some w1 /\
    let w' := drive fuel b na nl w1 in
    tasks w' = [] /\ timers w' = ∅ /\ getStatus w' = status /\
    length (requests Authenticate (trace w')) =
      length (requests Authenticate (trace w)) + (maxRetries + 1) /\
    callbacks OnError (trace w') =
      callbacks OnError (trace w) ++
      [PError "Error en inicialización" (error_message e) e
              (environment (host w)) status;
       PError "Error refrescando token" (error_message e) e
              (environment (host w)) status] /\
    callbacks OnTokenExpired (trace w') = callbacks OnTokenExpired (trace w) /\
    forall a w'', step a w' = Some w'' ->
      a = CallInit \/ a = CallRefresh \/ a = CallDestroy \/
      exists target options, a = CallRender target options.
Proof.
  intros Ht Hl Hone Hid He Hb Hf status. subst status.
  destruct (pending_timer_handle _ _ Hone Hid) as [Hrt Hrest].
  eexists.
  set (w4 := upd_core (set_retryCount 0)
               (upd_core (set_embedUrl None)
                  (upd_core (set_accessToken None)
                     (upd_core (set_isInitialized false) (fire id w))))).
  destruct (init_exhausts_for b (FromRefresh true) nl na fuel w4)
    as (e & _ & Hd);
    [done | done | done | apply Nat.le_0_l | done | exact Hf |].
  exists e. split.
  { cbn [step]. by rewrite bool_decide_eq_true_2. }
  unfold refresh. cbv zeta. fold w4. rewrite Hd. clear Hd.
  cbn [settle]. rewrite !_handleError_reported, grow_grow.
  change (retryCount (core w4)) with 0.
  change (maxRetries - 0) with maxRetries.
  set (evs := attempts b w4 na 0 maxRetries).
  assert (forall a w'' evs',
            step a (grow [] evs' (gave_up maxRetries evs w4)) = Some w'' ->
            a = CallInit \/ a = CallRefresh \/ a = CallDestroy \/
            exists target options, a = CallRender target options) as Hdead.
  { intros a w'' evs'.
    destruct a as [| | | |i o|i|i'|i|i e']; eauto 6;
      cbn [step]; unfold gave_up, w4, fire; proj; try done.
    rewrite Hrest.
    by rewrite bool_decide_eq_false_2 by apply not_elem_of_empty. }
  split_and!; try (intros a w''; by apply Hdead); clear Hdead.
  - done.
  - unfold gave_up, w4, fire; proj. done.
  - done.
  - unfold gave_up, w4, fire; proj.
    rewrite !requests_app, !requests_reported. unfold evs.
    rewrite requests_attempts.
    rewrite !length_app, length_replicate. cbn [length]. lia.
  - unfold gave_up at 1. unfold grow at 1. cbn [trace].
    unfold gave_up at 1. cbn [trace].
    rewrite !callbacks_app, !callbacks_reported by done. unfold evs.
    rewrite callbacks_attempts, app_nil_r.
    unfold gave_up, w4, fire; proj. done.
  - unfold gave_up at 1. unfold grow at 1. cbn [trace].
    unfold gave_up at 1. cbn [trace].
    rewrite !callbacks_app, !callbacks_reported_other by done. unfold evs.
    rewrite callbacks_attempts. by rewrite !app_nil_r.
Qed.

Lemma failed_scheduled_refresh_is_terminal_witness :
  exists w1,
    step (TimerFires 1) ready_world = Some w1 /\
    let w' := drive 7 failing_backend 0 0 w1 in
    timers w' = ∅ /\ isInitialized (core w') = false /\
    length (callbacks OnError (trace w')) = 2 /\
    callbacks OnTokenExpired (trace w') = [].
Proof.
  assert (timers ready_world = {[1]}) as E by (vm_compute; reflexivity).
  assert (one_pending_timer ready_world) as Hone.
  { intros id Hid. rewrite E in Hid.
    apply elem_of_singleton in Hid as ->. reflexivity. }
  assert (1 ∈ timers ready_world) as Hid.
  { rewrite E. by apply elem_of_singleton. }
  destruct (failed_scheduled_refresh_is_terminal failing_backend ready_world
              1 0 0 7 eq_refl eq_refl Hone Hid eq_refl (fun _ => eq_refl)
              (le_n 7))
    as (w1 & e & Hs & _ & Ht & Hst & _ & Hcb & Hte & _).
  exists w1. split; [exact Hs|]. cbv zeta.
  split; [exact Ht|]. split; [exact (f_equal st_isInitialized Hst)|].
  rewrite Hcb, Hte. split; reflexivity.
Defined.

(** ** [render] on a manager that is not initialised *)

Lemma render_dispatch_api_only target options w :
  or_else (o_mode options) (config_mode (config w)) = "api-only" ->
  render_dispatch target options w = _returnApiData (renderConfig options) w.
Proof. unfold render_dispatch. cbv zeta. by intros ->. Qed.

(** X5. [render] on an idle manager that is not initialised runs [init]
    first.  When the backend rejects every authentication, [render] rejects
    with the error of [init]'s last attempt after the retries are spent;
    [onError] is called once (context "Error en inicialización"), [onLoad]
    is not called and nothing is rendered. *)
Theorem render_inherits_the_failure_of_init b w target options na nl fuel :
  tasks w = [] -> isLoading (core w) = false ->
  isInitialized (core w) = false -> retryCount (core w) = 0 ->
  onError (config w) = true ->
  (forall n, auth_data (on_auth b n) = None) ->
  2 * maxRetries + 1 <= fuel ->
  let w' := drive fuel b na nl (render target options w) in
  exists e,
    _authenticate_resume (on_auth b (na + maxRetries)) w = inl e /\
    tasks w' = [] /\
    length (requests Authenticate (trace w')) =
      length (requests Authenticate (trace w)) + (maxRetries + 1) /\
    callbacks OnError (trace w') =
      callbacks OnError (trace w) ++
      [PError "Error en inicialización" (error_message e) e
              (environment (host w))
              (mkStatus false false (truthy (accessToken (core w)))
                        (truthy (embedUrl (core w))) (environment (host w))
                        (config_mode (config w)) maxRetries)] /\
    callbacks OnLoad (trace w') = callbacks OnLoad (trace w) /\
    settlements (trace w') =
      settlements (trace w) ++ [(CRender, Rejected e)].
Proof.
  intros Ht Hl Hi Hrc He Hb Hf w'. subst w'.
  unfold render. rewrite Hi. cbn [negb].
  destruct (init_exhausts_for b (FromRender target options) nl na fuel w)
    as (e & Hrej & ->); [done | done | done | lia | done | lia |].
  rewrite Hrc in *. change (maxRetries - 0) with maxRetries in *.
  exists e. split; [done|].
  cbn [settle]. rewrite _handleError_reported, emit_grow, grow_grow.
  unfold gave_up. proj.
  split_and!; try done.
  - rewrite !requests_app, requests_reported, requests_attempts,
      requests_settled.
    rewrite !length_app, length_replicate. cbn [length]. lia.
  - rewrite !callbacks_app, callbacks_attempts, callbacks_reported by done.
    rewrite callbacks_settled, app_nil_r. unfold getStatus; proj.
    by rewrite Hi.
  - rewrite !callbacks_app, callbacks_attempts,
      callbacks_reported_other, callbacks_settled by done.
    by rewrite !app_nil_r.
  - rewrite !settlements_app, settlements_attempts, settlements_reported.
    by rewrite app_nil_r.
Qed.

Lemma render_inherits_the_failure_of_init_witness :
  let w' := drive 7 failing_backend 0 0
                  (render (ById "checkout") api_only fresh_world) in
  exists e,
    settlements (trace w') = [(CRender, Rejected e)] /\
    length (callbacks OnError (trace w')) = 1 /\
    callbacks OnLoad (trace w') = [].
Proof.
  destruct (render_inherits_the_failure_of_init failing_backend fresh_world
              (ById "checkout") api_only 0 0 7 eq_refl eq_refl eq_refl
              eq_refl eq_refl (fun _ => eq_refl) (le_n 7))
    as (e & _ & _ & _ & Hcb & Hl & Hs).
  exists e. rewrite Hcb, Hl, Hs. split_and!; reflexivity.
Defined.

(** X6. [render] on an idle manager that is not initialised, with a
    backend that accepts the authentication and the link generation: the
    session is established first and, in "api-only" mode, [render] resolves
    with the token and the URL the backend has just delivered.  [onSuccess]
    runs before [onLoad], and one request is sent to each endpoint. *)
Theorem render_initialises_then_returns_the_session
    b w target options d dl na nl fuel :
  tasks w = [] -> isLoading (core w) = false ->
  isInitialized (core w) = false -> hasTimers (host w) = true ->
  auth_data (on_auth b na) = Some d -> link_data (on_link b nl) = Some dl ->
  or_else (o_mode options) (config_mode (config w)) = "api-only" ->
  2 <= fuel ->
  let w' := drive fuel b na nl (render target options w) in
  let session := RApi (d_accessToken d) (d_embedUrl dl)
                      (renderConfig options) (environment (host w)) in
  exists evs,
    trace w' =
      trace w ++ evs ++
      notified OnSuccess
        (PSuccess (d_accessToken d) (d_embedUrl dl) (environment (host w))) w ++
      notified OnLoad (PLoad session) w ++
      [EvSettled CRender (Resolved (VRender session))] /\
    requests Authenticate evs = [XApiKey (apiKey (config w))] /\
    requests GenerateLink evs = [Bearer (d_accessToken d)] /\
    callbacks OnSuccess evs = [] /\ callbacks OnLoad evs = [] /\
    settlements evs = [] /\
    tasks w' = [] /\ getAccessToken (core w') = inr (d_accessToken d) /\
    getEmbedUrl (core w') = inr (d_embedUrl dl).
Proof.
  intros Ht Hl Hi Hh Ha Hk Hm Hf w' session. subst w' session.
  unfold render. rewrite Hi. cbn [negb].
  destruct fuel as [|[|fuel]]; [lia..|].
  rewrite init_attempting by done.
  rewrite (drive_succeeds_for _ _ _ _ _ _ _ _ d dl) by done.
  cbn [settle]. rewrite _triggerCallback_notified.
  rewrite render_dispatch_api_only by done.
  unfold _returnApiData. cbv zeta.
  rewrite !_triggerCallback_notified, emit_grow, !grow_grow.
  rewrite drive_done by done.
  exists ([auth_request w; EvResponse Authenticate (on_auth b na)] ++
          cancelled w ++
          [EvSetTimeout (nextTimer w)
                        ((expiresIn_or_default d - 60) * 1000)%Z;
           EvRequest GenerateLink (Bearer (d_accessToken d));
           EvResponse GenerateLink (on_link b nl)]).
  unfold became_ready, notified, cancelled. proj.
  split_and!; try done.
  - destruct (_refreshTimeout (core w)); rewrite <- ?app_assoc; done.
  - by destruct (_refreshTimeout (core w)).
  - by destruct (_refreshTimeout (core w)).
  - by destruct (_refreshTimeout (core w)).
  - by destruct (_refreshTimeout (core w)).
  - by destruct (_refreshTimeout (core w)).
Qed.

Lemma render_initialises_then_returns_the_session_witness :
  let w' := drive 2 flaky_backend 2 0
                  (render (ById "checkout") api_only fresh_world) in
  settlements (trace w') =
    [(CRender,
      Resolved (VRender (RApi (Some "tok-3")
                              (Some "https://pay.example/embed/1")
                              (renderConfig api_only) Node)))] /\
  getAccessToken (core w') = inr (Some "tok-3").
Proof.
  destruct (render_initialises_then_returns_the_session flaky_backend
              fresh_world (ById "checkout") api_only
              (mkData (Some "tok-3") (Some 1800%Z) None)
              (mkData None None (Some "https://pay.example/embed/1"))
              2 0 2 eq_refl eq_refl eq_refl eq_refl eq_refl eq_refl eq_refl
              (le_n 2))
    as (evs & Htr & _ & _ & _ & _ & Hs & _ & Htok & _).
  split; [|exact Htok].
  rewrite Htr, !settlements_app, Hs. reflexivity.
Defined.

(** ** How the fields evolve *)

Lemma only_renders_core_updates w w' :
  only_renders w w' -> rtc core_update (core w) (core w').
Proof. intros H. by destruct (only_renders_round_trips _ _ H) as [-> _]. Qed.

Lemma init_core_updates k w : rtc core_update (core w) (core (init k w)).
Proof.
  destruct (init_cases k w) as [H | [_ ->]];
    [by apply only_renders_core_updates|].
  apply rtc_once. cbn [core grow upd_core]. constructor.
Qed.

Lemma settle_core k o w : core (settle k o w) = core w.
Proof.
  by destruct (only_renders_round_trips _ _ (settle_only_renders k o w)).
Qed.

Lemma init_catch_core_updates k e w :
  rtc core_update (core w) (core (init_catch k e w)).
Proof.
  unfold init_catch. cbv zeta.
  eapply rtc_l; [apply (update_loading _ false)|].
  change (set_isLoading false (core w))
    with (core (upd_core (set_isLoading false) w)).
  set (w1 := upd_core (set_isLoading false) w).
  destruct (retryCount (core w1) <? maxRetries) eqn:Hlt.
  - apply Nat.ltb_lt in Hlt.
    eapply rtc_l; [by apply update_retry|].
    destruct (hasTimers _); [apply rtc_refl|].
    match goal with |- context [init k ?v] =>
      apply (init_core_updates k v) end.
  - rewrite settle_core.
    destruct (_handleError_grow "Error en inicialización" e w1) as [evs ->].
    apply rtc_refl.
Qed.

Lemma auth_accepted_core_updates o d w :
  auth_data o = Some d ->
  rtc core_update (core w) (core (auth_accepted d w)).
Proof.
  intros Hd. destruct (auth_accepted_frame d w) as (_ & _ & _ & [rt ->] & _).
  eapply rtc_l; [apply update_token, (auth_data_truthy _ _ Hd)|].
  apply rtc_once. constructor.
Qed.

Lemma _generateEmbedLink_core_updates k w :
  rtc core_update (core w) (core (_generateEmbedLink k w)).
Proof.
  unfold _generateEmbedLink.
  destruct (negb _); [apply init_catch_core_updates | apply rtc_refl].
Qed.

Lemma init_after_auth_core_updates k o w :
  rtc core_update (core w) (core (init_after_auth k o w)).
Proof.
  unfold init_after_auth.
  destruct (_authenticate_resume _ _) as [e|w'] eqn:Hr.
  - apply (init_catch_core_updates k e (emit (EvResponse Authenticate o) w)).
  - apply _authenticate_resume_inr in Hr as (d & Hd & ->).
    etrans; [|apply _generateEmbedLink_core_updates].
    by apply (auth_accepted_core_updates o d
                (emit (EvResponse Authenticate o) w)).
Qed.

Lemma init_after_link_core_updates k o w :
  rtc core_update (core w) (core (init_after_link k o w)).
Proof.
  unfold init_after_link.
  destruct (_generateEmbedLink_resume _ _) as [e|w'] eqn:Hr.
  - apply (init_catch_core_updates k e (emit (EvResponse GenerateLink o) w)).
  - apply _generateEmbedLink_resume_inr in Hr as (d & Hd & ->).
    cbv zeta. rewrite settle_core, _triggerCallback_core.
    apply rtc_once. apply (update_ready _ _ (link_data_truthy _ _ Hd)).
Qed.

Lemma refresh_core_updates timer w :
  rtc core_update (core w) (core (refresh timer w)).
Proof.
  unfold refresh. cbv zeta.
  eapply rtc_l; [apply update_refresh|].
  match goal with |- context [init ?k ?v] =>
    apply (init_core_updates k v) end.
Qed.

Lemma destroy_core_updates w :
  rtc core_update (core w) (core (destroy w)).
Proof.
  unfold destroy. cbv zeta.
  eapply rtc_l; [apply update_destroy|].
  cbn [core upd_core _refreshTimeout set_isLoading set_embedUrl
       set_accessToken set_isInitialized host].
  destruct (_refreshTimeout (core w)); [destruct (hasTimers (host w))|];
    first [apply rtc_refl | apply rtc_once, (update_handle _ None)].
Qed.

Lemma render_core_updates target options w :
  rtc core_update (core w) (core (render target options w)).
Proof.
  unfold render. destruct (negb _); [apply init_core_updates|].
  apply only_renders_core_updates, render_dispatch_only_renders.
Qed.

Lemma step_core_updates a w w' :
  step a w = Some w' -> rtc core_update (core w) (core w').
Proof.
  intros Hs. destruct a; simpl in Hs.
  - injection Hs as <-. apply init_core_updates.
  - injection Hs as <-. apply refresh_core_updates.
  - injection Hs as <-. apply destroy_core_updates.
  - injection Hs as <-. apply render_core_updates.
  - destruct (tasks w !! i) as [[[] k|]|]; try done; injection Hs as <-.
    + apply (init_after_auth_core_updates k o (take_task i w)).
    + apply (init_after_link_core_updates k o (take_task i w)).
  - destruct (tasks w !! i) as [[[] k|]|]; try done. injection Hs as <-.
    apply (init_core_updates k (take_task i w)).
  - destruct (bool_decide _); [|done]. injection Hs as <-.
    apply (refresh_core_updates true (fire id w)).
  - destruct (tasks w !! i) as [[|cfg]|]; try done. injection Hs as <-.
    apply (only_renders_core_updates (take_task i w)),
      iframe_loaded_only_renders.
  - destruct (tasks w !! i) as [[|cfg]|]; try done. injection Hs as <-.
    apply (only_renders_core_updates (take_task i w)),
      iframe_failed_only_renders.
Qed.

Lemma reachable_core_updates allowed h c w0 w :
  construct h c = inr w0 -> reachable allowed w0 w ->
  rtc core_update fresh_core (core w).
Proof.
  intros Hc Hr. induction Hr as [|w a w' _ IH _ Hs].
  - unfold construct in Hc. destruct (String.eqb _ _); [done|].
    injection Hc as <-. destruct (config_autoInit h c); [|apply rtc_refl].
    apply (init_core_updates FromConstructor
             (mkWorld h c fresh_core [] ∅ 1 [])).
  - etrans; [exact IH | by eapply step_core_updates].
Qed.

(** An invariant of the fields: it holds of the fresh manager and every
    update keeps it. *)
Lemma core_invariant (P : Core -> Prop) allowed h c w0 w :
  P fresh_core -> (forall c1 c2, core_update c1 c2 -> P c1 -> P c2) ->
  construct h c = inr w0 -> reachable allowed w0 w -> P (core w).
Proof.
  intros H0 Hstep Hc Hr.
  pose proof (reachable_core_updates _ _ _ _ _ Hc Hr) as Hu.
  induction Hu as [|c1 c2 c3 H12 _ IH]; [done|].
  apply IH. by eapply Hstep.
Qed.

(** X7. The retry counter never exceeds [maxRetries]: in every world
    reached from construction, whatever the host calls and however the
    backend answers, [getStatus().retryCount] is at most 3. *)
Theorem retry_counter_is_bounded allowed h c w0 w :
  construct h c = inr w0 -> reachable allowed w0 w ->
  st_retryCount (getStatus w) <= maxRetries.
Proof.
  intros Hc Hr. cbn [getStatus st_retryCount].
  apply (core_invariant (fun c => retryCount c <= maxRetries)
           allowed h c w0 w); [apply Nat.le_0_l | | done | done].
  intros c1 c2 Hu H1. destruct Hu; cbn; (done || lia).
Qed.

Lemma retry_counter_is_bounded_witness :
  st_retryCount (getStatus failed_world) <= maxRetries /\
  st_retryCount (getStatus failed_world) = 3.
Proof.
  split; [|reflexivity].
  apply (retry_counter_is_bounded any_turn node_host demo_config
           fresh_world failed_world eq_refl).
  apply (run_reachable any_turn
           [CallInit; NetResponse 0 net_down; DelayElapsed 0;
            NetResponse 0 net_down; DelayElapsed 0;
            NetResponse 0 net_down; DelayElapsed 0;
            NetResponse 0 net_down]).
  - vm_compute. tauto.
  - vm_compute. reflexivity.
Defined.

(** X8. [embedUrl] and [isInitialized] go together: in every world reached
    from construction the manager is initialised exactly when it holds a
    non-empty URL.  Hence [getEmbedUrl()] never returns [null] (it throws
    or returns a URL), and [getStatus()] reports [hasEmbedUrl] equal to
    [isInitialized]. *)
Theorem embed_url_iff_initialised allowed h c w0 w :
  construct h c = inr w0 -> reachable allowed w0 w ->
  st_hasEmbedUrl (getStatus w) = st_isInitialized (getStatus w) /\
  (getEmbedUrl (core w) = inl (JsError "SDK no inicializado") \/
   exists url, getEmbedUrl (core w) = inr (Some url) /\ url <> "").
Proof.
  intros Hc Hr. cbn [getStatus st_hasEmbedUrl st_isInitialized].
  assert (truthy (embedUrl (core w)) = isInitialized (core w)) as H.
  { apply (core_invariant
             (fun c => truthy (embedUrl c) = isInitialized c)
             allowed h c w0 w); [done | | done | done].
    intros c1 c2 Hu H1. destruct Hu; cbn; done. }
  split; [done|]. unfold getEmbedUrl.
  destruct (isInitialized (core w)); [right | by left].
  destruct (embedUrl (core w)) as [url|]; [|done].
  exists url. split; [done|]. intros ->. done.
Qed.

Lemma embed_url_iff_initialised_witness :
  st_hasEmbedUrl (getStatus refreshing_world) = false /\
  getEmbedUrl (core refreshing_world) = inl (JsError "SDK no inicializado").
Proof.
  assert (reachable any_turn fresh_world refreshing_world) as Hr.
  { apply (run_reachable any_turn
             [CallInit; NetResponse 0 (auth_ok "tok-old" None);
              NetResponse 0 (link_ok "https://pay.example/embed/old");
              CallRefresh]).
    - vm_compute. tauto.
    - vm_compute. reflexivity. }
  destruct (embed_url_iff_initialised any_turn node_host demo_config
              fresh_world refreshing_world eq_refl Hr) as [H _].
  split; [rewrite H|]; reflexivity.
Defined.

(** ** Timers and teardown *)

(** X9. At most one refresh timer is pending at any time: a new one is
    scheduled only after the previous one was cancelled or has fired. *)
Theorem at_most_one_refresh_timer h c w0 w :
  construct h c = inr w0 -> reachable any_turn w0 w ->
  size (timers w) <= 1.
Proof.
  intros Hc Hr.
  pose proof (reachable_one_pending_timer _ _ _ _ Hc Hr) as Hone.
  destruct (set_choose_or_empty (timers w)) as [[x Hx]|He].
  - assert (timers w = {[x]}) as ->; [|by rewrite size_singleton].
    apply set_eq. intros y. rewrite elem_of_singleton. split.
    + intros Hy. pose proof (Hone _ Hx). pose proof (Hone _ Hy). congruence.
    + by intros ->.
  - apply size_empty_iff in He. lia.
Qed.

Lemma at_most_one_refresh_timer_witness :
  size (timers refreshed_world) <= 1 /\ timers refreshed_world = {[2]}.
Proof.
  split; [|vm_compute; reflexivity].
  apply (at_most_one_refresh_timer node_host demo_config fresh_world
           refreshed_world eq_refl).
  apply (run_reachable any_turn
           [CallInit; NetResponse 0 (auth_ok "tok-old" None);
            NetResponse 0 (link_ok "https://pay.example/embed/old");
            CallRefresh; NetResponse 0 (auth_ok "tok-new" None);
            NetResponse 0 (link_ok "https://pay.example/embed/new")]).
  - vm_compute. tauto.
  - vm_compute. reflexivity.
Defined.

(** X10. [destroy()] tears the session down: on a host with timers, in
    every world reached from construction, after [destroy()] both accessors
    throw "SDK no inicializado", no refresh timer is left to fire, and a
    second [destroy()] changes nothing. *)
Theorem destroy_tears_the_session_down h c w0 w :
  construct h c = inr w0 -> reachable any_turn w0 w ->
  hasTimers (host w) = true ->
  let w' := destroy w in
  getAccessToken (core w') = inl (JsError "SDK no inicializado") /\
  getEmbedUrl (core w') = inl (JsError "SDK no inicializado") /\
  (forall id, step (TimerFires id) w' = None) /\
  destroy w' = w'.
Proof.
  intros Hc Hr Ht w'. subst w'.
  destruct (destroy_clears w) as (_ & _ & Hi & _).
  unfold getAccessToken, getEmbedUrl. rewrite Hi.
  split_and!; try done.
  - intros id. cbn [step].
    rewrite (destroy_cancels_every_timer _ _ _ _ Hc Hr Ht).
    by rewrite bool_decide_eq_false_2 by apply not_elem_of_empty.
  - apply destroy_idempotent.
Qed.

Lemma destroy_tears_the_session_down_witness :
  getAccessToken (core (destroy ready_world))
  = inl (JsError "SDK no inicializado") /\
  step (TimerFires 1) (destroy ready_world) = None /\
  step (TimerFires 1) ready_world <> None.
Proof.
  assert (reachable any_turn fresh_world ready_world) as Hr.
  { apply (run_reachable any_turn
             [CallInit; NetResponse 0 (auth_ok "tok-old" None);
              NetResponse 0 (link_ok "https://pay.example/embed/old")]).
    - vm_compute. tauto.
    - vm_compute. reflexivity. }
  destruct (destroy_tears_the_session_down node_host demo_config
              fresh_world ready_world eq_refl Hr eq_refl)
    as (H1 & _ & H3 & _).
  split; [exact H1|]. split; [apply H3|].
  vm_compute. discriminate.
Defined.

Section AwaitingAfterTeardown.

Variable b : Backend.

Lemma drive_succeeds_from k fuel na nl w d dl :
  tasks w = [TInit AwaitAuth k] -> hasTimers (host w) = true ->
  auth_data (on_auth b na) = Some d ->
  link_data (on_link b nl) = Some dl ->
  drive (S (S fuel)) b na nl w =
  drive fuel b (S na) (S nl)
    (settle k
       (Resolved (VSession (d_accessToken d) (d_embedUrl dl)
                           (environment (host w))))
       (_triggerCallback OnSuccess
          (PSuccess (d_accessToken d) (d_embedUrl dl) (environment (host w)))
          (became_ready (on_auth b na) (on_link b nl) d dl [] w))).
Proof.
  intros Hts Ht Ha Hl.
  rewrite (drive_step_auth _ _ _ _ k []) by done.
  rewrite (init_after_auth_accepts _ _ d) by done.
  rewrite auth_accepted_reschedules by done.
  rewrite (drive_step_link _ _ _ _ k []) by (proj; by rewrite Hts).
  rewrite (init_after_link_accepts _ _ dl) by done.
  proj. do 3 f_equal.
  unfold became_ready.
  apply world_ext; proj; unfold cancelled, timers_after_cancel; proj;
    rewrite ?Hts;
    destruct (_refreshTimeout (core w)); rewrite <- ?app_assoc; done.
Qed.

End AwaitingAfterTeardown.

(** X11. [destroy()] does not cancel an [init()] in flight.  When
    [destroy()] is called while [init()] awaits the authentication response
    and the backend then accepts the authentication and the link
    generation, the manager ends initialised with the delivered session
    and a refresh timer pending, as if [destroy()] had not been called. *)
Theorem destroy_does_not_cancel_init_in_flight b w d dl na nl fuel :
  tasks w = [TInit AwaitAuth FromHost] -> hasTimers (host w) = true ->
  auth_data (on_auth b na) = Some d -> link_data (on_link b nl) = Some dl ->
  2 <= fuel ->
  let w' := drive fuel b na nl (destroy w) in
  tasks w' = [] /\
  core w' = mkCore (d_accessToken d) (d_embedUrl dl) true false 0
                   (Some (nextTimer w)) /\
  nextTimer w ∈ timers w' /\
  last (trace w') =
    Some (EvSettled CInit
            (Resolved (VSession (d_accessToken d) (d_embedUrl dl)
                                (environment (host w))))).
Proof.
  intros Hts Ht Ha Hl Hf w'. subst w'.
  destruct fuel as [|[|fuel]]; [lia..|].
  assert (host (destroy w) = host w /\ tasks (destroy w) = tasks w /\
          nextTimer (destroy w) = nextTimer w) as (Hh & Hk & Hn).
  { unfold destroy; cbv zeta; proj.
    by destruct (_refreshTimeout (core w)), (hasTimers (host w)). }
  rewrite (drive_succeeds_from _ _ _ _ _ _ d dl)
    by (done || by rewrite ?Hh, ?Hk).
  cbn [settle]. rewrite _triggerCallback_notified, emit_grow, grow_grow.
  rewrite drive_done by done.
  unfold became_ready. proj. rewrite Hh, Hn.
  split_and!; try done.
  - apply elem_of_union_l. by apply elem_of_singleton.
  - by rewrite !app_assoc, last_snoc.
Qed.

Lemma destroy_does_not_cancel_init_in_flight_witness :
  let w' := drive 2 flaky_backend 2 0 (destroy loading_world) in
  isInitialized (core (destroy loading_world)) = false /\
  isInitialized (core w') = true /\
  getAccessToken (core w') = inr (Some "tok-3") /\
  1 ∈ timers w'.
Proof.
  destruct (destroy_does_not_cancel_init_in_flight flaky_backend
              loading_world
              (mkData (Some "tok-3") (Some 1800%Z) None)
              (mkData None None (Some "https://pay.example/embed/1"))
              2 0 2 eq_refl eq_refl eq_refl eq_refl (le_n 2))
    as (_ & Hc & Ht & _).
  cbv zeta. rewrite Hc. split_and!; [reflexivity.. | exact Ht].
Defined.

Lemma init_returns_while_loading k w :
  isLoading (core w) = true -> init k w = settle k (Resolved VUndefined) w.
Proof. unfold init. by intros ->. Qed.

(** X12. A refresh timer that fires while an [init] is in progress
    refreshes nothing: [refresh] drops the session, its [init()] returns at
    once because the loading flag is up, and [onTokenExpired] is called
    with [newToken: null].  No request is sent and the call in progress
    goes on. *)
Theorem scheduled_refresh_during_init_reports_null_token w id :
  isLoading (core w) = true -> id ∈ timers w ->
  onTokenExpired (config w) = true ->
  exists w',
    step (TimerFires id) w = Some w' /\
    trace w' = trace w ++ [EvCallback OnTokenExpired (PTokenExpired None)] /\
    tasks w' = tasks w /\
    core w' = set_retryCount 0
                (set_embedUrl None
                   (set_accessToken None
                      (set_isInitialized false (core w)))).
Proof.
  intros Hl Hid Hte. eexists. split.
  { cbn [step]. by rewrite bool_decide_eq_true_2. }
  unfold refresh. cbv zeta.
  rewrite init_returns_while_loading by done.
  cbn [settle]. rewrite _triggerCallback_on by done.
  unfold fire. proj. done.
Qed.

Lemma scheduled_refresh_during_init_reports_null_token_witness :
  exists w',
    step (TimerFires 1) refreshing_world = Some w' /\
    callbacks OnTokenExpired (trace w') = [PTokenExpired None] /\
    requests Authenticate (trace w')
    = requests Authenticate (trace refreshing_world).
Proof.
  assert (1 ∈ timers refreshing_world) as Hid.
  { assert (timers refreshing_world = {[1]}) as ->
      by (vm_compute; reflexivity).
    by apply elem_of_singleton. }
  destruct (scheduled_refresh_during_init_reports_null_token
              refreshing_world 1 eq_refl Hid eq_refl)
    as (w' & Hs & Htr & _).
  exists w'. split; [exact Hs|]. rewrite Htr.
  split; vm_compute; reflexivity.
Defined.

(** ** Rendering *)

Lemma render_dispatch_events target options w :
  exists l evs,
    render_dispatch target options w = grow l evs w /\
    (forall ep, requests ep evs = []) /\
    (forall n, n <> OnLoad -> callbacks n evs = []).
Proof.
  assert (forall r,
            let evs := notified OnLoad (PLoad r) w ++
                       [EvSettled CRender (Resolved (VRender r))] in
            (forall ep, requests ep evs = []) /\
            (forall n, n <> OnLoad -> callbacks n evs = [])) as Hload.
  { intros r evs. subst evs. split.
    - intros ep. by rewrite requests_app, requests_notified, requests_settled.
    - intros n Hn.
      by rewrite callbacks_app, callbacks_notified_other, callbacks_settled. }
  assert (forall e,
            (forall ep, requests ep [EvSettled CRender (Rejected e)] = []) /\
            (forall n, n <> OnLoad ->
                       callbacks n [EvSettled CRender (Rejected e)] = []))
    as Hthrow.
  { intros e. split; [intros ep; apply requests_settled|].
    intros n _. apply callbacks_settled. }
  unfold render_dispatch, _autoRender, _renderIframe, _renderWebView,
    _returnApiData, render_throw. cbv zeta.
  repeat case_match;
    rewrite ?_triggerCallback_notified, ?emit_grow, ?suspend_grow, ?grow_grow;
    eexists _, _; (split; [reflexivity|]);
    first [ apply Hload | apply Hthrow | by split; [intros []|] ].
Qed.

(** X13. [render] on an initialised manager is read-only towards the
    session: whatever the target, the mode and the host environment, it
    sends no request, changes no field and no timer, and calls no observer
    other than [onLoad]; in particular a [render] that is rejected at once
    (unknown container, iframe mode outside a browser) is not reported to
    [onError]. *)
Theorem render_on_initialised_manager_sends_nothing target options w :
  isInitialized (core w) = true ->
  let w' := render target options w in
  core w' = core w /\ timers w' = timers w /\
  round_trips w' = round_trips w /\
  (forall ep, requests ep (trace w') = requests ep (trace w)) /\
  (forall n, n <> OnLoad ->
             callbacks n (trace w') = callbacks n (trace w)).
Proof.
  intros Hi w'. subst w'. unfold render. rewrite Hi. cbn [negb].
  pose proof (render_dispatch_only_renders target options w) as Hor.
  destruct (only_renders_round_trips _ _ Hor) as [Hc Hrt].
  pose proof (only_renders_timer_view _ _ Hor) as [= Htm _ _].
  destruct (render_dispatch_events target options w)
    as (l & evs & E & Hreq & Hcb).
  split_and!; try done.
  - intros ep. rewrite E. cbn [trace grow].
    by rewrite requests_app, Hreq, app_nil_r.
  - intros n Hn. rewrite E. cbn [trace grow].
    by rewrite callbacks_app, Hcb, app_nil_r.
Qed.

Lemma render_on_initialised_manager_sends_nothing_witness :
  let w' := render (ById "missing")
                   (mkRenderOptions (Some "iframe") None None None None)
                   ready_world in
  core w' = core ready_world /\
  callbacks OnError (trace w') = callbacks OnError (trace ready_world) /\
  settlements (trace w') =
    [(CInit, Resolved (VSession (Some "tok-old")
                                (Some "https://pay.example/embed/old") Node));
     (CRender,
      Rejected (JsError "Modo iframe solo disponible en entorno web"))].
Proof.
  destruct (render_on_initialised_manager_sends_nothing (ById "missing")
              (mkRenderOptions (Some "iframe") None None None None)
              ready_world eq_refl) as (Hc & _ & _ & _ & Hcb).
  split; [exact Hc|]. split; [by apply Hcb|].
  vm_compute. reflexivity.
Defined.

(** X14. Outside a browser, [render] on an initialised manager in any mode
    but "iframe" resolves at once, whatever the target: with the WebView
    descriptor in "webview" mode or on React Native, and with the API data
    otherwise.  The result carries the manager's URL (and token), and
    [onLoad] is called with it before [render] resolves. *)
Theorem render_outside_a_browser_resolves_at_once target options w :
  isInitialized (core w) = true -> environment (host w) <> Web ->
  or_else (o_mode options) (config_mode (config w)) <> "iframe" ->
  exists r,
    render target options w =
    emit (EvSettled CRender (Resolved (VRender r)))
         (_triggerCallback OnLoad (PLoad r) w) /\
    (r = RWebview (embedUrl (core w)) (rc_width (renderConfig options))
                  (rc_height (renderConfig options))
                  (rc_style (renderConfig options)) (environment (host w)) \/
     r = RApi (accessToken (core w)) (embedUrl (core w))
              (renderConfig options) (environment (host w))).
Proof.
  intros Hi Hweb Hmode. unfold render. rewrite Hi. cbn [negb].
  unfold render_dispatch. cbv zeta.
  destruct (String.eqb _ "iframe") eqn:E1.
  { by apply String.eqb_eq in E1. }
  destruct (String.eqb _ "webview").
  { eexists. split; [reflexivity | by left]. }
  destruct (String.eqb _ "api-only").
  { eexists. split; [reflexivity | by right]. }
  unfold _autoRender.
  destruct (environment (host w)) eqn:Henv; try done;
    eexists; (split; [reflexivity|]); rewrite ?Henv; auto.
Qed.

Lemma render_outside_a_browser_resolves_at_once_witness :
  exists r,
    render OtherTarget (mkRenderOptions None None None None None) ready_world
    = emit (EvSettled CRender (Resolved (VRender r)))
           (_triggerCallback OnLoad (PLoad r) ready_world) /\
    r <> RIframe (Some "https://pay.example/embed/old").
Proof.
  assert (environment (host ready_world) <> Web) as Hweb
    by (vm_compute; discriminate).
  assert (or_else None (config_mode (config ready_world)) <> "iframe")
    as Hmode by (vm_compute; discriminate).
  destruct (render_outside_a_browser_resolves_at_once OtherTarget
              (mkRenderOptions None None None None None) ready_world
              eq_refl Hweb Hmode) as (r & Hr & Hcase).
  exists r. split; [exact Hr|].
  destruct Hcase as [-> | ->]; discriminate.
Defined.

(** ** The HTTP client *)

(** X15. The requests of the manager carry their credential header and
    nothing else: the headers the caller passes replace the merged ones, so
    the default [Content-Type: application/json] is never sent with them.
    The older class merges the same header into the default, and keeps
    it. *)
Theorem manager_requests_carry_no_content_type c :
  req_headers (requestOptions (credential_options c)) = credential_header c /\
  req_headers (requestOptions (credential_options c)) !! "Content-Type"
  = None /\
  legacy_request_headers (credential_header c) !! "Content-Type"
  = Some "application/json" /\
  req_headers (requestOptions (mkOptions None None None)) !! "Content-Type"
  = Some "application/json".
Proof.
  assert (credential_header c !! "Content-Type" = None) as Hnone.
  { destruct c; cbn [credential_header]; by apply lookup_singleton_ne. }
  split_and!.
  - by destruct c.
  - by destruct c.
  - unfold legacy_request_headers.
    rewrite lookup_union_r by done. apply lookup_singleton_eq.
  - cbn. rewrite lookup_union_r by apply lookup_empty.
    apply lookup_singleton_eq.
Qed.

Section TransportFacts.

Variable JSON_parse : string -> option Response.

Lemma request_delivered_by h f :
  request h (delivered_by JSON_parse (environment h) f)
  = http_request JSON_parse (environment h) f.
Proof.
  unfold request, delivered_by, http_request.
  by destruct (fetched _ _ _).
Qed.

End TransportFacts.

(** X16. A response with a status outside 200-299 is an error in the
    browser transport only.  There [request] rejects with "Error de red
    (...): HTTP <status>: <statusText>" without reading the body; on Node
    and on React Native the body is parsed and returned like that of a
    successful response, so the manager sees the backend's own
    [success: false] answer. *)
Theorem error_status_is_rejected_in_the_browser_only
    JSON_parse env status statusText text r :
  JSON_parse text = Some r ->
  http_request JSON_parse env (FetchResponds false status statusText text) =
  match env with
  | Node | ReactNative => inr r
  | _ => inl (JsError ("Error de red (" +:+ env_name env +:+ "): HTTP "
                       +:+ pretty status +:+ ": " +:+ statusText))
  end.
Proof.
  intros Hp. unfold http_request, fetched, transport.
  destruct env; cbn [_browserFetch _nodeFetch _reactNativeFetch error_message];
    unfold _parseResponse; by rewrite ?Hp.
Qed.

Lemma error_status_is_rejected_in_the_browser_only_witness :
  http_request demo_parse Web
    (FetchResponds false 401 "Unauthorized" "{}")
  = inl (JsError "Error de red (web): HTTP 401: Unauthorized") /\
  http_request demo_parse Node
    (FetchResponds false 401 "Unauthorized" "{}")
  = inr (mkResponse false None None).
Proof.
  split.
  - rewrite (error_status_is_rejected_in_the_browser_only demo_parse Web 401
               "Unauthorized" "{}" (mkResponse false None None) eq_refl).
    vm_compute. reflexivity.
  - apply (error_status_is_rejected_in_the_browser_only demo_parse Node 401
             "Unauthorized" "{}" (mkResponse false None None) eq_refl).
Defined.

(** X17. On Node every failure of [fetch] (and of the import of
    node-fetch) reaches the caller of [request] with the same message,
    whatever its cause: "Error de red (node): node-fetch no disponible en
    entorno Node.js".  In the other environments the cause is kept. *)
Theorem node_transport_hides_the_cause JSON_parse env cause :
  http_request JSON_parse env (FetchRejects cause) =
  inl (JsError ("Error de red (" +:+ env_name env +:+ "): " +:+
                match env with
                | Node => "node-fetch no disponible en entorno Node.js"
                | _ => cause
                end)).
Proof. by destruct env. Qed.

(** X18. An HTTP error status is retried like any other failure.  In a
    browser, when every authentication request is answered with a status
    outside 200-299 (a 401 for a wrong API key, say), [init()] still makes
    its four attempts with the 1 s, 2 s and 3 s backoff before it rejects
    with the status of the last answer. *)
Theorem http_error_status_is_retried
    JSON_parse h c w fa fl status statusText text fuel :
  construct h c = inr w -> config_autoInit h c = false ->
  environment h = Web ->
  (forall n, exists s st t, fa n = FetchResponds false s st t) ->
  fa maxRetries = FetchResponds false status statusText text ->
  2 * maxRetries + 1 <= fuel ->
  let w' := drive fuel (http_backend JSON_parse Web fa fl) 0 0
                  (init FromHost w) in
  tasks w' = [] /\
  length (requests Authenticate (trace w')) = maxRetries + 1 /\
  backoff_delays (trace w') = [1000; 2000; 3000]%Z /\
  last (trace w') =
    Some (EvSettled CInit
            (Rejected (JsError ("Error de red (web): HTTP " +:+ pretty status
                                +:+ ": " +:+ statusText)))).
Proof.
  intros Hc Hm Hweb Hfa Hlast Hf w'. subst w'.
  rewrite (construct_manual _ _ _ Hc Hm).
  set (w0 := mkWorld h c fresh_core [] ∅ 1 []).
  set (b := http_backend JSON_parse Web fa fl).
  assert (forall n, auth_data (on_auth b n) = None) as Hb.
  { intros n. destruct (Hfa n) as (s & st & t & E).
    unfold b, http_backend, delivered_by, fetched, transport; cbn [on_auth].
    by rewrite E. }
  destruct (init_exhausts_for b FromHost 0 0 fuel w0)
    as (e & Hrej & ->); [done | done | done | apply Nat.le_0_l | done | exact Hf |].
  change (retryCount (core w0)) with 0 in *.
  change (maxRetries - 0) with maxRetries in *.
  assert (e = JsError ("Error de red (web): HTTP " +:+ pretty status
                       +:+ ": " +:+ statusText)) as ->.
  { revert Hrej.
    unfold _authenticate_resume, request, b, http_backend, delivered_by,
      fetched, transport; cbn [on_auth host w0 Nat.add].
    rewrite Hlast, Hweb. cbn. intros [= <-]. reflexivity. }
  rewrite _handleError_reported. cbn [settle].
  rewrite emit_grow, grow_grow. unfold gave_up. proj.
  split_and!; try done.
  - rewrite !requests_app, requests_reported, requests_attempts,
      requests_settled.
    rewrite !length_app, length_replicate.
    change (requests Authenticate (trace w0)) with (@nil Credential).
    cbn [length]. lia.
  - rewrite !backoff_delays_app, backoff_delays_reported,
      backoff_delays_attempts.
    cbn. done.
  - by rewrite !app_assoc, last_snoc.
Qed.

Lemma http_error_status_is_retried_witness :
  let unauthorized := fun _ : nat =>
        FetchResponds false 401 "Unauthorized" "{}" in
  let w0 := mkWorld web_host
              (mkConfig "pk_test=0123456789" (Some false) None
                        true true true true) fresh_core [] ∅ 1 [] in
  let w' := drive 7 (http_backend demo_parse Web unauthorized unauthorized)
                  0 0 (init FromHost w0) in
  length (requests Authenticate (trace w')) = 4 /\
  last (trace w') =
    Some (EvSettled CInit
            (Rejected (JsError "Error de red (web): HTTP 401: Unauthorized"))).
Proof.
  destruct (http_error_status_is_retried demo_parse web_host
              (mkConfig "pk_test=0123456789" (Some false) None
                        true true true true)
              (mkWorld web_host
                 (mkConfig "pk_test=0123456789" (Some false) None
                           true true true true) fresh_core [] ∅ 1 [])
              (fun _ => FetchResponds false 401 "Unauthorized" "{}")
              (fun _ => FetchResponds false 401 "Unauthorized" "{}")
              401 "Unauthorized" "{}" 7 eq_refl eq_refl eq_refl
              (fun _ => ex_intro _ 401
                 (ex_intro _ "Unauthorized" (ex_intro _ "{}" eq_refl)))
              eq_refl (le_n 7)) as (_ & H2 & _ & H4).
  cbv zeta. split; [exact H2|]. rewrite H4. vm_compute. reflexivity.
Defined.

(** ** Environment detection and the page bootstrap *)

Lemma detect_web g :
  detect g = Web <-> has_window g = true /\ is_Some (the_document g).
Proof.
  unfold detect.
  destruct (has_window g); cbn [andb].
  - case_bool_decide as Hd; [by split|].
    split; [|by intros [_ ?]].
    repeat case_match; done.
  - split; [|by intros [? _]]. repeat case_match; done.
Qed.

(** X19. The environment is "web" exactly when both [window] and
    [document] exist when the script is loaded, whatever else the host
    offers (a Node process with a DOM, an Electron window and a React
    Native host with a DOM polyfill all count as "web").  As long as the
    globals stay what they were, [_renderIframe] cannot fail with
    "Document no disponible en este entorno": where it gets past the
    environment check, the document exists. *)
Theorem iframe_rendering_always_finds_the_document g target cfg w :
  host w = host_of g ->
  (environment (host w) = Web <->
   has_window g = true /\ is_Some (document (host w))) /\
  _renderIframe target cfg w <>
  render_throw "Document no disponible en este entorno" w.
Proof.
  intros Hh. rewrite Hh. cbn [host_of environment document].
  split; [apply detect_web|].
  unfold _renderIframe, render_throw. rewrite Hh.
  cbn [host_of environment document].
  assert (forall e, suspend (TIframe cfg) w <> emit e w) as Hsus.
  { intros e H. apply (f_equal (fun v => length (trace v))) in H.
    cbn [trace suspend emit] in H. rewrite length_app in H.
    cbn [length] in H. lia. }
  assert (forall m1 m2, m1 <> m2 ->
            emit (EvSettled CRender (Rejected (JsError m1))) w <>
            emit (EvSettled CRender (Rejected (JsError m2))) w) as Hne.
  { intros m1 m2 Hm H. apply (f_equal trace) in H.
    cbn [trace emit] in H. apply app_inv_head in H. congruence. }
  case_bool_decide as Hweb; cbn [negb].
  - apply detect_web in Hweb as [_ [ids ->]].
    destruct target as [id| |]; [case_bool_decide|..];
      first [apply Hsus | apply Hne; discriminate].
  - by apply Hne.
Qed.

Lemma iframe_rendering_always_finds_the_document_witness :
  let jsdom := mkGlobals true (Some ["checkout"]) None false true false true in
  let w := mkWorld (host_of jsdom) demo_config fresh_core [] ∅ 1 [] in
  environment (host w) = Web /\
  _renderIframe (ById "checkout") (renderConfig api_only) w <>
  render_throw "Document no disponible en este entorno" w.
Proof.
  cbv zeta.
  destruct (iframe_rendering_always_finds_the_document
              (mkGlobals true (Some ["checkout"]) None false true false true)
              (ById "checkout") (renderConfig api_only)
              (mkWorld (host_of (mkGlobals true (Some ["checkout"]) None
                                           false true false true))
                       demo_config fresh_core [] ∅ 1 [])
              eq_refl) as [_ H].
  split; [reflexivity | exact H].
Defined.

(** X20. The page bootstrap renders before the session exists.  For an
    element with a non-empty [data-api-key], in "auto" or "iframe" mode,
    [autoInit] constructs a manager, whose constructor starts [init()], and
    calls [render] at once; that [render] finds the loading flag up, does
    not wait, and attaches the iframe while [embedUrl] is still [null] and
    the only thing sent is the constructor's authentication request. *)
Theorem auto_init_renders_before_the_url_exists h ids m key :
  environment h = Web -> document h = Some ids ->
  data_api_key m = Some key -> key <> "" ->
  (or_else (data_mode m) "auto" = "auto" \/
   or_else (data_mode m) "auto" = "iframe") ->
  exists w cfg,
    autoInit h [m] = [w] /\
    tasks w = [TInit AwaitAuth FromConstructor; TIframe cfg] /\
    trace w = [EvRequest Authenticate (XApiKey key)] /\
    embedUrl (core w) = None /\ isInitialized (core w) = false /\
    rc_width cfg = or_else (data_width m) "100%" /\
    rc_height cfg = or_else (data_height m) "600px".
Proof.
  intros Hweb Hdoc Hkey Hne Hmode.
  assert (String.eqb key "" = false) as Hk by (by apply String.eqb_neq).
  unfold autoInit. rewrite Hweb, Hdoc.
  rewrite bool_decide_eq_true_2 by done.
  rewrite bool_decide_eq_true_2 by done.
  cbn [negb orb omap list_omap].
  assert (forall w, autoInit_marker h m = Some w ->
            match autoInit_marker h m with
            | Some y => [y]
            | None => []
            end = [w]) as Hlist by (by intros w ->).
  enough (exists w cfg,
            autoInit_marker h m = Some w /\
            tasks w = [TInit AwaitAuth FromConstructor; TIframe cfg] /\
            trace w = [EvRequest Authenticate (XApiKey key)] /\
            embedUrl (core w) = None /\ isInitialized (core w) = false /\
            rc_width cfg = or_else (data_width m) "100%" /\
            rc_height cfg = or_else (data_height m) "600px")
    as (w & cfg & Hw & Hrest).
  { exists w, cfg. split; [by apply Hlist | done]. }
  clear Hlist. unfold autoInit_marker. rewrite Hkey.
  cbn [truthy default from_option id]. rewrite Hk. cbn [negb].
  cbv zeta. unfold construct. cbn [apiKey]. rewrite Hk.
  unfold config_autoInit. cbn [cfg_autoInit]. rewrite Hweb.
  rewrite bool_decide_eq_true_2 by done.
  set (c := mkConfig key None (Some (or_else (data_mode m) "auto"))
                     false false false false).
  set (o := mkRenderOptions (Some (or_else (data_mode m) "auto"))
              (Some (or_else (data_width m) "100%"))
              (Some (or_else (data_height m) "600px")) None None).
  set (w0 := mkWorld h c fresh_core [] ∅ 1 []).
  rewrite (init_attempting FromConstructor w0) by done.
  set (w1 := attempting FromConstructor (retryCount (core w0))
               [auth_request w0] w0).
  assert (render Element o w1 = suspend (TIframe (renderConfig o)) w1) as ->.
  { unfold render. cbn [negb isInitialized core w1 attempting fresh_core w0
                        set_isLoading set_retryCount].
    rewrite init_returns_while_loading by done.
    cbn [settle]. unfold render_dispatch. cbv zeta.
    assert (or_else (o_mode o) (config_mode (config w1))
            = or_else (data_mode m) "auto") as ->.
    { cbn [o_mode o or_else].
      destruct Hmode as [-> | ->]; reflexivity. }
    assert (_renderIframe Element (renderConfig o) w1
            = suspend (TIframe (renderConfig o)) w1) as Hif.
    { unfold _renderIframe. cbn [host w1 attempting w0].
      rewrite Hweb, Hdoc. by rewrite bool_decide_eq_true_2. }
    destruct Hmode as [-> | ->]; cbn [String.eqb Ascii.eqb Bool.eqb]; [|done].
    unfold _autoRender. cbn [host w1 attempting w0]. by rewrite Hweb. }
  eexists _, _. split; [reflexivity|].
  unfold w1. proj. done.
Qed.

Lemma auto_init_renders_before_the_url_exists_witness :
  exists w cfg,
    autoInit web_host [mkMarker (Some "pk_test=0123456789") None None None]
    = [w] /\
    tasks w = [TInit AwaitAuth FromConstructor; TIframe cfg] /\
    embedUrl (core w) = None.
Proof.
  destruct (auto_init_renders_before_the_url_exists web_host ["checkout"]
              (mkMarker (Some "pk_test=0123456789") None None None)
              "pk_test=0123456789" eq_refl eq_refl eq_refl)
    as (w & cfg & H1 & H2 & _ & H4 & _); [discriminate | by left |].
  by exists w, cfg.
Defined.

(** X21. [autoInit] does nothing outside a browser; in a browser it creates
    one manager for each marked element that has a non-empty
    [data-api-key], each with its own authentication request in flight,
    and skips the others. *)
Theorem auto_init_creates_one_manager_per_keyed_element h markers :
  (environment h <> Web -> autoInit h markers = []) /\
  (environment h = Web -> is_Some (document h) ->
   length (autoInit h markers)
   = length (filter (fun m => truthy (data_api_key m) = true) markers) /\
   Forall (fun w => round_trips w = 1 /\
                    length (requests Authenticate (trace w)) = 1)
          (autoInit h markers)).
Proof.
  split.
  - intros Hn. unfold autoInit. by rewrite bool_decide_eq_false_2.
  - intros Hweb Hdoc. unfold autoInit.
    rewrite !bool_decide_eq_true_2 by done. cbn [negb orb].
    assert (forall m w, autoInit_marker h m = Some w ->
              round_trips w = 1 /\
              length (requests Authenticate (trace w)) = 1) as Hone.
    { intros m w. unfold autoInit_marker.
      destruct (truthy (data_api_key m)) eqn:Hk; [|done]. cbn [negb].
      cbv zeta. unfold construct. cbn [apiKey].
      destruct (String.eqb _ _); [done|].
      unfold config_autoInit. cbn [cfg_autoInit].
      rewrite bool_decide_eq_true_2 by done.
      intros [= <-].
      match goal with |- context [init FromConstructor ?v] =>
        set (w0 := v) end.
      rewrite (init_attempting FromConstructor w0) by done.
      match goal with |- context [render ?t ?o ?v] =>
        pose proof (only_renders_round_trips v (render t o v)) as Hr;
        assert (render t o v = settle (FromRender t o) (Resolved VUndefined) v)
          as E
      end.
      { unfold render. cbn [negb isInitialized core attempting w0 fresh_core
                            set_isLoading set_retryCount].
        by rewrite init_returns_while_loading. }
      destruct Hr as [Hc Hrt]; [rewrite E; apply settle_only_renders|].
      split; [by rewrite Hrt|].
      rewrite E. cbn [settle].
      match goal with |- context [render_dispatch ?t ?o ?v] =>
        destruct (render_dispatch_events t o v) as (l & evs & -> & Hq & _)
      end.
      cbn [trace grow attempting w0].
      by rewrite !requests_app, Hq. }
    assert (forall m, truthy (data_api_key m) = true ->
              is_Some (autoInit_marker h m)) as Hsome.
    { intros m Hk. unfold autoInit_marker. rewrite Hk. cbn [negb].
      cbv zeta. unfold construct. cbn [apiKey].
      destruct (data_api_key m) as [s|]; [|done]. cbn in Hk |- *.
      destruct (String.eqb s ""); [done|]. by eexists. }
    assert (forall m, truthy (data_api_key m) = false ->
              autoInit_marker h m = None) as Hnone.
    { intros m Hk. unfold autoInit_marker. by rewrite Hk. }
    induction markers as [|m markers [IH1 IH2]]; [by split|].
    cbn [omap list_omap]. rewrite filter_cons.
    destruct (truthy (data_api_key m)) eqn:Hk.
    + destruct (Hsome m Hk) as [w Hw]. rewrite Hw.
      rewrite decide_True by done. cbn [length]. split; [by rewrite IH1|].
      constructor; [by eapply Hone | done].
    + rewrite (Hnone m Hk). rewrite decide_False by done. done.
Qed.

Lemma auto_init_creates_one_manager_per_keyed_element_witness :
  length (autoInit web_host
            [mkMarker (Some "pk_test=0123456789") None None None;
             mkMarker None None None None;
             mkMarker (Some "pk_test=9876543210") (Some "api-only") None None])
  = 2.
Proof.
  destruct (auto_init_creates_one_manager_per_keyed_element web_host
              [mkMarker (Some "pk_test=0123456789") None None None;
               mkMarker None None None None;
               mkMarker (Some "pk_test=9876543210") (Some "api-only")
                        None None]) as [_ H].
  destruct (H eq_refl (ex_intro _ ["checkout"] eq_refl)) as [-> _].
  reflexivity.
Defined.

(** X22. [utils.validateApiKey] is stricter than the constructor, which
    does not call it: every key the validator accepts is accepted by the
    constructor, but the constructor takes any non-empty key. *)
Theorem validated_key_is_accepted h c :
  validateApiKey (apiKey c) = true ->
  (exists w, construct h c = inr w) /\
  String.length (apiKey c) > 10 /\
  exists i, String.index 0 "=" (apiKey c) = Some i.
Proof.
  unfold validateApiKey. intros [Hlen Heq]%andb_true_iff.
  apply Nat.ltb_lt in Hlen.
  apply bool_decide_eq_true_1 in Heq as [i Hi].
  split_and!; [|lia|by exists i].
  unfold construct. destruct (String.eqb_spec (apiKey c) "") as [E|_].
  - rewrite E in Hlen. cbn in Hlen. lia.
  - by eexists.
Qed.

Lemma validated_key_is_accepted_witness :
  (exists w, construct node_host demo_config = inr w) /\
  validateApiKey "x" = false /\
  exists w, construct node_host
              (mkConfig "x" None None false false false false) = inr w.
Proof.
  destruct (validated_key_is_accepted node_host demo_config eq_refl)
    as [H _].
  split; [exact H|]. split; [reflexivity|]. by eexists.
Defined.

(** ** The older class: no retry, no guard *)

Lemma legacy_authenticate_rejects o :
  auth_data o = None ->
  exists e, forall w, Legacy._authenticate_resume o w = inl e.
Proof.
  unfold Legacy._authenticate_resume, Legacy._makeRequest.
  destruct o as [cause|[[] [d|] m]]; cbn; try by eexists.
  destruct (truthy (d_accessToken d)); [done | by eexists].
Qed.

(** X23. The older class does not retry.  When the authentication is
    rejected, [init()] has sent one request; it calls [onError] once with
    the context "Error en inicialización" and rejects with the error, and
    nothing is left pending. *)
Theorem legacy_init_makes_one_attempt w o :
  Legacy.tasks w = [] -> Legacy.onError (Legacy.config w) = true ->
  auth_data o = None ->
  exists e w',
    Legacy.step (Legacy.NetResponse 0 o) (Legacy.init Legacy.FromHost w)
    = Some w' /\
    Legacy.tasks w' = [] /\ Legacy.core w' = Legacy.core w /\
    Legacy.trace w' =
      Legacy.trace w ++
      [Legacy.EvRequest Authenticate
         (XApiKey (Legacy.apiKey (Legacy.config w)));
       Legacy.EvResponse Authenticate o;
       Legacy.EvCallback OnError
         (Legacy.PError "Error en inicialización" (error_message e));
       Legacy.EvSettled CInit (Rejected e)].
Proof.
  intros Ht He Ho.
  destruct (legacy_authenticate_rejects o Ho) as [e Hrej].
  exists e. eexists. split.
  { unfold Legacy.step, Legacy.init; cbn [Legacy.tasks Legacy.suspend Legacy.emit].
    rewrite Ht. cbn [app lookup list_lookup].
    unfold Legacy.init_after_auth. rewrite Hrej. reflexivity. }
  unfold Legacy.init_catch, Legacy._handleError, Legacy.settle.
  cbn [Legacy.config Legacy.emit Legacy.take_task Legacy.init Legacy.suspend].
  rewrite He.
  cbn [Legacy.tasks Legacy.core Legacy.trace Legacy.config Legacy.document
       Legacy.emit Legacy.take_task Legacy.init Legacy.suspend].
  rewrite Ht. split_and!; try done.
  by rewrite <- !app_assoc.
Qed.

Lemma legacy_init_makes_one_attempt_witness :
  exists e w',
    Legacy.step (Legacy.NetResponse 0 net_down)
                (Legacy.init Legacy.FromHost Legacy.fresh_world) = Some w' /\
    Legacy.tasks w' = [] /\
    Legacy.trace w' =
      [Legacy.EvRequest Authenticate (XApiKey "pk_test=0123456789");
       Legacy.EvResponse Authenticate net_down;
       Legacy.EvCallback OnError
         (Legacy.PError "Error en inicialización" (error_message e));
       Legacy.EvSettled CInit (Rejected e)].
Proof.
  destruct (legacy_init_makes_one_attempt Legacy.fresh_world net_down
              eq_refl eq_refl eq_refl) as (e & w' & Hs & Ht & _ & Htr).
  exists e, w'. split; [exact Hs|]. split; [exact Ht | exact Htr].
Defined.

(** X24. The older class has no re-entrancy guard: [n] calls of [init()]
    in a row send [n] authentication requests and leave [n] round trips in
    flight. *)
Theorem legacy_init_is_not_guarded n w :
  exists w',
    Legacy.run (replicate n Legacy.CallInit) w = Some w' /\
    Legacy.tasks w' =
      Legacy.tasks w ++
      replicate n (Legacy.TInit Legacy.Authenticating Legacy.FromHost) /\
    Legacy.trace w' =
      Legacy.trace w ++
      replicate n (Legacy.EvRequest Authenticate
                     (XApiKey (Legacy.apiKey (Legacy.config w)))) /\
    Legacy.core w' = Legacy.core w.
Proof.
  revert w. induction n as [|n IH]; intros w.
  - exists w. cbn. by rewrite !app_nil_r.
  - destruct (IH (Legacy.init Legacy.FromHost w)) as (w' & Hr & Ht & Htr & Hc).
    exists w'. cbn [replicate Legacy.run Legacy.step]. rewrite Hr.
    split; [done|]. rewrite Ht, Htr, Hc.
    unfold Legacy.init. cbn. by rewrite <- !app_assoc.
Qed.

(** X25. With the older class, constructing a manager with the default
    auto-initialisation and calling [render] before the session exists
    authenticates twice: [render] does not see the constructor's [init()]
    in flight and starts one of its own. *)
Theorem legacy_render_after_construction_authenticates_twice
    doc c w0 target options :
  Legacy.construct doc c = inr w0 -> Legacy.config_autoInit c = true ->
  let w := Legacy.render target options w0 in
  Legacy.tasks w =
    [Legacy.TInit Legacy.Authenticating Legacy.FromConstructor;
     Legacy.TInit Legacy.Authenticating (Legacy.FromRender target options)] /\
  Legacy.trace w =
    [Legacy.EvRequest Authenticate (XApiKey (Legacy.apiKey c));
     Legacy.EvRequest Authenticate (XApiKey (Legacy.apiKey c))].
Proof.
  unfold Legacy.construct. destruct (String.eqb _ _); [done|].
  intros [= <-] ->. done.
Qed.

Lemma legacy_render_after_construction_authenticates_twice_witness :
  let c := Legacy.mkConfig "pk_test=0123456789" None true true true in
  let w0 := Legacy.init Legacy.FromConstructor
              (Legacy.mkWorld c ["checkout"] Legacy.fresh_core [] []) in
  Legacy.construct ["checkout"] c = inr w0 /\
  length (Legacy.trace (Legacy.render (ById "checkout") api_only w0)) = 2.
Proof.
  cbv zeta. split; [reflexivity|].
  destruct (legacy_render_after_construction_authenticates_twice
              ["checkout"]
              (Legacy.mkConfig "pk_test=0123456789" None true true true)
              (Legacy.init Legacy.FromConstructor
                 (Legacy.mkWorld
                    (Legacy.mkConfig "pk_test=0123456789" None true true true)
                    ["checkout"] Legacy.fresh_core [] []))
              (ById "checkout") api_only eq_refl eq_refl) as [_ H].
  cbv zeta in H. rewrite H. reflexivity.
Defined.

(** ** Rendering an iframe *)

Lemma delete_last_task (l : list Task) t : delete (length l) (l ++ [t]) = l.
Proof. induction l as [|x l IH]; [done|]. cbn. by f_equal. Qed.

Lemma take_last_task t w :
  take_task (length (tasks w)) (suspend t w) = w.
Proof.
  apply world_ext; try done.
  cbn [tasks take_task set_tasks suspend]. apply delete_last_task.
Qed.

Lemma last_task t w :
  tasks (suspend t w) !! length (tasks w) = Some t.
Proof. proj. by rewrite lookup_app_r, Nat.sub_diag by done. Qed.

(** X26. In a browser, [render] on an initialised manager in "iframe" or
    "auto" mode, with a container that exists, attaches the iframe and
    settles only when the iframe has loaded or its load promise was
    rejected.  On load, [onLoad] is called with the iframe ([{ type,
    element }], no URL) and [render] resolves with the URL the manager
    holds at that moment.  When the load promise is rejected with an error
    (the load timeout rejects with "Timeout cargando iframe"), [onError] is
    called once with the context "Error renderizando iframe" and [render]
    rejects with that error.  The session is not touched. *)
Theorem iframe_render_settles_on_load_or_failure target options ids w :
  isInitialized (core w) = true ->
  environment (host w) = Web -> document (host w) = Some ids ->
  (target = Element \/ exists id, target = ById id /\ id ∈ ids) ->
  or_else (o_mode options) (config_mode (config w)) <> "webview" ->
  or_else (o_mode options) (config_mode (config w)) <> "api-only" ->
  let w1 := render target options w in
  let i := length (tasks w) in
  let r := RIframe (embedUrl (core w)) in
  w1 = suspend (TIframe (renderConfig options)) w /\
  step (IframeLoad i) w1 =
    Some (grow [] (notified OnLoad PLoadIframe w ++
                   [EvSettled CRender (Resolved (VRender r))]) w) /\
  forall e,
    step (IframeFail i e) w1 =
    Some (grow [] (reported "Error renderizando iframe" e w ++
                   [EvSettled CRender (Rejected e)]) w).
Proof.
  intros Hi Hweb Hdoc Htarget Hwv Hapi w1 i r. subst w1 i r.
  assert (_renderIframe target (renderConfig options) w
          = suspend (TIframe (renderConfig options)) w) as Hif.
  { unfold _renderIframe. rewrite Hweb, Hdoc.
    rewrite bool_decide_eq_true_2 by done. cbn [negb].
    destruct Htarget as [-> | (id & -> & Hid)]; [done|].
    by rewrite bool_decide_eq_true_2. }
  assert (render target options w
          = suspend (TIframe (renderConfig options)) w) as ->.
  { unfold render. rewrite Hi. cbn [negb].
    unfold render_dispatch. cbv zeta.
    apply String.eqb_neq in Hwv as ->. apply String.eqb_neq in Hapi as ->.
    destruct (String.eqb _ "iframe"); [done|].
    unfold _autoRender. by rewrite Hweb. }
  split; [done|]. split.
  - cbn [step]. rewrite last_task, take_last_task.
    unfold iframe_loaded. cbv zeta.
    by rewrite _triggerCallback_core, _triggerCallback_notified, emit_grow,
      grow_grow.
  - intros e. cbn [step]. rewrite last_task, take_last_task.
    unfold iframe_failed.
    by rewrite _handleError_reported, emit_grow, grow_grow.
Qed.

Lemma iframe_render_settles_on_load_or_failure_witness :
  let w := mkWorld web_host demo_config
             (mkCore (Some "tok-1") (Some "https://pay.example/embed/1")
                     true false 0 (Some 1)) [] {[1]} 2 [] in
  let w1 := render (ById "checkout")
                   (mkRenderOptions None None None None None) w in
  settlements (trace w1) = [] /\
  (exists w2, step (IframeLoad 0) w1 = Some w2 /\
              callbacks OnLoad (trace w2) = [PLoadIframe] /\
              settlements (trace w2) =
                [(CRender,
                  Resolved (VRender
                    (RIframe (Some "https://pay.example/embed/1"))))]) /\
  (exists w2, step (IframeFail 0 (JsError "Timeout cargando iframe")) w1
              = Some w2 /\
              length (callbacks OnError (trace w2)) = 1 /\
              settlements (trace w2) =
                [(CRender, Rejected (JsError "Timeout cargando iframe"))]).
Proof.
  cbv zeta.
  assert ("checkout" ∈ ["checkout"]) as Hin by apply list_elem_of_here.
  assert (or_else None (config_mode demo_config) <> "webview") as H1
    by discriminate.
  assert (or_else None (config_mode demo_config) <> "api-only") as H2
    by discriminate.
  destruct (iframe_render_settles_on_load_or_failure (ById "checkout")
              (mkRenderOptions None None None None None) ["checkout"]
              (mkWorld web_host demo_config
                 (mkCore (Some "tok-1") (Some "https://pay.example/embed/1")
                         true false 0 (Some 1)) [] {[1]} 2 [])
              eq_refl eq_refl eq_refl
              (or_intror (ex_intro _ "checkout" (conj eq_refl Hin)))
              H1 H2) as (Hr & Hl & Hf).
  rewrite Hr. split; [reflexivity|]. split.
  - eexists. split; [rewrite <- Hr; apply Hl|]. split; reflexivity.
  - eexists. split; [rewrite <- Hr; apply Hf|]. split; reflexivity.
Defined.

(** ** Hosts without timers *)

Lemma only_renders_host w w' : only_renders w w' -> host w' = host w.
Proof. by intros (l & evs & -> & _). Qed.

Lemma init_host k w : host (init k w) = host w.
Proof.
  destruct (init_cases k w) as [H | [_ ->]]; [by apply only_renders_host|].
  done.
Qed.

Lemma init_catch_host k e w : host (init_catch k e w) = host w.
Proof.
  destruct (init_catch_cases k e w) as (n & _ & Hc); cbv zeta in Hc.
  destruct Hc as [[evs ->] | [Hr | [evs ->]]]; try done.
  by rewrite (only_renders_host _ _ Hr).
Qed.

Lemma auth_accepted_without_timers d w :
  hasTimers (host w) = false ->
  auth_accepted d w = upd_core (set_accessToken (d_accessToken d)) w.
Proof. unfold auth_accepted. cbv zeta. cbn [host upd_core]. by intros ->. Qed.

(** Without [setTimeout] no turn schedules a timer or stores a handle. *)
Lemma step_without_timers a w w' :
  hasTimers (host w) = false -> timers w = ∅ ->
  _refreshTimeout (core w) = None -> step a w = Some w' ->
  host w' = host w /\ timers w' = ∅ /\ _refreshTimeout (core w') = None.
Proof.
  intros Hh Ht Hrt Hs.
  assert (forall v, host v = host w -> timer_view v = timer_view w ->
            host v = host w /\ timers v = ∅ /\ _refreshTimeout (core v) = None)
    as Hview.
  { intros v Hv [= Hv1 _ Hv2]. by rewrite Hv1, Hv2. }
  destruct a; simpl in Hs.
  - injection Hs as <-. apply Hview; [apply init_host|].
    apply (proj1 (init_timer_view FromHost w)).
  - injection Hs as <-. unfold refresh. cbv zeta. apply Hview.
    + by rewrite init_host.
    + match goal with |- context [init ?k ?v] =>
        by rewrite (proj1 (init_timer_view k v)) end.
  - injection Hs as <-. unfold destroy. cbv zeta. proj. rewrite Hrt.
    by apply Hview.
  - injection Hs as <-. apply Hview.
    + unfold render. destruct (negb _); [apply init_host|].
      apply only_renders_host, render_dispatch_only_renders.
    + unfold render. destruct (negb _);
        [apply (proj1 (init_timer_view _ w))|].
      apply only_renders_timer_view, render_dispatch_only_renders.
  - destruct (tasks w !! i) as [[[] k|]|] eqn:Hi; try done;
      injection Hs as <-.
    + unfold init_after_auth.
      destruct (_authenticate_resume _ _) as [e|v] eqn:Hr.
      * apply Hview; [by rewrite init_catch_host|].
        by rewrite (proj1 (init_catch_timer_view _ _ _)).
      * apply _authenticate_resume_inr in Hr as (d & _ & ->).
        rewrite auth_accepted_without_timers by done.
        unfold _generateEmbedLink. destruct (negb _).
        -- apply Hview; [by rewrite init_catch_host|].
           by rewrite (proj1 (init_catch_timer_view _ _ _)).
        -- by apply Hview.
    + unfold init_after_link.
      destruct (_generateEmbedLink_resume _ _) as [e|v] eqn:Hr.
      * apply Hview; [by rewrite init_catch_host|].
        by rewrite (proj1 (init_catch_timer_view _ _ _)).
      * apply _generateEmbedLink_resume_inr in Hr as (d & _ & ->).
        cbv zeta.
        match goal with |- context [settle k ?o' (_triggerCallback ?n ?p ?v)] =>
          assert (only_renders v (settle k o' (_triggerCallback n p v)))
            as Hor
        end.
        { eapply only_renders_trans;
            [apply only_renders_callback | apply settle_only_renders]. }
        apply Hview;
          [by rewrite (only_renders_host _ _ Hor)
          |by rewrite (only_renders_timer_view _ _ Hor)].
  - destruct (tasks w !! i) as [[[] k|]|] eqn:Hi; try done.
    injection Hs as <-. unfold init_after_delay. apply Hview.
    + by rewrite init_host.
    + by rewrite (proj1 (init_timer_view _ _)).
  - rewrite Ht in Hs.
    by rewrite bool_decide_eq_false_2 in Hs by apply not_elem_of_empty.
  - destruct (tasks w !! i) as [[|cfg]|] eqn:Hi; try done.
    injection Hs as <-.
    pose proof (iframe_loaded_only_renders (take_task i w)) as Hor.
    apply Hview;
      [by rewrite (only_renders_host _ _ Hor)
      |by rewrite (only_renders_timer_view _ _ Hor)].
  - destruct (tasks w !! i) as [[|cfg]|] eqn:Hi; try done.
    injection Hs as <-.
    pose proof (iframe_failed_only_renders e (take_task i w)) as Hor.
    apply Hview;
      [by rewrite (only_renders_host _ _ Hor)
      |by rewrite (only_renders_timer_view _ _ Hor)].
Qed.

(** X27. On a host without [setTimeout] the session is never refreshed on
    its own: in every state reached from construction no refresh timer is
    pending, the manager holds no timer handle, and no scheduled refresh
    can run. *)
Theorem no_refresh_is_scheduled_without_timers h c w0 w :
  construct h c = inr w0 -> hasTimers h = false ->
  reachable any_turn w0 w ->
  timers w = ∅ /\ _refreshTimeout (core w) = None /\
  forall id, step (TimerFires id) w = None.
Proof.
  intros Hc Hh Hr.
  assert (host w = h /\ timers w = ∅ /\ _refreshTimeout (core w) = None)
    as (_ & Ht & Hrt).
  { induction Hr as [|w a w' _ IH _ Hs].
    - unfold construct in Hc. destruct (String.eqb _ _); [done|].
      injection Hc as <-. destruct (config_autoInit h c); [|done].
      remember (mkWorld h c fresh_core [] ∅ 1 []) as w00 eqn:E.
      destruct (init_timer_view FromConstructor w00) as [[= Hv1 _ Hv2] _].
      rewrite init_host, Hv1, Hv2, E. done.
    - destruct IH as (Hhw & Ht & Hrt). rewrite <- Hhw in Hh.
      destruct (step_without_timers _ _ _ Hh Ht Hrt Hs) as (-> & -> & ->).
      done. }
  split_and!; try done.
  intros id. cbn [step]. rewrite Ht.
  by rewrite bool_decide_eq_false_2 by apply not_elem_of_empty.
Qed.

Lemma no_refresh_is_scheduled_without_timers_witness :
  let h := mkHost Node false None in
  let w0 := mkWorld h demo_config fresh_core [] ∅ 1 [] in
  exists w,
    run [CallInit; NetResponse 0 (auth_ok "tok-1" (Some 1800%Z));
         NetResponse 0 (link_ok "https://pay.example/embed/1")] w0 = Some w /\
    isInitialized (core w) = true /\ timers w = ∅ /\
    scheduled_delays (trace w) = [].
Proof.
  cbv zeta. eexists. split; [vm_compute; reflexivity|].
  split; [reflexivity|].
  split; [|vm_compute; reflexivity].
  refine (proj1 (no_refresh_is_scheduled_without_timers
                   (mkHost Node false None) demo_config
                   (mkWorld (mkHost Node false None) demo_config fresh_core
                            [] ∅ 1 []) _ eq_refl eq_refl _)).
  apply (run_reachable any_turn
           [CallInit; NetResponse 0 (auth_ok "tok-1" (Some 1800%Z));
            NetResponse 0 (link_ok "https://pay.example/embed/1")]).
  - vm_compute. tauto.
  - vm_compute. reflexivity.
Defined.
